(** * Rex reactive runtime (src/index.js): a shallow embedding

    The development follows the layering of the source file:
    values and JavaScript [Set]s, the batch scheduler [_BatchUpdater],
    the dependency node [_Dependency], boxed cells [window.ref], the
    expression evaluator [_ExpressionParser], the element walk
    [_processElement], directive registration, the observable container
    [window.reactive] with its proxy traps, and the count-based
    repetition directive [r-for]. *)

From stdpp Require Import gmap strings list fin_maps sets pretty.
From Stdlib Require Import Ascii ZArith Lia.

(** ** JavaScript values *)

(** Identity of a function object (closures are compared by reference). *)
Definition fn := nat.
(** Identity of a heap object. *)
Definition loc := nat.

(** Numbers: the not-a-number value and the integers. Fractions, the
    infinities and the negative zero play no role in the modelled code. *)
Inductive number :=
  | NaN
  | Num (z : Z).

Inductive value :=
  | VUndefined
  | VNull
  | VBool (b : bool)
  | VNum (n : number)
  | VStr (s : string)
  | VFun (f : fn)
  | VObj (l : loc).

Global Instance number_eq_dec : EqDecision number.
Proof. solve_decision. Defined.
Global Instance value_eq_dec : EqDecision value.
Proof. solve_decision. Defined.

(** [a === b]: strict equality. NaN differs from every value, itself
    included; functions and objects are compared by identity. *)
Definition strict_eq (a b : value) : bool :=
  match a, b with
  | VUndefined, VUndefined => true
  | VNull, VNull => true
  | VBool x, VBool y => bool_decide (x = y)
  | VNum (Num x), VNum (Num y) => bool_decide (x = y)
  | VStr x, VStr y => bool_decide (x = y)
  | VFun f, VFun g => bool_decide (f = g)
  | VObj l, VObj m => bool_decide (l = m)
  | _, _ => false
  end.

(** [Number.isNaN(v)]. *)
Definition isNaN (v : value) : bool :=
  match v with VNum NaN => true | _ => false end.

(** [typeof v === "function"]. *)
Definition is_function (v : value) : bool :=
  match v with VFun _ => true | _ => false end.

(** Truthiness of a value used as a condition. *)
Definition truthy (v : value) : bool :=
  match v with
  | VUndefined | VNull => false
  | VBool b => b
  | VNum NaN => false
  | VNum (Num z) => negb (Z.eqb z 0)
  | VStr s => negb (bool_decide (s = String.EmptyString))
  | VFun _ | VObj _ => true
  end.

(** ** JavaScript [Set]: insertion-ordered, without duplicates *)

Module JSSet.
Section Ops.
Context {A : Type} `{EqDecision A}.

(** [s.add(x)]: appended at the end unless already present. *)
Definition add (x : A) (s : list A) : list A :=
  if decide (x ∈ s) then s else s ++ [x].

Definition has (x : A) (s : list A) : bool := bool_decide (x ∈ s).

Definition delete (x : A) (s : list A) : list A :=
  filter (λ y, y ≠ x) s.
End Ops.
End JSSet.

(** ** _BatchUpdater (index.js 37-82) *)

Module BatchUpdater.

(** [queue] and [isUpdating] are the object's two fields. [raf] counts
    the callbacks handed to [requestAnimationFrame] that have not fired
    yet. [ran] and [errors] record, in order, the functions the flush
    has called and those whose exception it has caught and logged. *)
Record t := mk {
  queue : list fn;
  isUpdating : bool;
  raf : nat;
  ran : list fn;
  errors : list fn
}.

Definition init : t := mk [] false 0 [] [].

Definition set_queue (q : list fn) (s : t) : t :=
  mk q (isUpdating s) (raf s) (ran s) (errors s).
Definition set_isUpdating (b : bool) (s : t) : t :=
  mk (queue s) b (raf s) (ran s) (errors s).

(** [_scheduleUpdate()] *)
Definition scheduleUpdate (s : t) : t :=
  mk (queue s) true (S (raf s)) (ran s) (errors s).

(** [add(fn)] *)
Definition add (f : value) (s : t) : t :=
  match f with
  | VFun g =>
      let s1 := set_queue (JSSet.add g (queue s)) s in
      if negb (isUpdating s1) then scheduleUpdate s1 else s1
  | _ => s
  end.

(** What an update function does to the scheduler when it is called:
    it enqueues functions (directly or through a notification) and may
    end by throwing. *)
Inductive action :=
  | Enqueue (g : value)
  | Raise.

Fixpoint run_body (acts : list action) (s : t) : t * bool :=
  match acts with
  | [] => (s, false)
  | Enqueue g :: k => run_body k (add g s)
  | Raise :: _ => (s, true)
  end.

(** One iteration of the [forEach] of [_executeQueue]:
    [try { fn.call(null) } catch (e) { console.error(...) }]. *)
Definition call (code : fn → list action) (s : t) (f : fn) : t :=
  let '(s1, threw) := run_body (code f) s in
  mk (queue s1) (isUpdating s1) (raf s1) (ran s1 ++ [f])
     (if threw then errors s1 ++ [f] else errors s1).

(** [_executeQueue()] *)
Definition executeQueue (code : fn → list action) (s : t) : t :=
  let queueCopy := queue s in
  let s1 := set_queue [] s in
  let s2 := foldl (call code) s1 queueCopy in
  set_isUpdating false s2.

(** The frame callback registered by [_scheduleUpdate] fires. *)
Definition frame (code : fn → list action) (s : t) : t :=
  executeQueue code (mk (queue s) (isUpdating s) (pred (raf s)) (ran s) (errors s)).

(** Scheduler states reachable from the initial one: between two
    frames any synchronous task may call [add]; a frame fires only if
    one has been requested. *)
Inductive reachable (code : fn → list action) : t → Prop :=
  | reach_init : reachable code init
  | reach_add f s : reachable code s → reachable code (add f s)
  | reach_frame s : reachable code s → 0 < raf s → reachable code (frame code s).

End BatchUpdater.

(** ** _Dependency (index.js 90-116) *)

Module Dependency.

(** [subscribers] is a [Set], [varSubs] a [Map] from variable name to
    [Set]. [notificationDisabled] is the [_notificationDisabled] field
    that [reactive] adds to its node ([undefined], hence false, until
    then) and [proxy] its [__proxy] field. *)
Record t := mk {
  subscribers : list fn;
  varSubs : gmap string (list fn);
  notificationDisabled : bool;
  proxy : option loc
}.

(** [new _Dependency()] *)
Definition new : t := mk [] ∅ false None.

(** The variable argument, [null] by default. *)
Definition variable := option string.

Definition var_truthy (v : variable) : bool :=
  match v with Some s => negb (bool_decide (s = String.EmptyString)) | None => false end.

(** [subscribe(fn, variable = null)] *)
Definition subscribe (f : value) (v : variable) (d : t) : t :=
  match f with
  | VFun g =>
      let subs := JSSet.add g (subscribers d) in
      match v with
      | Some k =>
          if var_truthy v then
            let cur := default [] (varSubs d !! k) in
            mk subs (<[k := JSSet.add g cur]> (varSubs d))
               (notificationDisabled d) (proxy d)
          else mk subs (varSubs d) (notificationDisabled d) (proxy d)
      | None => mk subs (varSubs d) (notificationDisabled d) (proxy d)
      end
  | _ => d
  end.

(** The set [notify] iterates over. *)
Definition targets (v : variable) (d : t) : list fn :=
  match v with
  | Some k =>
      if var_truthy v then
        match varSubs d !! k with
        | Some s => s
        | None => subscribers d
        end
      else subscribers d
  | None => subscribers d
  end.

(** [notify(variable = null)]: the node itself is left as it is, the
    targets are handed to the scheduler. *)
Definition notify (v : variable) (d : t) (bu : BatchUpdater.t) : BatchUpdater.t :=
  foldl (λ s f, BatchUpdater.add (VFun f) s) bu (targets v d).

(** The operations a client can apply to a node. *)
Inductive op :=
  | Subscribe (f : value) (v : variable)
  | Notify (v : variable).

Definition apply_op (st : t * BatchUpdater.t) (o : op) : t * BatchUpdater.t :=
  match o with
  | Subscribe f v => (subscribe f v st.1, st.2)
  | Notify v => (st.1, notify v st.1 st.2)
  end.

Definition run_ops (ops : list op) (st : t * BatchUpdater.t) : t * BatchUpdater.t :=
  foldl apply_op st ops.

(** Every function of every per-variable set is a global subscriber. *)
Definition global_covers_keys (d : t) : Prop :=
  ∀ k s f, varSubs d !! k = Some s → f ∈ s → f ∈ subscribers d.

End Dependency.

(** ** window.ref (index.js 1583-1605) *)

Module Ref.

(** The closure state of one cell: the captured [value] and [dep]. *)
Record cell := mk {
  value_of : value;
  dep : Dependency.t
}.

(** [ref(initialValue)] *)
Definition ref (initialValue : value) : cell :=
  mk initialValue Dependency.new.

(** [get value()]: [activeFns] is the stack [_activeFns]. *)
Definition get (activeFns : list fn) (c : cell) : value * cell :=
  match last activeFns with
  | Some f => (value_of c, mk (value_of c) (Dependency.subscribe (VFun f) None (dep c)))
  | None => (value_of c, c)
  end.

(** [set value(newValue)] *)
Definition set (newValue : value) (c : cell) (bu : BatchUpdater.t)
  : cell * BatchUpdater.t :=
  if negb (strict_eq (value_of c) newValue)
  then (mk newValue (dep c), Dependency.notify None (dep c) bu)
  else (c, bu).

End Ref.

(** ** Console *)

Inductive log_entry :=
  | LogWarn (tag : string) (detail : value)
  | LogError (tag : string) (detail : value).

(** Outcome of a call: a normal return or a thrown exception. *)
Inductive res (A : Type) :=
  | Ok (a : A)
  | Throw (e : string).
Arguments Ok {A} a.
Arguments Throw {A} e.

(** ** Strings *)

Module Str.

Definition chars (s : string) : list ascii := String.list_ascii_of_string s.
Definition of_chars (cs : list ascii) : string := String.string_of_list_ascii cs.

Definition code (c : ascii) : nat := nat_of_ascii c.

(** White space removed by [trim] that takes one byte: the space and
    the characters U+0009 to U+000D. *)
Definition is_space (c : ascii) : bool :=
  let n := code c in
  (n =? 32) || ((9 <=? n) && (n <=? 13)).

(** White space that takes two bytes in UTF-8: U+00A0. *)
Definition is_space2 (a b : ascii) : bool :=
  (code a =? 194) && (code b =? 160).

(** White space that takes three bytes in UTF-8: U+1680, U+2000 to
    U+200A, U+2028, U+2029, U+202F, U+205F, U+3000 and U+FEFF. *)
Definition is_space3 (a b c : ascii) : bool :=
  let x := code a in
  let y := code b in
  let z := code c in
  ((x =? 225) && (y =? 154) && (z =? 128))
  || ((x =? 226) && (y =? 128)
      && (((128 <=? z) && (z <=? 138)) || (z =? 168) || (z =? 169) || (z =? 175)))
  || ((x =? 226) && (y =? 129) && (z =? 159))
  || ((x =? 227) && (y =? 128) && (z =? 128))
  || ((x =? 239) && (y =? 187) && (z =? 191)).

(** The UTF-16 code units a byte of UTF-8 text accounts for: one for
    the first byte of a character of up to three bytes, two for the
    first byte of a character of four bytes, none for a byte that
    continues a character. *)
Definition units_of (c : ascii) : nat :=
  let n := code c in
  if n <? 128 then 1 else if n <? 192 then 0 else if n <? 240 then 1 else 2.

(** [s.length] of the text of these bytes *)
Fixpoint length16 (cs : list ascii) : nat :=
  match cs with
  | c :: k => units_of c + length16 k
  | [] => 0
  end.

Definition is_digit (c : ascii) : bool :=
  let n := code c in (48 <=? n) && (n <=? 57).

Definition is_letter (c : ascii) : bool :=
  let n := code c in
  ((65 <=? n) && (n <=? 90)) || ((97 <=? n) && (n <=? 122)).

(** [[a-zA-Z_$]] *)
Definition is_ident_start (c : ascii) : bool :=
  is_letter c || (code c =? 95) || (code c =? 36).

(** [[\w$]] *)
Definition is_word (c : ascii) : bool :=
  is_letter c || is_digit c || (code c =? 95) || (code c =? 36).

(** The text without the white space it starts with. *)
Fixpoint drop_spaces (cs : list ascii) : list ascii :=
  match cs with
  | a :: k =>
      if is_space a then drop_spaces k
      else
        match k with
        | b :: k2 =>
            if is_space2 a b then drop_spaces k2
            else
              match k2 with
              | c :: k3 => if is_space3 a b c then drop_spaces k3 else cs
              | [] => cs
              end
        | [] => cs
        end
  | [] => []
  end.

(** The same from the end, on the bytes in reverse order. *)
Fixpoint drop_spaces_rev (rs : list ascii) : list ascii :=
  match rs with
  | c :: k =>
      if is_space c then drop_spaces_rev k
      else
        match k with
        | b :: k2 =>
            if is_space2 b c then drop_spaces_rev k2
            else
              match k2 with
              | a :: k3 => if is_space3 a b c then drop_spaces_rev k3 else rs
              | [] => rs
              end
        | [] => rs
        end
  | [] => []
  end.

(** [s.trim()] *)
Definition trim (s : string) : string :=
  of_chars (rev (drop_spaces_rev (rev (drop_spaces (chars s))))).

(** [s.startsWith(p)] *)
Definition startsWith (p s : string) : bool := String.prefix p s.

(** [s.endsWith(p)] *)
Definition endsWith (p s : string) : bool :=
  String.prefix (of_chars (rev (chars p))) (of_chars (rev (chars s))).

(** [s.slice(2, -2)] *)
Definition slice_2_2 (s : string) : string :=
  String.substring 2 (String.length s - 4) s.

(** [/^\d+$/.test(s)] *)
Definition all_digits (s : string) : bool :=
  negb (bool_decide (s = String.EmptyString)) && forallb is_digit (chars s).

(** Value of a run of decimal digits, most significant first. *)
Definition digits_value (ds : list ascii) : Z :=
  foldl (λ acc c, (10 * acc + Z.of_nat (code c - 48))%Z) 0%Z ds.

Fixpoint take_digits (cs : list ascii) : list ascii :=
  match cs with
  | c :: k => if is_digit c then c :: take_digits k else []
  | [] => []
  end.

(** The array index a property name denotes, if it is a canonical
    numeric string. *)
Definition to_index (s : string) : option nat :=
  match chars s with
  | [] => None
  | c :: k =>
      if forallb is_digit (c :: k) && (negb (code c =? 48) || bool_decide (k = []))
      then Some (Z.to_nat (digits_value (c :: k))) else None
  end.

End Str.

(** ** _ExpressionParser (index.js 123-176) *)

Module ExpressionParser.

(** The part of the runtime [parse] touches: the boxed cells that a
    result may be, the stack [_activeFns] and the console. *)
Record world := mkWorld {
  cells : gmap loc Ref.cell;
  activeFns : list fn;
  console : list log_entry
}.

(** [_globals] *)
Definition globals : list string := ["window"; "document"; "console"; "alert"].

(** [expr.match(_VARIABLE_REGEX)] followed by [v.split(".")[0]]: the
    root identifiers of the successive matches of
    [[a-zA-Z_$][\w$]*(?:\.[\w$]+)*], scanned left to right. *)
Inductive scan_state :=
  | Outside
  | InRoot (acc : list ascii)
  | InTail (root : list ascii).

Definition next_is_word (k : list ascii) : bool :=
  match k with c :: _ => Str.is_word c | [] => false end.

Definition is_dot (c : ascii) : bool := Str.code c =? 46.

Fixpoint scan (cs : list ascii) (st : scan_state) : list string :=
  match cs with
  | [] =>
      match st with
      | Outside => []
      | InRoot acc => [Str.of_chars (rev acc)]
      | InTail root => [Str.of_chars (rev root)]
      end
  | c :: k =>
      match st with
      | Outside =>
          if Str.is_ident_start c then scan k (InRoot [c]) else scan k Outside
      | InRoot acc =>
          if Str.is_word c then scan k (InRoot (c :: acc))
          else if is_dot c && next_is_word k then scan k (InTail acc)
          else Str.of_chars (rev acc) :: scan k Outside
      | InTail root =>
          if Str.is_word c then scan k (InTail root)
          else if is_dot c && next_is_word k then scan k (InTail root)
          else Str.of_chars (rev root) :: scan k Outside
      end
  end.

Definition roots (text : string) : list string := scan (Str.chars text) Outside.

(** The [forEach] that fills [deps]. *)
Definition collect (text : string) (deps : list string) : list string :=
  foldl (λ ds r,
           if negb (bool_decide (r = String.EmptyString)) && negb (JSSet.has r globals)
              && negb (JSSet.has r ds)
           then JSSet.add r ds else ds)
        deps (roots text).

(** Removal of the interpolation delimiters. *)
Definition strip (text : string) : string :=
  if Str.startsWith "{{" text && Str.endsWith "}}" text
  then Str.trim (Str.slice_2_2 text) else text.

(** [result?.__isRef ? result.value : result]; reading [value] runs
    the cell's getter. *)
Definition unwrap (result : value) (w : world) : value * world :=
  match result with
  | VObj l =>
      match cells w !! l with
      | Some c =>
          let '(v, c1) := Ref.get (activeFns w) c in
          (v, mkWorld (<[l := c1]> (cells w)) (activeFns w) (console w))
      | None => (result, w)
      end
  | _ => (result, w)
  end.

Definition warn (text : string) (w : world) : world :=
  mkWorld (cells w) (activeFns w)
          (console w ++ [LogWarn "[_ExpressionParser]" (VStr text)]).

Section Parse.
(** The platform part: [new Function(...keys, `return ${expr};`)]
    applied to the scope's values. It returns the value of the
    expression or throws; it may run getters on the way. *)
Variable run_function : list (string * value) → string → world → res value * world.
(** [String(v)] for a [v] that is not a string. *)
Variable display : value → string.

(** [parse(expr, scope, deps)]: the result, the collector and the
    world afterwards. *)
Definition parse (expr : value) (scope : list (string * value))
    (deps : list string) (w : world) : res value * list string * world :=
  match expr with
  | VStr text =>
      let deps1 := collect text deps in
      let text1 := strip text in
      match run_function scope text1 w with
      | (Ok result, w1) =>
          let '(v, w2) := unwrap result w1 in (Ok v, deps1, w2)
      | (Throw e, w1) => (Ok (VStr text1), deps1, warn text1 w1)
      end
  | _ => (Ok expr, deps, w)
  end.

Definition to_text (v : value) : string :=
  match v with VStr s => s | _ => display v end.

(** One attempt of [\{\{([^}]+?)}}] at the head of [cs]: the captured
    group if it matches. *)
Fixpoint until_brace (cs : list ascii) : list ascii :=
  match cs with
  | c :: k => if Str.code c =? 125 then [] else c :: until_brace k
  | [] => []
  end.

Definition match_here (cs : list ascii) : option (list ascii) :=
  match cs with
  | o1 :: o2 :: rest =>
      if (Str.code o1 =? 123) && (Str.code o2 =? 123) then
        let inner := until_brace rest in
        match inner, drop (length inner) rest with
        | _ :: _, c1 :: c2 :: _ =>
            if (Str.code c1 =? 125) && (Str.code c2 =? 125)
            then Some inner else None
        | _, _ => None
        end
      else None
  | _ => None
  end.

(** [text.replace(_INTERPOLATION_REGEX, (_, expr) => parse(expr.trim(), ...))];
    [skip] counts the characters of the current match still to pass. *)
Fixpoint replace_all (cs : list ascii) (skip : nat) (scope : list (string * value))
    (deps : list string) (w : world) : list ascii * list string * world :=
  match cs with
  | [] => ([], deps, w)
  | c :: k =>
      match skip with
      | S n => replace_all k n scope deps w
      | 0 =>
          match match_here cs with
          | Some inner =>
              let '(r, deps1, w1) :=
                parse (VStr (Str.trim (Str.of_chars inner))) scope deps w in
              let out := match r with Ok v => to_text v | Throw _ => String.EmptyString end in
              let '(tl, deps2, w2) :=
                replace_all k (length inner + 3) scope deps1 w1 in
              (Str.chars out ++ tl, deps2, w2)
          | None =>
              let '(tl, deps1, w1) := replace_all k 0 scope deps w in
              (c :: tl, deps1, w1)
          end
      end
  end.

(** [parseText(text, scope, deps)] *)
Definition parseText (text : value) (scope : list (string * value))
    (deps : list string) (w : world) : value * list string * world :=
  match text with
  | VStr s =>
      let '(out, deps1, w1) := replace_all (Str.chars s) 0 scope deps w in
      (VStr (Str.of_chars out), deps1, w1)
  | _ => (text, deps, w)
  end.
End Parse.

(** A name that can be a parameter of [new Function] (reserved words
    are not told apart). *)
Definition valid_ident (s : string) : bool :=
  match Str.chars s with
  | c :: k => Str.is_ident_start c && forallb Str.is_word k
  | [] => false
  end.

(** The platform's evaluator where its answer needs no JavaScript
    interpreter: a scope key that is no identifier is a syntax error of
    the parameter list; the empty expression makes the body [return ;];
    an expression that is a key of the scope has the value bound to it;
    an identifier or dotted path whose root is not bound (and is no
    global) is a reference error. Other expressions are not what this
    evaluator is for. *)
Definition ident_eval (scope : list (string * value)) (text : string) (w : world)
  : res value * world :=
  if negb (forallb (λ kv, valid_ident kv.1) scope)
  then (Throw "SyntaxError: invalid parameter name", w)
  else if bool_decide (text = String.EmptyString) then (Ok VUndefined, w)
  else match list_find (λ kv, kv.1 = text) scope with
       | Some (_, (_, v)) => (Ok v, w)
       | None =>
           (Throw ("ReferenceError: " +:+ default text (head (roots text))
                     +:+ " is not defined"), w)
       end.

End ExpressionParser.

(** ** _processElement (index.js 304-344) *)

Module Dom.

Local Set Warnings "-register-all".

Definition ELEMENT_NODE : nat := 1.
Definition TEXT_NODE : nat := 3.
Definition DOCUMENT_FRAGMENT_NODE : nat := 11.

(** A node: its identity, its [nodeType], the properties scripts have
    put on the node object, whether [_INTERPOLATION_REGEX.test] accepts
    its [textContent], and its [childNodes]. *)
Inductive node :=
  | Node (id : nat) (nodeType : nat) (expando : gmap string value)
         (interpolated : bool) (childNodes : list node).

Definition node_id (n : node) : nat := match n with Node i _ _ _ _ => i end.
Definition nodeType (n : node) : nat := match n with Node _ t _ _ _ => t end.
Definition expando (n : node) : gmap string value :=
  match n with Node _ _ e _ _ => e end.
Definition interpolated (n : node) : bool := match n with Node _ _ _ b _ => b end.
Definition childNodes (n : node) : list node := match n with Node _ _ _ _ k => k end.

(** [n[name]] *)
Definition prop (name : string) (n : node) : value :=
  default VUndefined (expando n !! name).

(** [n[name] = v] *)
Definition set_prop (name : string) (v : value) (n : node) : node :=
  match n with Node i t e b k => Node i t (<[name := v]> e) b k end.

Definition is_element (n : node) : bool := nodeType n =? ELEMENT_NODE.
Definition is_text (n : node) : bool := nodeType n =? TEXT_NODE.

(** What the walk does besides marking nodes: it builds and runs the
    update function of an element, and installs the text binding of a
    text node ([_processTextNode]). What the directive handlers then do
    to the document is not followed. *)
Inductive event :=
  | UpdateFnRun (el : nat)
  | TextNodeBound (n : nat).

(** The first loop: the text children that hold an interpolation. *)
Definition text_bindings (kids : list node) : list event :=
  flat_map (λ k, if is_text k && interpolated k
                 then [TextNodeBound (node_id k)] else []) kids.

(** [_processElement(el, scope)] for an [el] that is there: the node
    after the walk and the events of the walk, in order. The second
    loop runs over [el.children], the element children. *)
Fixpoint processElement (el : node) : node * list event :=
  match el with
  | Node id ty ex interp kids =>
      if truthy (default VUndefined (ex !! "__processedcessed")) then (el, [])
      else
        let ex1 := <["__processed" := VBool true]> ex in
        let ev1 := if ty =? ELEMENT_NODE then [UpdateFnRun id] else [] in
        let ev2 := text_bindings kids in
        let fix walk (ks : list node) : list node * list event :=
          match ks with
          | [] => ([], [])
          | k :: r =>
              let '(k1, e1) := if is_element k then processElement k else (k, []) in
              let '(r1, e2) := walk r in
              (k1 :: r1, e1 ++ e2)
          end in
        let '(kids1, ev3) :=
          if (ty =? ELEMENT_NODE) || (ty =? DOCUMENT_FRAGMENT_NODE)
          then walk kids else (kids, []) in
        (Node id ty ex1 interp kids1, ev1 ++ ev2 ++ ev3)
  end.

(** The nodes a template yields, numbered from [base]. *)
Fixpoint relabel (base : nat) (n : node) : node :=
  match n with
  | Node i t e b k => Node (base + i) t e b (map (relabel base) k)
  end.

(** One more than the largest number in a template node. *)
Fixpoint span (n : node) : nat :=
  match n with
  | Node i _ _ _ k => foldr (λ c m, Nat.max (span c) m) (S i) k
  end.

(** A caller clears the flag: [node.__processed = false]. *)
Definition clear_processed (n : node) : node :=
  set_prop "__processed" (VBool false) n.

End Dom.

(** ** _registerDirective (index.js 352-355) *)

Module Directives.

(** [_directives]: name to handler. *)
Definition table := gmap string fn.

Definition registerDirective (name : string) (handler : value) (t : table)
  : res table :=
  match handler with
  | VFun h => Ok (<[name := h]> t)
  | _ => Throw ("指令处理器必须是函数: " +:+ name)
  end.

End Directives.

(** ** window.reactive (index.js 1614-1760) *)

Module Reactive.

(** The built-in classes [reactive] tells apart. *)
Inductive okind := KObject | KArray | KDate | KRegExp | KMap | KSet.

(** A property key: an array index or another name. *)
Inductive prop :=
  | Idx (i : nat)
  | Name (s : string).

Global Instance okind_eq_dec : EqDecision okind.
Proof. solve_decision. Defined.
Global Instance prop_eq_dec : EqDecision prop.
Proof. solve_decision. Defined.

(** An ordinary object or array: index-keyed properties, the array
    [length], the writable enumerable named properties, the named
    properties created by [Object.defineProperty] with the default
    attributes (not enumerable, not writable, not configurable), and
    whether [optimizeArray] has replaced its prototype. Inherited and
    accessor properties are not part of the model. *)
Record object := mkObject {
  kind : okind;
  elems : gmap nat value;
  len : nat;
  fields : gmap string value;
  hidden : gmap string value;
  intercepted : bool
}.

(** A heap cell: an object, or a proxy built by [reactive] with the
    [rawTarget] and the [dep] its traps close over. *)
Inductive cell :=
  | Raw (o : object)
  | Proxy (target : loc) (dep : nat).

(** [deps] holds the [_Dependency] instances by identity, [depsMap] is
    the weak map [_depsMap]. [notified] lists the calls of [notify]
    in order: the node and the variable. *)
Record world := mkWorld {
  heap : gmap loc cell;
  deps : gmap nat Dependency.t;
  depsMap : gmap loc nat;
  activeFns : list fn;
  sched : BatchUpdater.t;
  console : list log_entry;
  notified : list (nat * Dependency.variable)
}.

Definition empty_world : world := mkWorld ∅ ∅ ∅ [] BatchUpdater.init [] [].

Definition set_heap (h : gmap loc cell) (w : world) : world :=
  mkWorld h (deps w) (depsMap w) (activeFns w) (sched w) (console w) (notified w).
Definition set_deps (d : gmap nat Dependency.t) (w : world) : world :=
  mkWorld (heap w) d (depsMap w) (activeFns w) (sched w) (console w) (notified w).
Definition set_depsMap (m : gmap loc nat) (w : world) : world :=
  mkWorld (heap w) (deps w) m (activeFns w) (sched w) (console w) (notified w).
Definition log (e : log_entry) (w : world) : world :=
  mkWorld (heap w) (deps w) (depsMap w) (activeFns w) (sched w) (console w ++ [e])
          (notified w).

(** Allocation of a new object; its identity is new in the heap. *)
Definition alloc (c : cell) (w : world) : loc * world :=
  let l := fresh (dom (heap w)) in (l, set_heap (<[l := c]> (heap w)) w).

(** *** Computations over the world: a result or an exception; no
    answer at all when the model is out of fuel or outside its domain *)

Definition M (A : Type) : Type := world → option (res A * world).

Definition ret {A} (a : A) : M A := λ w, Some (Ok a, w).
Definition throw {A} (e : string) : M A := λ w, Some (Throw e, w).
Definition stuck {A} : M A := λ _, None.
Definition bind {A B} (m : M A) (k : A → M B) : M B :=
  λ w, match m w with
       | Some (Ok a, w1) => k a w1
       | Some (Throw e, w1) => Some (Throw e, w1)
       | None => None
       end.
Definition try_catch {A} (m : M A) (h : string → M A) : M A :=
  λ w, match m w with
       | Some (Throw e, w1) => h e w1
       | r => r
       end.
Definition gets {A} (f : world → A) : M A := λ w, Some (Ok (f w), w).
Definition modify (f : world → world) : M unit := λ w, Some (Ok tt, f w).
Definition lift_opt {A} (f : world → option A) : M A :=
  λ w, match f w with Some a => Some (Ok a, w) | None => None end.

Notation "'let*' x ':=' m 'in' k" := (bind m (λ x, k))
  (at level 10, x name, m at level 100, k at level 200).

Fixpoint for_each {A} (f : A → M unit) (l : list A) : M unit :=
  match l with
  | [] => ret tt
  | x :: r => let* _u := f x in for_each f r
  end.

(** *** Dependency nodes in the world *)

Definition dep_of (d : nat) : M Dependency.t := lift_opt (λ w, deps w !! d).

Definition update_dep (d : nat) (f : Dependency.t → Dependency.t) : M unit :=
  let* dp := dep_of d in modify (λ w, set_deps (<[d := f dp]> (deps w)) w).

(** [dep.subscribe(fn, variable)] *)
Definition subscribe (d : nat) (f : value) (v : Dependency.variable) : M unit :=
  update_dep d (Dependency.subscribe f v).

(** [dep.notify(variable)] *)
Definition notify (d : nat) (v : Dependency.variable) : M unit :=
  let* dp := dep_of d in
  modify (λ w, mkWorld (heap w) (deps w) (depsMap w) (activeFns w)
                       (Dependency.notify v dp (sched w)) (console w)
                       (notified w ++ [(d, v)])).

Definition set_disabled (b : bool) (dp : Dependency.t) : Dependency.t :=
  Dependency.mk (Dependency.subscribers dp) (Dependency.varSubs dp) b
                (Dependency.proxy dp).
Definition set_proxy (p : loc) (dp : Dependency.t) : Dependency.t :=
  Dependency.mk (Dependency.subscribers dp) (Dependency.varSubs dp)
                (Dependency.notificationDisabled dp) (Some p).

(** *** Objects *)

Definition is_array (o : object) : bool := bool_decide (kind o = KArray).

(** [typeof v === "object" && v !== null] *)
Definition is_object (v : value) : bool :=
  match v with VObj _ => true | _ => false end.

Definition marker_names : list string :=
  ["__isReactive"; "__raw"; "__isReactiveProxy"].

(** [prop === "__isReactive" || prop === "__raw" || prop === "__isReactiveProxy"] *)
Definition is_marker (p : prop) : bool :=
  match p with
  | Name s => bool_decide (s ∈ marker_names)
  | Idx _ => false
  end.

(** [/^\d+$/.test(prop)] *)
Definition digits_only (p : prop) : bool :=
  match p with
  | Idx _ => true
  | Name s => Str.all_digits s
  end.

Definition prop_name (p : prop) : string :=
  match p with
  | Idx i => pretty i
  | Name s => s
  end.

(** The variable a trap subscribes to or notifies for [prop]:
    [`index:${prop}`] for a digit key of an array, [prop] otherwise. *)
Definition var_of (o : object) (p : prop) : Dependency.variable :=
  if is_array o && digits_only p then Some ("index:" +:+ prop_name p)
  else Some (prop_name p).

(** The own property [p] of [o], if any. *)
Definition own_get (o : object) (p : prop) : option value :=
  match p with
  | Idx i => elems o !! i
  | Name s =>
      if is_array o && bool_decide (s = "length")
      then Some (VNum (Num (Z.of_nat (len o))))
      else match hidden o !! s with
           | Some v => Some v
           | None => fields o !! s
           end
  end.

(** [Reflect.get(targetObj, prop, receiver)] *)
Definition reflect_get (o : object) (p : prop) : value :=
  default VUndefined (own_get o p).

(** [Reflect.has(targetObj, prop)] *)
Definition reflect_has (o : object) (p : prop) : bool :=
  bool_decide (is_Some (own_get o p)).

(** [ToNumber(v)]; a string converts when it is a decimal integer
    literal, an object converts as a plain record does. *)
Definition to_number (v : value) : number :=
  match v with
  | VUndefined => NaN
  | VNull => Num 0
  | VBool b => Num (if b then 1 else 0)
  | VNum n => n
  | VStr s =>
      match Str.chars (Str.trim s) with
      | [] => Num 0
      | c :: k =>
          let '(neg, ds) :=
            if Str.code c =? 45 then (true, k)
            else if Str.code c =? 43 then (false, k) else (false, c :: k) in
          if negb (bool_decide (ds = [])) && forallb Str.is_digit ds
          then Num (if neg then - Str.digits_value ds else Str.digits_value ds)
          else NaN
      end
  | VFun _ => NaN
  | VObj _ => NaN
  end.

Definition with_elems (e : gmap nat value) (n : nat) (o : object) : object :=
  mkObject (kind o) e n (fields o) (hidden o) (intercepted o).
Definition with_fields (f : gmap string value) (o : object) : object :=
  mkObject (kind o) (elems o) (len o) f (hidden o) (intercepted o).

(** [Reflect.set(targetObj, prop, v, receiver)], the receiver being
    the proxy of [targetObj]: the write lands on the target. An index
    at or beyond the length of an array extends it; a write to the
    length of an array truncates it or throws a RangeError; a write to
    a non-writable property is refused. *)
Definition reflect_set (o : object) (p : prop) (v : value) : res (bool * object) :=
  match p with
  | Idx i =>
      Ok (true, with_elems (<[i := v]> (elems o))
                  (if is_array o then Nat.max (len o) (S i) else len o) o)
  | Name s =>
      if is_array o && bool_decide (s = "length") then
        match to_number v with
        | Num z =>
            if (0 <=? z)%Z && (z <? 2 ^ 32)%Z then
              let n := Z.to_nat z in
              Ok (true, with_elems (filter (λ kv, kv.1 < n) (elems o)) n o)
            else Throw "RangeError: Invalid array length"
        | NaN => Throw "RangeError: Invalid array length"
        end
      else if bool_decide (is_Some (hidden o !! s)) then Ok (false, o)
      else Ok (true, with_fields (<[s := v]> (fields o)) o)
  end.

(** [Reflect.deleteProperty(targetObj, prop)] *)
Definition reflect_delete (o : object) (p : prop) : bool * object :=
  match p with
  | Idx i => (true, with_elems (delete i (elems o)) (len o) o)
  | Name s =>
      if is_array o && bool_decide (s = "length") then (false, o)
      else if bool_decide (is_Some (hidden o !! s)) then (false, o)
      else (true, with_fields (delete s (fields o)) o)
  end.

(** [Object.defineProperty(o, name, { value: v, enumerable: false,
    configurable: false })] on a property that is absent or still
    configurable. *)
Definition define_hidden (name : string) (v : value) (o : object) : object :=
  mkObject (kind o) (elems o) (len o) (delete name (fields o))
           (<[name := v]> (hidden o)) (intercepted o).

(** [Object.setPrototypeOf(arr, arrayProxyProto)] *)
Definition set_intercepted (o : object) : object :=
  mkObject (kind o) (elems o) (len o) (fields o) (hidden o) true.

Definition raw_at (l : loc) (w : world) : option object :=
  match heap w !! l with Some (Raw o) => Some o | _ => None end.

Definition proxy_at (l : loc) (w : world) : option (loc * nat) :=
  match heap w !! l with Some (Proxy t d) => Some (t, d) | _ => None end.

Definition put_raw (l : loc) (o : object) : M unit :=
  modify (λ w, set_heap (<[l := Raw o]> (heap w)) w).

(** [v[name]] for a marker name: own property of an object; through a
    proxy the [get] trap hands the read to [Reflect.get] on the
    target. *)
Definition read_marker (name : string) (v : value) (w : world) : value :=
  match v with
  | VObj l =>
      match heap w !! l with
      | Some (Raw o) => reflect_get o (Name name)
      | Some (Proxy t _) =>
          match raw_at t w with
          | Some o => reflect_get o (Name name)
          | None => VUndefined
          end
      | None => VUndefined
      end
  | _ => VUndefined
  end.

(** The first test of [reactive]: not an object, [null], or an
    instance of [Date], [RegExp], [Function], [Map] or [Set]. *)
Definition unsupported (v : value) (w : world) : bool :=
  match v with
  | VObj l =>
      match heap w !! l with
      | Some (Raw o) =>
          match kind o with
          | KObject | KArray => false
          | _ => true
          end
      | _ => false
      end
  | _ => true
  end.

(** *** reactive *)

(** The body of [reactive(target)]; [n] bounds the depth of the
    recursion through array elements. *)
Fixpoint reactive_fuel (n : nat) (target : value) : M value :=
  match n with
  | 0 => stuck
  | S n' =>
      λ w,
      if unsupported target w then
        Some (Ok target, log (LogWarn "[reactive]" target) w)
      else if truthy (read_marker "__isReactiveProxy" target w) then
        Some (Ok target, w)
      else if truthy (read_marker "__isReactive" target w) then
        (* [_depsMap.get(target).__proxy || target] *)
        match target with
        | VObj l =>
            match depsMap w !! l with
            | Some d =>
                match deps w !! d with
                | Some dp =>
                    Some (Ok (match Dependency.proxy dp with
                              | Some p => VObj p
                              | None => target
                              end), w)
                | None => None
                end
            | None =>
                Some (Throw "TypeError: Cannot read properties of undefined", w)
            end
        | _ => None
        end
      else
        match target with
        | VObj l =>
            match raw_at l w with
            | Some o =>
                let d := fresh (dom (deps w)) in
                let o1 := define_hidden "__raw" (VObj l)
                            (define_hidden "__isReactive" (VBool true) o) in
                let o2 := if is_array o then set_intercepted o1 else o1 in
                let w1 := set_heap (<[l := Raw o2]> (heap w))
                            (set_depsMap (<[l := d]> (depsMap w))
                               (set_deps (<[d := Dependency.new]> (deps w)) w)) in
                (* [rawTarget.forEach(...)]: holes are skipped *)
                let each (i : nat) : M unit :=
                  let* cur := lift_opt (raw_at l) in
                  match elems cur !! i with
                  | Some item =>
                      let* marked := gets (read_marker "__isReactive" item) in
                      if is_object item && negb (truthy marked) then
                        let* r := reactive_fuel n' item in
                        let* cur1 := lift_opt (raw_at l) in
                        put_raw l (with_elems (<[i := r]> (elems cur1))
                                     (Nat.max (len cur1) (S i)) cur1)
                      else ret tt
                  | None => ret tt
                  end in
                (let* _u := (if is_array o then for_each each (seq 0 (len o))
                             else ret tt) in
                 let* p := (λ w2, let '(p, w3) := alloc (Proxy l d) w2 in
                                  Some (Ok p, w3)) in
                 (* [Object.defineProperty(proxy, "__isReactiveProxy", ...)]:
                    the proxy has no [defineProperty] trap, the property
                    is defined on the target *)
                 let* cur := lift_opt (raw_at l) in
                 let* _u := put_raw l (define_hidden "__isReactiveProxy"
                                         (VBool true) cur) in
                 let* _u := update_dep d (set_proxy p) in
                 ret (VObj p)) w1
            | None => None
            end
        | _ => None
        end
  end.

(** [reactive(target)]: each level of the recursion marks an object
    of the heap that was not marked, so the size of the heap bounds
    its depth. *)
Definition reactive (target : value) : M value :=
  λ w, reactive_fuel (S (size (heap w))) target w.

(** *** The proxy traps *)

(** The [get] trap. *)
Definition proxy_get (p : loc) (k : prop) : M value :=
  let* td := lift_opt (proxy_at p) in
  let* o := lift_opt (raw_at td.1) in
  if bool_decide (k = Name "__proto__") then stuck
  else if is_marker k then ret (reflect_get o k)
  else
    let* act := gets activeFns in
    let* _u := match last act with
               | Some f => subscribe td.2 (VFun f) (var_of o k)
               | None => ret tt
               end in
    let v := reflect_get o k in
    let* marked := gets (read_marker "__isReactive" v) in
    if is_object v && negb (truthy marked) then reactive v else ret v.

(** The integers from [z] up to [n - 1]. *)
Definition indices_from (z : Z) (n : nat) : list Z :=
  map (λ i, (z + Z.of_nat i)%Z) (seq 0 (Z.to_nat (Z.of_nat n - z))).

(** The end of the [set] trap, from [const reactiveValue = ...] on;
    [t], [d] and [o] are the target, the node and the target object
    as the trap found it. *)
Definition set_finish (t : loc) (d : nat) (o : object) (k : prop) (v : value)
  : M bool :=
  let* rv := (if is_object v then reactive v else ret v) in
  let* cur := lift_opt (raw_at t) in
  match reflect_set cur k rv with
  | Throw e => throw e
  | Ok (setResult, o1) =>
      let* _u := put_raw t o1 in
      let* dp := dep_of d in
      let* _u := (if negb (Dependency.notificationDisabled dp)
                  then notify d (var_of o k) else ret tt) in
      ret setResult
  end.

(** The [set] trap. *)
Definition proxy_set (p : loc) (k : prop) (v : value) : M bool :=
  let* td := lift_opt (proxy_at p) in
  let* o := lift_opt (raw_at td.1) in
  if is_marker k then
    let* _u := modify (log (LogWarn "[reactive]" (VStr (prop_name k)))) in
    ret true
  else
    let oldValue := reflect_get o k in
    if strict_eq oldValue v || (isNaN oldValue && isNaN v) then ret true
    else if is_array o && bool_decide (k = Name "length") then
      match v with
      | VNum (Num z) =>
          if bool_decide (z = Z.of_nat (len o)) then ret true
          else
            let* _u := for_each
                         (λ i, notify td.2 (Some ("index:" +:+ pretty i)))
                         (indices_from z (len o)) in
            set_finish td.1 td.2 o k v
      | _ => set_finish td.1 td.2 o k v
      end
    else set_finish td.1 td.2 o k v.

(** The [deleteProperty] trap. *)
Definition proxy_delete (p : loc) (k : prop) : M bool :=
  let* td := lift_opt (proxy_at p) in
  let* o := lift_opt (raw_at td.1) in
  if is_marker k then
    let* _u := modify (log (LogWarn "[reactive]" (VStr (prop_name k)))) in
    ret false
  else
    let hadProp := reflect_has o k in
    let '(deleteResult, o1) := reflect_delete o k in
    let* _u := put_raw td.1 o1 in
    let* dp := dep_of td.2 in
    let* _u := (if hadProp && deleteResult
                   && negb (Dependency.notificationDisabled dp)
                then notify td.2 (var_of o k) else ret tt) in
    ret deleteResult.

(** *** The intercepted array methods (index.js 1637-1670) *)

(** The internal methods of the proxy as the built-in array
    algorithms call them: the trap, then the check of the proxy
    invariants for a property that is neither writable nor
    configurable. *)
Definition proxy_Set (p : loc) (k : prop) (v : value) : M bool :=
  let* ok := proxy_set p k v in
  if ok then
    let* td := lift_opt (proxy_at p) in
    let* o := lift_opt (raw_at td.1) in
    match k with
    | Name s =>
        match hidden o !! s with
        | Some cur =>
            if bool_decide (cur = v) then ret true
            else throw "TypeError: 'set' on proxy: trap returned truish"
        | None => ret true
        end
    | Idx _ => ret true
    end
  else ret false.

(** [Set(O, k, v, true)] *)
Definition Set_or_throw (p : loc) (k : prop) (v : value) : M unit :=
  let* ok := proxy_Set p k v in
  if ok then ret tt
  else throw "TypeError: 'set' on proxy: trap returned falsish".

(** [DeletePropertyOrThrow(O, k)] *)
Definition Delete_or_throw (p : loc) (k : prop) : M unit :=
  let* ok := proxy_delete p k in
  if ok then ret tt else throw "TypeError: 'deleteProperty' on proxy: trap returned falsish".

(** [HasProperty(O, k)]: the proxy has no [has] trap. *)
Definition Has_property (p : loc) (k : prop) : M bool :=
  let* td := lift_opt (proxy_at p) in
  let* o := lift_opt (raw_at td.1) in
  ret (reflect_has o k).

(** [LengthOfArrayLike(O)] *)
Definition length_of (p : loc) : M nat :=
  let* v := proxy_get p (Name "length") in
  match to_number v with
  | Num z => ret (Z.to_nat z)
  | NaN => ret 0
  end.

Definition num_of_nat (n : nat) : value := VNum (Num (Z.of_nat n)).

(** [Array.prototype.push.apply(proxy, items)] *)
Definition array_push (p : loc) (items : list value) : M value :=
  let* n := length_of p in
  let* _u := for_each (λ je, Set_or_throw p (Idx (n + je.1)) je.2)
                      (imap pair items) in
  let* _u := Set_or_throw p (Name "length") (num_of_nat (n + length items)) in
  ret (num_of_nat (n + length items)).

(** [Array.prototype.pop.apply(proxy, [])] *)
Definition array_pop (p : loc) : M value :=
  let* n := length_of p in
  match n with
  | 0 =>
      let* _u := Set_or_throw p (Name "length") (num_of_nat 0) in
      ret VUndefined
  | S newLen =>
      let* element := proxy_get p (Idx newLen) in
      let* _u := Delete_or_throw p (Idx newLen) in
      let* _u := Set_or_throw p (Name "length") (num_of_nat newLen) in
      ret element
  end.

(** [Array.prototype.shift.apply(proxy, [])] *)
Definition array_shift (p : loc) : M value :=
  let* n := length_of p in
  match n with
  | 0 =>
      let* _u := Set_or_throw p (Name "length") (num_of_nat 0) in
      ret VUndefined
  | S newLen =>
      let* first := proxy_get p (Idx 0) in
      let* _u := for_each
                   (λ k, let* fromPresent := Has_property p (Idx k) in
                         if fromPresent then
                           let* fromVal := proxy_get p (Idx k) in
                           Set_or_throw p (Idx (k - 1)) fromVal
                         else Delete_or_throw p (Idx (k - 1)))
                   (seq 1 newLen) in
      let* _u := Delete_or_throw p (Idx newLen) in
      let* _u := Set_or_throw p (Name "length") (num_of_nat newLen) in
      ret first
  end.

(** The methods of [arrayMethods] whose built-in algorithm is
    modelled. *)
Inductive method := Push | Pop | Shift.

Definition method_name (m : method) : string :=
  match m with Push => "push" | Pop => "pop" | Shift => "shift" end.

Definition builtin (m : method) (p : loc) (args : list value) : M value :=
  match m with
  | Push => array_push p args
  | Pop => array_pop p
  | Shift => array_shift p
  end.

(** [proxy[method](...args)]: the method is read through the [get]
    trap and found on [arrayProxyProto]; its body runs with the proxy
    as [this] and the [dep] of the array whose prototype it is. *)
Definition call_method (p : loc) (m : method) (args : list value) : M value :=
  let* td := lift_opt (proxy_at p) in
  let* o := lift_opt (raw_at td.1) in
  if negb (is_array o) then throw "TypeError: not a function"
  else
    let* _u := proxy_get p (Name (method_name m)) in
    if negb (intercepted o) then builtin m p args
    else
      let d := td.2 in
      let* dp := dep_of d in
      let isNotificationDisabled := Dependency.notificationDisabled dp in
      let* _u := update_dep d (set_disabled true) in
      let* originalResult := builtin m p args in
      try_catch
        (let* _u :=
           match m with
           | Push =>
               for_each (λ item,
                           let* marked := gets (read_marker "__isReactive" item) in
                           if is_object item && negb (truthy marked)
                           then let* _r := reactive item in ret tt
                           else ret tt) args
           | _ => ret tt
           end in
         let* _u := update_dep d (set_disabled isNotificationDisabled) in
         let* _u := (if negb isNotificationDisabled
                     then notify d (Some "array:mutate") else ret tt) in
         ret originalResult)
        (λ e,
           let* _u := modify (log (LogError "[reactive]" (VStr (method_name m)))) in
           let* _u := update_dep d (set_disabled isNotificationDisabled) in
           ret originalResult).

End Reactive.


(** ** The r-for directive (index.js 498-627) *)

Module RFor.
Import Reactive.

(** [parseInt(v, 10)]: [v] is printed first. A string is read as it
    is written: white space, a sign, then decimal digits, whatever
    follows them. An integer below 10^21 prints in decimal and reads
    back; [undefined], [null] and the booleans print as words. There
    is no answer where the code's answer is no integer of this model
    or depends on code that is not modelled: digits worth 2^53 or more
    (the code rounds them), an integer from 10^21 on (it prints with an
    exponent), a function and an object (printed by their own
    [toString], which may throw: the array [[3]] reads 3). *)
Definition parseInt10 (v : value) : option number :=
  match v with
  | VStr s =>
      let cs := Str.drop_spaces (Str.chars s) in
      let '(neg, body) :=
        match cs with
        | c :: k =>
            if Str.code c =? 45 then (true, k)
            else if Str.code c =? 43 then (false, k) else (false, cs)
        | [] => (false, [])
        end in
      match Str.take_digits body with
      | [] => Some NaN
      | ds =>
          let n := Str.digits_value ds in
          if (n <? 2 ^ 53)%Z then Some (Num (if neg then - n else n)) else None
      end
  | VNum NaN => Some NaN
  | VNum (Num z) => if (Z.abs z <? 10 ^ 21)%Z then Some (Num z) else None
  | VUndefined | VNull | VBool _ => Some NaN
  | VFun _ | VObj _ => None
  end.

(** [Math.max(0, parseInt(parsedCount, 10) || 0)] *)
Definition count_of (parsedCount : value) : option nat :=
  match parseInt10 parsedCount with
  | Some NaN => Some 0
  | Some (Num z) => Some (Z.to_nat (Z.max 0 z))
  | None => None
  end.

(** A value of [nodeCache]. *)
Record entry := mkEntry {
  nodes : list Dom.node;
  itemScope : value
}.

(** What the handler's closure holds for one element: the constants
    [indexKey] and [itemTemplate] (as the nodes that assigning it to
    [innerHTML] builds, numbered from 0), [nodeCache] and [prevKeys];
    then the child nodes of the element, the number of the next node
    the document creates, and the events of the walks so far. *)
Record instance := mkInstance {
  indexKey : string;
  itemTemplate : list Dom.node;
  nodeCache : gmap nat entry;
  prevKeys : list nat;
  children : list Dom.node;
  nextNode : nat;
  events : list Dom.event
}.

(** The handler's state before the first [update]. *)
Definition init (indexKey : string) (itemTemplate : list Dom.node)
    (children : list Dom.node) (nextNode : nat) : instance :=
  mkInstance indexKey itemTemplate ∅ [] children nextNode [].

Definition to_prop (s : string) : prop :=
  match Str.to_index s with
  | Some i => Idx i
  | None => Name s
  end.

(** [target[k] = v] in non-strict code: through the [set] trap of a
    proxy, directly on another object. *)
Definition assign (target : value) (k : prop) (v : value) : M unit :=
  match target with
  | VObj l =>
      let* c := lift_opt (λ w, heap w !! l) in
      match c with
      | Proxy _ _ => let* _ok := proxy_Set l k v in ret tt
      | Raw o =>
          match reflect_set o k v with
          | Throw e => throw e
          | Ok (_, o1) => put_raw l o1
          end
      end
  | _ => ret tt
  end.

(** [target[k]] *)
Definition read (target : value) (k : prop) : M value :=
  match target with
  | VObj l =>
      let* c := lift_opt (λ w, heap w !! l) in
      match c with
      | Proxy _ _ => proxy_get l k
      | Raw o => ret (reflect_get o k)
      end
  | _ => ret VUndefined
  end.

(** The own enumerable keys of the object behind [v]. *)
Definition enumerable_keys (v : value) (w : world) : list prop :=
  match v with
  | VObj l =>
      let o := match heap w !! l with
               | Some (Raw o) => Some o
               | Some (Proxy t _) => raw_at t w
               | None => None
               end in
      match o with
      | Some o => (Idx <$> (map_to_list (elems o)).*1)
                    ++ (Name <$> (map_to_list (fields o)).*1)
      | None => []
      end
  | _ => []
  end.

Definition put_prop (k : prop) (v : value) (o : object) : object :=
  match k with
  | Idx i => with_elems (<[i := v]> (elems o)) (len o) o
  | Name s => with_fields (<[s := v]> (fields o)) o
  end.

(** The copy of the own enumerable properties of [scope], read one by
    one, into [o]. *)
Fixpoint copy_props (scope : value) (ks : list prop) (o : object) : M object :=
  match ks with
  | [] => ret o
  | key :: r => let* x := read scope key in copy_props scope r (put_prop key x o)
  end.

(** [{ ...scope, [indexKey]: index }]: a new record with the values
    read off [scope], then the index. *)
Definition spread_with (scope : value) (k : prop) (v : value) : M value :=
  let* keys := gets (enumerable_keys scope) in
  let* o := copy_props scope keys (mkObject KObject ∅ 0 ∅ ∅ false) in
  λ w, let '(l, w1) := alloc (Raw (put_prop k v o)) w in Some (Ok (VObj l), w1).

(** The [__processed] flags the reuse branch clears: on the node and
    on its element children. *)
Definition reset_flags (n : Dom.node) : Dom.node :=
  match n with
  | Dom.Node i t e b kids =>
      Dom.Node i t (<["__processed" := VBool false]> e) b
        (if t =? Dom.ELEMENT_NODE
         then map (λ c, if Dom.is_element c then Dom.clear_processed c else c) kids
         else kids)
  end.

(** The state of one run of [update]: the instance and the nodes
    appended to [fragment] so far. *)
Definition run_state : Type := instance * list Dom.node.

(** One iteration of [currKeys.forEach]. The node objects are shared
    by the cache and the document: the entry holds them as the walk
    leaves them. *)
Definition render_key (scope : value) (st : run_state) (key : nat) : M run_state :=
  let '(inst, fragment) := st in
  match nodeCache inst !! key with
  | Some e =>
      let* _u := assign (itemScope e) (to_prop (indexKey inst)) (num_of_nat key) in
      let reuseFragment :=
        Dom.Node (nextNode inst) Dom.DOCUMENT_FRAGMENT_NODE ∅ false
                 (map reset_flags (nodes e)) in
      let '(walked, evs) := Dom.processElement reuseFragment in
      let moved := Dom.childNodes walked in
      ret (mkInstance (indexKey inst) (itemTemplate inst)
             (<[key := mkEntry moved (itemScope e)]> (nodeCache inst))
             (prevKeys inst) (children inst) (S (nextNode inst))
             (events inst ++ evs),
           fragment ++ moved)
  | None =>
      let base := S (nextNode inst) in
      let width := foldr (λ c m, Nat.max (Dom.span c) m) 0 (itemTemplate inst) in
      let tempContainer :=
        Dom.Node (nextNode inst) Dom.ELEMENT_NODE ∅ false
                 (map (Dom.relabel base) (itemTemplate inst)) in
      (* [newFragment] is the node numbered [base + width] *)
      let* raw := spread_with scope (to_prop (indexKey inst)) (num_of_nat key) in
      let* scope1 := reactive raw in
      let '(walked, evs) := Dom.processElement tempContainer in
      let nodeArray := Dom.childNodes walked in
      ret (mkInstance (indexKey inst) (itemTemplate inst)
             (<[key := mkEntry nodeArray scope1]> (nodeCache inst))
             (prevKeys inst) (children inst) (S (base + width))
             (events inst ++ evs),
           fragment ++ nodeArray)
  end.

Fixpoint render_keys (scope : value) (keys : list nat) (st : run_state) : M run_state :=
  match keys with
  | [] => ret st
  | key :: r => let* st1 := render_key scope st key in render_keys scope r st1
  end.

(** [prevKeys.forEach(key => !currKeySet.has(key) && nodeCache.delete(key))] *)
Definition drop_stale (prev curr : list nat) (cache : gmap nat entry)
  : gmap nat entry :=
  foldl (λ c key, if negb (JSSet.has key curr) then delete key c else c) cache prev.

(** [update()] from [const currKeys = ...] on (index.js 540-601), for
    the [count] the first part has found. [Array.from] makes no array
    of 2^32 elements or more. *)
Definition render (count : nat) (scope : value) (inst : instance) : M instance :=
  if (2 ^ 32 <=? Z.of_nat count)%Z then throw "RangeError: Invalid array length"
  else
    let currKeys := seq 1 count in
    let fragment_id := nextNode inst in
    let inst0 := mkInstance (indexKey inst) (itemTemplate inst) (nodeCache inst)
                   (prevKeys inst) (children inst) (S fragment_id) (events inst) in
    let* st := render_keys scope currKeys (inst0, []) in
    let '(inst1, fragment) := st in
    ret (mkInstance (indexKey inst1) (itemTemplate inst1)
           (drop_stale (prevKeys inst1) currKeys (nodeCache inst1))
           currKeys fragment (nextNode inst1) (events inst1)).

(** [Object.keys(scope)] with [scope[k]] for each key, as [parse] reads
    them off the scope. *)
Fixpoint bindings (scope : value) (ks : list prop) : M (list (string * value)) :=
  match ks with
  | [] => ret []
  | key :: r =>
      let* x := read scope key in
      let* rest := bindings scope r in
      ret ((prop_name key, x) :: rest)
  end.

Section Update.
(** The platform evaluator [_ExpressionParser.parse] runs. *)
Variable run_function :
  list (string * value) → string → ExpressionParser.world
  → res value * ExpressionParser.world.

(** [update()] (index.js 528-601) for the expression [expr] of the
    attribute; [deps] is the collector of the element and [pw] the
    state the parser works on, both returned as the parser leaves them.
    A failure to read the scope happens inside [parse] and is handled
    there, like a failure of the evaluator. The handler of the [try]
    of [update] itself is the branch [Throw], which [parse] never
    takes; there is no answer where [parseInt] has none. *)
Definition update (expr : string) (deps : list string) (pw : ExpressionParser.world)
    (scope : value) (inst : instance)
  : M (instance * list string * ExpressionParser.world) :=
  let text := Str.trim expr in
  let* keys := gets (enumerable_keys scope) in
  let* parsed :=
    try_catch
      (let* b := bindings scope keys in
       ret (ExpressionParser.parse run_function (VStr text) b deps pw))
      (λ e, ret (ExpressionParser.parse (λ _ _ w, (Throw e, w)) (VStr text) [] deps pw)) in
  let '(r, deps1, pw1) := parsed in
  let* count :=
    match r with
    | Ok parsedCount => lift_opt (λ _, count_of parsedCount)
    | Throw e =>
        let* _u := modify (log (LogError "[r-for]" (VStr text))) in
        ret 0
    end in
  let* inst1 := render count scope inst in
  ret (inst1, deps1, pw1).

End Update.

End RFor.

(** * Further parts of the runtime

    The interpolation regex as a stateful object, the attribute loop of
    [_createUpdateFn], the directives [r-if] and [r-click], and
    [_processTextNode], with the predicates their properties are stated
    with. *)

(** ** What an update function's body does, seen from the flush *)

Module Flush.

Definition is_raise (a : BatchUpdater.action) : bool :=
  match a with BatchUpdater.Raise => true | BatchUpdater.Enqueue _ => false end.

(** Whether a call of the body ends by throwing. *)
Definition throws (acts : list BatchUpdater.action) : bool := existsb is_raise acts.

End Flush.

(** ** _INTERPOLATION_REGEX (index.js 7) as the stateful object it is *)

Module Interpolation.

(** The leftmost match of [\{\{([^}]+?)}}] in [cs], where [pos] is the
    index of the first character of [cs] in the subject: the index of
    the first character of the match and the index after its last.
    Indices count UTF-16 code units, as the indices of the code do. *)
Fixpoint search (cs : list ascii) (pos : nat) : option (nat * nat) :=
  match ExpressionParser.match_here cs with
  | Some inner => Some (pos, pos + Str.length16 inner + 4)
  | None =>
      match cs with
      | [] => None
      | c :: k => search k (pos + Str.units_of c)
      end
  end.

(** The text from index [lastIndex] on, where [pos] is the index of
    the first character of [cs]: what is left and its index. *)
Fixpoint skip_to (lastIndex : nat) (cs : list ascii) (pos : nat)
    : list ascii * nat :=
  match cs with
  | c :: k =>
      if pos <? lastIndex then skip_to lastIndex k (pos + Str.units_of c)
      else (cs, pos)
  | [] => ([], pos)
  end.

(** [_INTERPOLATION_REGEX.test(s)]: the regex carries the [g] flag, so
    the search starts at its [lastIndex] and leaves the end of the
    match there, or 0 when there is none. The answer and the new
    [lastIndex]. *)
Definition test (s : string) (lastIndex : nat) : bool * nat :=
  let cs := Str.chars s in
  if Str.length16 cs <? lastIndex then (false, 0)
  else
    let '(rest, pos) := skip_to lastIndex cs 0 in
    match search rest pos with
    | Some (_, e) => (true, e)
    | None => (false, 0)
    end.

End Interpolation.

(** ** The attribute loop of _createUpdateFn (index.js 202-217) *)

Module UpdateFn.

(** An attribute: its name and its value. *)
Definition attr : Type := string * string.

(** [attrMap] *)
Record attrMap := mkAttrMap {
  directives : list attr;
  interpolations : list attr
}.

(** The loop over [el.attributes]: [attrMap] and the [lastIndex] the
    regex is left with. *)
Fixpoint classify (table : Directives.table) (attrs : list attr) (lastIndex : nat)
  : attrMap * nat :=
  match attrs with
  | [] => (mkAttrMap [] [], lastIndex)
  | a :: r =>
      if bool_decide (is_Some (table !! a.1)) then
        let '(m, li) := classify table r lastIndex in
        (mkAttrMap (a :: directives m) (interpolations m), li)
      else
        let '(found, li1) := Interpolation.test a.2 lastIndex in
        let '(m, li) := classify table r li1 in
        (mkAttrMap (directives m)
                   (if found then a :: interpolations m else interpolations m), li)
  end.

End UpdateFn.

(** ** The r-if directive (index.js 359-417) *)

Module RIf.

(** What the handler reads and writes on the element: the properties
    [__ifProcessed] and [__ifInitialDisplay] ([None] for [undefined]),
    the inline [style.display], and the [display] of the computed
    style. *)
Record element := mkElement {
  ifProcessed : value;
  ifInitialDisplay : option string;
  styleDisplay : string;
  computedDisplay : string
}.

(** The variables [update] closes over; [prevShow] starts as [null]. *)
Record closure := mkClosure {
  prevShow : option bool;
  isFirstRender : bool
}.

(** [update()], given what [_ExpressionParser.parse] returned for the
    condition. Assigning [undefined] to [style.display] is ignored. *)
Definition update (parsed : value) (st : element * closure) : element * closure :=
  let '(el, c) := st in
  let show := truthy parsed in
  if bool_decide (prevShow c = Some show) && negb (isFirstRender c) then st
  else
    (mkElement (ifProcessed el) (ifInitialDisplay el)
       (if show then default (styleDisplay el) (ifInitialDisplay el) else "none")
       (computedDisplay el),
     mkClosure (Some show) false).

(** The handler, given the value of the condition at the first
    [update]: the element, the closure if one was made, and what was
    logged. *)
Definition handler (scope : value) (parsed : value) (el : element)
  : element * option closure * list log_entry :=
  if negb (Reactive.is_object scope) then
    (el, None, [LogWarn "[r-if]" (VStr "作用域无效，条件无法解析")])
  else if truthy (ifProcessed el) then (el, None, [])
  else
    let initial :=
      match ifInitialDisplay el with
      | Some d => d
      | None =>
          let own := Str.trim (styleDisplay el) in
          let d := if bool_decide (own = String.EmptyString)
                   then computedDisplay el else own in
          if bool_decide (d = "none") then "block" else d
      end in
    let el1 := mkElement (VBool true) (Some initial) (styleDisplay el)
                         (computedDisplay el) in
    let '(el2, c) := update parsed (el1, mkClosure None true) in
    (el2, Some c, []).

(** The later runs of [update], one for each value of the condition. *)
Definition updates (vs : list value) (st : element * closure) : element * closure :=
  foldl (λ s v, update v s) st vs.

End RIf.

(** ** Predicates on the properties of an object *)

Module Props.
Import Reactive.

(** [k] is not an own property of [o] that refuses writes: not a
    property that [Object.defineProperty] has made non-writable. *)
Definition writable (o : object) (k : prop) : Prop :=
  match k with
  | Name s => hidden o !! s = None
  | Idx _ => True
  end.

(** [k] is the [length] of an array. *)
Definition is_length (o : object) (k : prop) : bool :=
  is_array o && bool_decide (k = Name "length").

(** [v] is neither the old value nor, with it, NaN: the test of the
    [set] trap for a change. *)
Definition changes (old v : value) : bool :=
  negb (strict_eq old v || (isNaN old && isNaN v)).

End Props.

(** ** _processTextNode (index.js 273-295) *)

Module TextNode.
Import ExpressionParser.

(** [_nodeContentMap], the [textContent] of the text nodes, the
    identity the next closure gets, and the world of the evaluator.
    The scope is given by its keys and values, as [parse] reads them. *)
Record state := mkState {
  nodeContentMap : gmap nat string;
  textContent : gmap nat string;
  nextFn : fn;
  pw : world
}.

(** [node.textContent] *)
Definition text_of (node : nat) (st : state) : string :=
  default String.EmptyString (textContent st !! node).

(** [_activeFns.push(f)] and [_activeFns.pop()] *)
Definition push (f : fn) (w : world) : world :=
  mkWorld (cells w) (activeFns w ++ [f]) (console w).
Definition pop (w : world) : world :=
  mkWorld (cells w) (removelast (activeFns w)) (console w).

(** [_nodeContentMap.get(node)] *)
Definition original (node : nat) (st : state) : value :=
  match nodeContentMap st !! node with
  | Some s => VStr s
  | None => VUndefined
  end.

Section Process.
Variable run_function : list (string * value) → string → world → res value * world.
Variable display : value → string.

(** [update()]: assigning a value that is no string, which can only
    be [undefined] here, empties the text. *)
Definition update (node : nat) (scope : list (string * value)) (st : state) : state :=
  let '(v, _, w1) := parseText run_function display (original node st) scope [] (pw st) in
  mkState (nodeContentMap st)
          (<[node := match v with VStr s => s | _ => String.EmptyString end]>
             (textContent st))
          (nextFn st) w1.

(** The loop [deps.forEach(v => _depsMap.get(scope)?.subscribe(update, v))]
    on the node of the scope. *)
Definition subscribe_all (f : fn) (names : list string) (d : Dependency.t)
  : Dependency.t :=
  foldl (λ d v, Dependency.subscribe (VFun f) (Some v) d) d names.

(** [_depsMap.get(scope)]: the node of [scope], if [scope] is an
    object that [_depsMap] has as a key. *)
Definition scope_node (scope : value) (rw : Reactive.world) : option nat :=
  match scope with
  | VObj l => Reactive.depsMap rw !! l
  | _ => None
  end.

(** The last loop: the names are subscribed on the node of the scope,
    if it has one. *)
Definition subscribe_scope (f : fn) (names : list string) (scope : value)
    (rw : Reactive.world) : Reactive.world :=
  match scope_node scope rw with
  | Some d =>
      match Reactive.deps rw !! d with
      | Some dp =>
          Reactive.set_deps (<[d := subscribe_all f names dp]> (Reactive.deps rw)) rw
      | None => rw
      end
  | None => rw
  end.

(** [_processTextNode(node, scope)]: [scope] is the scope object and
    [bindings] its keys and values as [parse] reads them; [rw] holds
    [_depsMap] and the dependency nodes. The state afterwards, the
    identity of the new [update], and [rw] after the last loop. *)
Definition processTextNode (node : nat) (scope : value)
    (bindings : list (string * value)) (rw : Reactive.world) (st : state)
  : state * fn * Reactive.world :=
  let st1 :=
    if bool_decide (is_Some (nodeContentMap st !! node)) then st
    else mkState (<[node := text_of node st]> (nodeContentMap st))
                 (textContent st) (nextFn st) (pw st) in
  let f := nextFn st1 in
  let st2 := mkState (nodeContentMap st1) (textContent st1) (S f) (push f (pw st1)) in
  let st3 := update node bindings st2 in
  let st4 := mkState (nodeContentMap st3) (textContent st3) (nextFn st3) (pop (pw st3)) in
  let '(_, names, w5) :=
    parseText run_function display (original node st4) bindings [] (pw st4) in
  (mkState (nodeContentMap st4) (textContent st4) (nextFn st4) w5,
   f,
   subscribe_scope f names scope rw).

End Process.

End TextNode.

(** ** The r-click directive (index.js 17-23, 421-494) *)

Module RClick.

Definition EVENT_MAP : list (string * string) :=
  [("click", "click"); ("dblclick", "dblclick"); ("mousedown", "mousedown");
   ("mouseup", "mouseup"); ("mouseover", "mouseover"); ("mouseout", "mouseout");
   ("mousemove", "mousemove"); ("keydown", "keydown"); ("keyup", "keyup");
   ("keypress", "keypress"); ("focus", "focus"); ("blur", "blur");
   ("input", "input"); ("change", "change"); ("submit", "submit");
   ("contextmenu", "contextmenu"); ("scroll", "scroll"); ("resize", "resize")].

(** The element: its attributes, the four properties the handler
    keeps on it ([None] for a property that is not there), and its
    event listeners, each an event type and the identity of a
    function. *)
Record element := mkElement {
  attributes : list (string * string);
  clickHandler : option fn;
  clickFn : option fn;
  clickEventType : option string;
  clickCode : option string;
  listeners : list (string * fn)
}.

Definition hasAttribute (name : string) (el : element) : bool :=
  bool_decide (name ∈ (attributes el).*1).

(** The first entry of [EVENT_MAP] whose name is an attribute of the
    element, ["click"] if there is none. *)
Definition eventType (el : element) : string :=
  match list_find (λ kv, hasAttribute kv.1 el = true) EVENT_MAP with
  | Some (_, kv) => kv.2
  | None => "click"
  end.

(** [addEventListener]: a listener that is there already is not added
    again. [removeEventListener]. *)
Definition addEventListener (ty : string) (h : fn) (el : element) : element :=
  mkElement (attributes el) (clickHandler el) (clickFn el) (clickEventType el)
            (clickCode el) (JSSet.add (ty, h) (listeners el)).
Definition removeEventListener (ty : string) (h : fn) (el : element) : element :=
  mkElement (attributes el) (clickHandler el) (clickFn el) (clickEventType el)
            (clickCode el) (JSSet.delete (ty, h) (listeners el)).

(** [cleanup()], [self] being the identity of the closure. *)
Definition cleanup (self : fn) (el : element) : element :=
  match clickHandler el with
  | Some h =>
      let el1 := match clickEventType el with
                 | Some ty => removeEventListener ty h el
                 | None => el
                 end in
      let el2 := removeEventListener "beforeunload" self el1 in
      mkElement (attributes el2) None None None None (listeners el2)
  | None => el
  end.

(** The handler. [compiles] tells whether [new Function] accepts the
    keys of the scope and the code; [next] is the identity the next
    closure gets. The element, the next identity, and what was
    logged. *)
Definition handler (compiles : value → string → bool) (code : value) (scope : value)
    (next : fn) (el : element) : element * fn * list log_entry :=
  match code with
  | VStr c =>
      if bool_decide (Str.trim c = String.EmptyString) then
        (el, next, [LogWarn "[r-click]" (VStr "事件代码不能为空")])
      else if negb (Reactive.is_object scope) then
        (el, next, [LogWarn "[r-click]" (VStr "作用域无效")])
      else
        let ty := eventType el in
        if bool_decide (clickEventType el = Some ty)
           && bool_decide (clickCode el = Some c)
        then (el, next, [])
        else
          let self := next in
          let el1 := cleanup self el in
          if compiles scope c then
            let fnId := S next in
            let h := S (S next) in
            let el2 := mkElement (attributes el1) (Some h) (Some fnId) (Some ty)
                                 (Some c) (listeners el1) in
            (addEventListener "beforeunload" self (addEventListener ty h el2),
             S (S (S next)), [])
          else (el1, S next, [LogError "[r-click]" (VStr ty)])
  | _ => (el, next, [LogWarn "[r-click]" (VStr "事件代码不能为空")])
  end.

(** A run of the directive on the element after its attributes have
    been set to [attrs]. *)
Definition rerun (compiles : value → string → bool) (scope : value)
    (st : element * fn) (call : list (string * string) * value) : element * fn :=
  let '(el, next) := st in
  let el0 := mkElement call.1 (clickHandler el) (clickFn el) (clickEventType el)
                       (clickCode el) (listeners el) in
  (handler compiles call.2 scope next el0).1.

(** An element no directive has touched. *)
Definition fresh_element (attrs : list (string * string)) : element :=
  mkElement attrs None None None None [].

(** The listeners of the element for other events than [beforeunload]. *)
Definition event_listeners (el : element) : list (string * fn) :=
  filter (λ l, l.1 ≠ "beforeunload") (listeners el).

End RClick.

(** ** Concrete inputs used below *)

(** The update function 0 sets a value that the update function 1
    reads: called, it enqueues 1. *)
Definition chained_code (f : fn) : list BatchUpdater.action :=
  match f with
  | 0 => [BatchUpdater.Enqueue (VFun 1)]
  | _ => []
  end.

(** A world with no cell, no active function and an empty console. *)
Definition quiet_world : ExpressionParser.world := ExpressionParser.mkWorld ∅ [] [].

(** [<p>{{ n }}</p>]: an element with one interpolated text child. *)
Definition paragraph : Dom.node :=
  Dom.Node 1 Dom.ELEMENT_NODE ∅ false [Dom.Node 2 Dom.TEXT_NODE ∅ true []].

(** A heap whose object 0 is the empty record [{}]. *)
Definition world_with_record : Reactive.world :=
  Reactive.set_heap {[ 0 := Reactive.Raw (Reactive.mkObject Reactive.KObject ∅ 0 ∅ ∅ false) ]}
    Reactive.empty_world.

(** A heap whose object 0 is the array [[1, 2, 3]]. *)
Definition world_with_array : Reactive.world :=
  Reactive.set_heap
    {[ 0 := Reactive.Raw
              (Reactive.mkObject Reactive.KArray
                 (list_to_map [(0, VNum (Num 1)); (1, VNum (Num 2)); (2, VNum (Num 3))])
                 3 ∅ ∅ false) ]}
    Reactive.empty_world.

(** The world after [reactive({})]: the record is object 0, its proxy
    is object 1 and its node is node 0. *)
Definition wrapped_world : Reactive.world :=
  match Reactive.reactive (VObj 0) world_with_record with
  | Some (_, w) => w
  | None => Reactive.empty_world
  end.

(** ** Predicates of the statements *)

(** An object [reactive] has marked. *)
Definition marked (o : Reactive.object) : Prop :=
  Reactive.hidden o !! "__isReactive" = Some (VBool true).

(** An object whose wrapping is complete: it carries the mark of the
    proxy too. *)
Definition wrapped (o : Reactive.object) : Prop :=
  marked o ∧ Reactive.hidden o !! "__isReactiveProxy" = Some (VBool true).

(** From [w] to [w1] every marked object is still there and its
    non-writable properties are the same, but for the mark of the proxy
    that the end of its own wrapping adds. *)
Definition keeps_marked (w w1 : Reactive.world) : Prop :=
  ∀ l o, Reactive.raw_at l w = Some o → marked o →
    ∃ o1, Reactive.raw_at l w1 = Some o1
          ∧ (Reactive.hidden o1 = Reactive.hidden o
             ∨ Reactive.hidden o1 = <["__isReactiveProxy" := VBool true]> (Reactive.hidden o)).

(** A call of a trap of a proxy. *)
Inductive trap_call :=
  | TrapGet (k : Reactive.prop)
  | TrapSet (k : Reactive.prop) (v : value)
  | TrapDelete (k : Reactive.prop).

Definition run_trap (p : loc) (c : trap_call) : Reactive.M value :=
  match c with
  | TrapGet k => Reactive.proxy_get p k
  | TrapSet k v => Reactive.bind (Reactive.proxy_set p k v) (λ b, Reactive.ret (VBool b))
  | TrapDelete k => Reactive.bind (Reactive.proxy_delete p k) (λ b, Reactive.ret (VBool b))
  end.

(** The nodes the cache holds for a key. *)
Definition nodes_at (inst : RFor.instance) (key : nat) : list Dom.node :=
  match RFor.nodeCache inst !! key with
  | Some e => RFor.nodes e
  | None => []
  end.

(** The state an [update] that counted [m] leaves, and the initial
    state for [m = 0]: the keys of the cache and [prevKeys] are
    [1..m]. *)
Definition settled (m : nat) (inst : RFor.instance) : Prop :=
  RFor.prevKeys inst = seq 1 m
  ∧ ∀ k, is_Some (RFor.nodeCache inst !! k) ↔ 1 ≤ k ≤ m.

(** An evaluator for the count expressions of the examples, which name
    nothing: a decimal literal has its value, and the other texts fail,
    as [3x] does (a syntax error) and as [3 + foo] does where [foo] is
    not defined. *)
Definition digits_eval (scope : list (string * value)) (text : string)
    (w : ExpressionParser.world) : res value * ExpressionParser.world :=
  match Str.to_index text with
  | Some i => (Ok (VNum (Num (Z.of_nat i))), w)
  | None => (Throw ("SyntaxError: " +:+ text), w)
  end.

(** [<li>{{ index }}</li>] as the template of an [r-for] element, the
    handler's state before its first [update], and two runs in the
    world [wrapped_world] with its proxy as the scope: the expression
    of the attribute is first [3], then [2]. *)
Definition rfor_template : list Dom.node :=
  [Dom.Node 0 Dom.ELEMENT_NODE ∅ false [Dom.Node 1 Dom.TEXT_NODE ∅ true []]].

Definition rfor_start : RFor.instance := RFor.init "index" rfor_template [] 10.

Definition rfor_state1 : RFor.instance * Reactive.world :=
  match RFor.update digits_eval "3" [] quiet_world (VObj 1) rfor_start wrapped_world with
  | Some (Ok r, w) => (r.1.1, w)
  | _ => (rfor_start, wrapped_world)
  end.

Definition rfor_state2 : RFor.instance * Reactive.world :=
  match RFor.update digits_eval "2" [] quiet_world (VObj 1) rfor_state1.1 rfor_state1.2 with
  | Some (Ok r, w) => (r.1.1, w)
  | _ => rfor_state1
  end.

(** The world after [reactive([1, 2, 3])]: the array is object 0, its
    proxy is object 1 and its node is node 0. *)
Definition wrapped_array_world : Reactive.world :=
  match Reactive.reactive (VObj 0) world_with_array with
  | Some (_, w) => w
  | None => Reactive.empty_world
  end.

(** The outcome of a computation and the notifications made. *)
Definition outcome_and_notified {A} (r : option (res A * Reactive.world))
  : option (res A * list (nat * Dependency.variable)) :=
  (λ x, (x.1, Reactive.notified x.2)) <$> r.

(** [m2] answers wherever [m1] does, and the same. *)
Definition refines {A} (m1 m2 : Reactive.M A) : Prop :=
  ∀ w r, m1 w = Some r → m2 w = Some r.

(** A scope from which item scopes are built without wrapping anything:
    the proxy of an object whose enumerable properties hold no
    container and are named neither [__proto__] nor like a mark. *)
Definition plain_scope (scope : value) (w : Reactive.world) : Prop :=
  ∃ ps ts ds os,
    scope = VObj ps
    ∧ Reactive.proxy_at ps w = Some (ts, ds)
    ∧ Reactive.raw_at ts w = Some os
    ∧ is_Some (Reactive.deps w !! ds)
    ∧ ∀ key, key ∈ RFor.enumerable_keys scope w →
        key ≠ Reactive.Name "__proto__"
        ∧ Reactive.is_marker key = false
        ∧ Reactive.is_object (Reactive.reflect_get os key) = false.

(** Every cached item scope is the proxy of a record whose index field
    holds the key of the entry. *)
Definition cache_scopes_ok (inst : RFor.instance) (w : Reactive.world) : Prop :=
  ∀ k e, RFor.nodeCache inst !! k = Some e →
    ∃ p t d o,
      RFor.itemScope e = VObj p
      ∧ Reactive.proxy_at p w = Some (t, d)
      ∧ Reactive.raw_at t w = Some o
      ∧ Reactive.kind o = Reactive.KObject
      ∧ Reactive.reflect_get o (RFor.to_prop (RFor.indexKey inst)) = Reactive.num_of_nat k.

(** The record [{ n: 1 }] after [reactive] has wrapped it. *)
Definition counter_object : Reactive.object :=
  Reactive.define_hidden "__isReactiveProxy" (VBool true)
    (Reactive.define_hidden "__raw" (VObj 0)
       (Reactive.define_hidden "__isReactive" (VBool true)
          (Reactive.mkObject Reactive.KObject ∅ 0 {[ "n" := VNum (Num 1) ]} ∅ false))).

(** The world after [reactive({ n: 1 })]: the record is object 0, its
    proxy is object 1 and its node is node 0. *)
Definition counter_world : Reactive.world :=
  Reactive.mkWorld {[ 0 := Reactive.Raw counter_object; 1 := Reactive.Proxy 0 0 ]}
    {[ 0 := Reactive.set_proxy 1 Dependency.new ]} {[ 0 := 0 ]}
    [] BatchUpdater.init [] [].


(** The world after [n] has been set to 2 through the proxy. *)
Definition counter_world_two : Reactive.world :=
  match Reactive.proxy_set 1 (Reactive.Name "n") (VNum (Num 2)) counter_world with
  | Some (_, w) => w
  | None => counter_world
  end.

(** The array [[1, 2, 3]] after [reactive] has wrapped it. *)
Definition numbers_object : Reactive.object :=
  Reactive.define_hidden "__isReactiveProxy" (VBool true)
    (Reactive.set_intercepted
       (Reactive.define_hidden "__raw" (VObj 0)
          (Reactive.define_hidden "__isReactive" (VBool true)
             (Reactive.mkObject Reactive.KArray
                (list_to_map [(0, VNum (Num 1)); (1, VNum (Num 2)); (2, VNum (Num 3))])
                3 ∅ ∅ false)))).

(** The world after [reactive([1, 2, 3])], written out. *)
Definition numbers_world : Reactive.world :=
  Reactive.mkWorld {[ 0 := Reactive.Raw numbers_object; 1 := Reactive.Proxy 0 0 ]}
    {[ 0 := Reactive.set_proxy 1 Dependency.new ]} {[ 0 := 0 ]}
    [] BatchUpdater.init [] [].

(** The record [{ name: "a" }], not wrapped. *)
Definition inner_object : Reactive.object :=
  Reactive.mkObject Reactive.KObject ∅ 0 {[ "name" := VStr "a" ]} ∅ false.

(** The record [{ user: inner }] after [reactive] has wrapped it,
    [inner] being object 1. *)
Definition nested_object : Reactive.object :=
  Reactive.define_hidden "__isReactiveProxy" (VBool true)
    (Reactive.define_hidden "__raw" (VObj 0)
       (Reactive.define_hidden "__isReactive" (VBool true)
          (Reactive.mkObject Reactive.KObject ∅ 0 {[ "user" := VObj 1 ]} ∅ false))).

(** The world after [reactive({ user: { name: "a" } })]: the outer
    record is object 0, the inner record object 1, the proxy of the
    outer record object 2. *)
Definition nested_world : Reactive.world :=
  Reactive.mkWorld
    {[ 0 := Reactive.Raw nested_object; 1 := Reactive.Raw inner_object;
       2 := Reactive.Proxy 0 0 ]}
    {[ 0 := Reactive.set_proxy 2 Dependency.new ]} {[ 0 := 0 ]}
    [] BatchUpdater.init [] [].

(** A text node, numbered 7, that holds [n = {{ n }}] and has not
    been processed. *)
Definition counter_text : TextNode.state :=
  TextNode.mkState ∅ {[ 7 := "n = {{ n }}" ]} 0 quiet_world.

(** [String(v)] for an integer. *)
Definition show_number (v : value) : string :=
  match v with
  | VNum (Num z) => pretty z
  | _ => "?"
  end.

(** * Properties *)

(** ** Sets *)

Section JSSetFacts.
Context {A : Type} `{EqDecision A}.

Lemma jsset_elem_of_add (x y : A) (s : list A) :
  x ∈ JSSet.add y s ↔ x = y ∨ x ∈ s.
Proof.
  unfold JSSet.add. destruct (decide (y ∈ s)) as [Hin|Hout].
  - split; [auto | intros [-> | ?]; done].
  - rewrite elem_of_app, list_elem_of_singleton. tauto.
Qed.

Lemma jsset_add_NoDup (y : A) (s : list A) :
  NoDup s → NoDup (JSSet.add y s).
Proof.
  intros Hs. unfold JSSet.add. destruct (decide (y ∈ s)) as [Hin|Hout]; [done|].
  apply NoDup_app. split_and!; [done | | apply NoDup_singleton].
  intros x Hx Hy. apply list_elem_of_singleton in Hy. by subst.
Qed.

Lemma jsset_add_present (y : A) (s : list A) : y ∈ s → JSSet.add y s = s.
Proof. intros Hin. unfold JSSet.add. by rewrite decide_True. Qed.
End JSSetFacts.

(** ** The scheduler *)

Lemma add_ran f s : BatchUpdater.ran (BatchUpdater.add f s) = BatchUpdater.ran s.
Proof.
  destruct f; simpl; try done.
  by destruct (BatchUpdater.isUpdating s).
Qed.

Lemma add_queue_fun g s :
  BatchUpdater.queue (BatchUpdater.add (VFun g) s) = JSSet.add g (BatchUpdater.queue s).
Proof. simpl. by destruct (BatchUpdater.isUpdating s). Qed.

Lemma add_queue_grows f g s :
  g ∈ BatchUpdater.queue s → g ∈ BatchUpdater.queue (BatchUpdater.add f s).
Proof.
  destruct f; simpl; try done.
  intros Hg. destruct (BatchUpdater.isUpdating s); simpl;
    apply jsset_elem_of_add; by right.
Qed.

Lemma add_queue_NoDup f s :
  NoDup (BatchUpdater.queue s) → NoDup (BatchUpdater.queue (BatchUpdater.add f s)).
Proof.
  destruct f; simpl; try done.
  intros Hs. destruct (BatchUpdater.isUpdating s); simpl; by apply jsset_add_NoDup.
Qed.

Lemma run_body_ran acts s :
  BatchUpdater.ran (BatchUpdater.run_body acts s).1 = BatchUpdater.ran s.
Proof.
  revert s. induction acts as [|[g|] acts IH]; intros s; simpl; [done | | done].
  by rewrite IH, add_ran.
Qed.

Lemma call_ran code s f :
  BatchUpdater.ran (BatchUpdater.call code s f) = BatchUpdater.ran s ++ [f].
Proof.
  unfold BatchUpdater.call.
  pose proof (run_body_ran (code f) s) as H.
  destruct (BatchUpdater.run_body (code f) s) as [s1 threw]. simpl in *.
  by rewrite H.
Qed.

Lemma foldl_call_ran code fs s :
  BatchUpdater.ran (foldl (BatchUpdater.call code) s fs) = BatchUpdater.ran s ++ fs.
Proof.
  revert s. induction fs as [|f fs IH]; intros s; simpl.
  - by rewrite app_nil_r.
  - rewrite IH, call_ran. by rewrite <- app_assoc.
Qed.

(** A flush calls the functions of its snapshot, each once and in
    order, whatever they enqueue or throw meanwhile. *)
Lemma executeQueue_runs_snapshot code s :
  BatchUpdater.ran (BatchUpdater.executeQueue code s)
  = BatchUpdater.ran s ++ BatchUpdater.queue s.
Proof. unfold BatchUpdater.executeQueue. simpl. by rewrite foldl_call_ran. Qed.

(** C2, on the code: [add] is called with the function 0, the frame
    fires, and the flush calls 0, which enqueues 1. The scheduler is
    then idle with 1 in its queue and no frame requested: 1 was not run
    in this flush and no next flush will run it until some later [add]
    happens to request one. *)
Theorem flush_strands_enqueued :
  let s := BatchUpdater.frame chained_code (BatchUpdater.add (VFun 0) BatchUpdater.init) in
  BatchUpdater.reachable chained_code s
  ∧ BatchUpdater.ran s = [0]
  ∧ BatchUpdater.queue s = [1]
  ∧ BatchUpdater.isUpdating s = false
  ∧ BatchUpdater.raf s = 0.
Proof.
  split; [|by vm_compute].
  apply BatchUpdater.reach_frame.
  - apply BatchUpdater.reach_add, BatchUpdater.reach_init.
  - vm_compute. lia.
Qed.

(** ** Dependency nodes *)

Lemma subscribe_covers f v d :
  Dependency.global_covers_keys d →
  Dependency.global_covers_keys (Dependency.subscribe f v d).
Proof.
  intros Hd. destruct f as [| | | | |g|]; try done.
  unfold Dependency.subscribe.
  destruct v as [k|]; [destruct (Dependency.var_truthy (Some k))|];
    intros k' s f' Hk Hf; simpl in *; apply jsset_elem_of_add.
  - destruct (decide (k = k')) as [->|Hne].
    + rewrite lookup_insert_eq in Hk. injection Hk as <-.
      apply jsset_elem_of_add in Hf as [->|Hf]; [by left|right].
      destruct (Dependency.varSubs d !! k') as [cur|] eqn:Hcur; simpl in Hf.
      * by eapply Hd.
      * by apply elem_of_nil in Hf.
    + rewrite lookup_insert_ne in Hk by done. right. by eapply Hd.
  - right. by eapply Hd.
  - right. by eapply Hd.
Qed.

Lemma run_ops_covers ops st :
  Dependency.global_covers_keys st.1 →
  Dependency.global_covers_keys (Dependency.run_ops ops st).1.
Proof.
  revert st. induction ops as [|o ops IH]; intros st Hst; [done|].
  simpl. apply IH. destruct o as [f v|v]; simpl; [|done].
  by apply subscribe_covers.
Qed.

(** C5: after any sequence of [subscribe] and [notify] calls on a new
    node, every function of every per-variable set of the node belongs
    to its global subscriber set. *)
Theorem dependency_global_covers_keys (ops : list Dependency.op) (bu : BatchUpdater.t) :
  Dependency.global_covers_keys (Dependency.run_ops ops (Dependency.new, bu)).1.
Proof.
  apply run_ops_covers. intros k s f Hk. simpl in Hk.
  by rewrite lookup_empty in Hk.
Qed.

(** ** Boxed cells *)

Lemma notify_fold_ran fs bu :
  BatchUpdater.ran (foldl (λ s f, BatchUpdater.add (VFun f) s) bu fs) = BatchUpdater.ran bu.
Proof.
  revert bu. induction fs as [|f fs IH]; intros bu; [done|].
  cbn [foldl]. rewrite IH. apply add_ran.
Qed.

Lemma notify_fold_keeps fs bu g :
  g ∈ BatchUpdater.queue bu →
  g ∈ BatchUpdater.queue (foldl (λ s f, BatchUpdater.add (VFun f) s) bu fs).
Proof.
  revert bu. induction fs as [|f fs IH]; intros bu Hg; [done|].
  cbn [foldl]. apply IH. by apply add_queue_grows.
Qed.

Lemma notify_fold_enqueues fs bu g :
  g ∈ fs →
  g ∈ BatchUpdater.queue (foldl (λ s f, BatchUpdater.add (VFun f) s) bu fs).
Proof.
  revert bu. induction fs as [|f fs IH]; intros bu Hg.
  - by apply elem_of_nil in Hg.
  - cbn [foldl]. apply elem_of_cons in Hg as [->|Hg]; [|by apply IH].
    apply notify_fold_keeps. rewrite add_queue_fun. apply jsset_elem_of_add. by left.
Qed.

Lemma notify_fold_NoDup fs bu :
  NoDup (BatchUpdater.queue bu) →
  NoDup (BatchUpdater.queue (foldl (λ s f, BatchUpdater.add (VFun f) s) bu fs)).
Proof.
  revert bu. induction fs as [|f fs IH]; intros bu Hb; [done|].
  cbn [foldl]. apply IH. by apply add_queue_NoDup.
Qed.

(** Strict equality of the model's values: equal values are strictly
    equal except NaN. *)
Lemma strict_eq_refl v : v ≠ VNum NaN → strict_eq v v = true.
Proof.
  destruct v as [| |b|[|z]|s|f|l]; simpl; intros Hv;
    try done; by apply bool_decide_eq_true.
Qed.

Lemma strict_eq_true a b : strict_eq a b = true → a = b.
Proof.
  destruct a as [| |x|[|x]|x|x|x], b as [| |y|[|y]|y|y|y]; simpl;
    try done; intros H; apply bool_decide_eq_true in H; by subst.
Qed.

(** Setting the value the cell holds (NaN apart) stores nothing and
    reaches neither the node nor the scheduler. *)
Lemma ref_set_same_noop c bu :
  Ref.value_of c ≠ VNum NaN → Ref.set (Ref.value_of c) c bu = (c, bu).
Proof. intros Hv. unfold Ref.set. by rewrite strict_eq_refl. Qed.

(** Setting another value stores it and enqueues every subscriber,
    once; no function is called during the write. *)
Lemma ref_set_changed_enqueues c v bu :
  strict_eq (Ref.value_of c) v = false →
  Ref.value_of (Ref.set v c bu).1 = v
  ∧ (∀ f, f ∈ Dependency.subscribers (Ref.dep c) →
          f ∈ BatchUpdater.queue (Ref.set v c bu).2)
  ∧ (NoDup (BatchUpdater.queue bu) → NoDup (BatchUpdater.queue (Ref.set v c bu).2))
  ∧ BatchUpdater.ran (Ref.set v c bu).2 = BatchUpdater.ran bu.
Proof.
  intros Hne. unfold Ref.set. rewrite Hne. simpl. split_and!.
  - done.
  - intros f Hf. by apply notify_fold_enqueues.
  - apply notify_fold_NoDup.
  - apply notify_fold_ran.
Qed.

(** C1, on the code: a cell holds NaN and the function [f] has read it.
    Setting NaN again is a write of an equal value, NaN being equal to
    NaN; the setter compares with [!==] alone, takes the value for a new
    one, and hands [f] to the scheduler, which requests a frame. *)
Theorem ref_set_nan_notifies (f : fn) :
  let c := (Ref.get [f] (Ref.ref (VNum NaN))).2 in
  Ref.value_of c = VNum NaN
  ∧ Dependency.subscribers (Ref.dep c) = [f]
  ∧ Ref.set (VNum NaN) c BatchUpdater.init
    = (c, BatchUpdater.mk [f] true 1 [] []).
Proof. by compute. Qed.

(** ** The element walk *)

Lemma processElement_unfold id ty ex interp kids :
  truthy (default VUndefined (ex !! "__processedcessed")) = false →
  ∃ kids1 ev3,
    Dom.processElement (Dom.Node id ty ex interp kids)
    = (Dom.Node id ty (<["__processed" := VBool true]> ex) interp kids1,
       (if ty =? Dom.ELEMENT_NODE then [Dom.UpdateFnRun id] else [])
         ++ Dom.text_bindings kids ++ ev3)
    ∧ map Dom.node_id kids1 = map Dom.node_id kids.
Proof.
  intros Hflag. simpl. rewrite Hflag.
  set (walk := fix walk (ks : list Dom.node) : list Dom.node * list Dom.event :=
         match ks with
         | [] => ([], [])
         | k :: r =>
             let '(k1, e1) := if Dom.is_element k then Dom.processElement k else (k, []) in
             let '(r1, e2) := walk r in (k1 :: r1, e1 ++ e2)
         end).
  assert (Hwalk : ∀ ks, map Dom.node_id (walk ks).1 = map Dom.node_id ks).
  { induction ks as [|k r IH]; [done|]. simpl.
    assert (Hk : Dom.node_id (if Dom.is_element k then Dom.processElement k else (k, [])).1
                 = Dom.node_id k).
    { destruct (Dom.is_element k); [|done].
      destruct k as [i t e b c]. simpl.
      destruct (truthy (default VUndefined (e !! "__processedcessed"))); [done|].
      by destruct (if (t =? Dom.ELEMENT_NODE) || (t =? Dom.DOCUMENT_FRAGMENT_NODE)
                   then _ else _). }
    destruct (if Dom.is_element k then Dom.processElement k else (k, [])) as [k1 e1].
    destruct (walk r) as [r1 e2]. simpl in *. by rewrite Hk, IH. }
  destruct ((ty =? Dom.ELEMENT_NODE) || (ty =? Dom.DOCUMENT_FRAGMENT_NODE)).
  - specialize (Hwalk kids). destruct (walk kids) as [kids1 ev3]. by exists kids1, ev3.
  - by exists kids, [].
Qed.

(** C3, on the code: the walk sets [__processed] but its guard reads
    [__processedcessed], a property nothing sets. A second call on an
    element the walk has just processed, with no flag cleared in
    between, builds and runs the element's update function again. *)
Theorem processElement_twice_reprocesses (el : Dom.node) :
  Dom.prop "__processedcessed" el = VUndefined →
  Dom.is_element el = true →
  Dom.prop "__processed" (Dom.processElement el).1 = VBool true
  ∧ ∃ evs, (Dom.processElement (Dom.processElement el).1).2
           = Dom.UpdateFnRun (Dom.node_id el) :: evs.
Proof.
  destruct el as [id ty ex interp kids]. intros Hflag Hty.
  assert (Hnone : truthy (default VUndefined (ex !! "__processedcessed")) = false).
  { unfold Dom.prop in Hflag. cbn [Dom.expando] in Hflag. by rewrite Hflag. }
  assert (Hty' : (ty =? Dom.ELEMENT_NODE) = true) by exact Hty.
  destruct (processElement_unfold id ty ex interp kids Hnone) as (kids1 & ev3 & E1 & _).
  rewrite E1. cbn [fst]. split.
  - unfold Dom.prop. cbn [Dom.expando]. by rewrite lookup_insert_eq.
  - destruct (processElement_unfold id ty (<["__processed" := VBool true]> ex) interp kids1)
      as (kids2 & ev4 & E2 & _).
    { by rewrite lookup_insert_ne. }
    rewrite E2, Hty'. cbn [snd Dom.node_id]. eauto.
Qed.

Lemma processElement_twice_reprocesses_witness :
  ∃ evs, (Dom.processElement (Dom.processElement paragraph).1).2
         = Dom.UpdateFnRun 1 :: evs.
Proof.
  apply (processElement_twice_reprocesses paragraph); reflexivity.
Defined.

(** ** The expression evaluator *)

(** [parse] returns normally on every input. *)
Lemma parse_never_throws run expr scope deps w :
  ∃ v deps1 w1, ExpressionParser.parse run expr scope deps w = (Ok v, deps1, w1).
Proof.
  destruct expr as [| |b|n|text|f|l]; simpl; eauto.
  destruct (run scope (ExpressionParser.strip text) w) as [[result|e] w1]; eauto.
  destruct (ExpressionParser.unwrap result w1) as [v w2]. eauto.
Qed.

(** *** Lengths of trimmed and sliced texts *)

Lemma chars_of_chars cs : Str.chars (Str.of_chars cs) = cs.
Proof. apply String.list_ascii_of_string_of_list_ascii. Qed.

Lemma of_chars_chars s : Str.of_chars (Str.chars s) = s.
Proof. apply String.string_of_list_ascii_of_string. Qed.

Lemma drop_spaces_cons a k :
  Str.drop_spaces (a :: k)
  = if Str.is_space a then Str.drop_spaces k
    else match k with
         | b :: k2 =>
             if Str.is_space2 a b then Str.drop_spaces k2
             else match k2 with
                  | c :: k3 =>
                      if Str.is_space3 a b c then Str.drop_spaces k3 else a :: k
                  | [] => a :: k
                  end
         | [] => a :: k
         end.
Proof. reflexivity. Qed.

Lemma drop_spaces_rev_cons c k :
  Str.drop_spaces_rev (c :: k)
  = if Str.is_space c then Str.drop_spaces_rev k
    else match k with
         | b :: k2 =>
             if Str.is_space2 b c then Str.drop_spaces_rev k2
             else match k2 with
                  | a :: k3 =>
                      if Str.is_space3 a b c then Str.drop_spaces_rev k3 else c :: k
                  | [] => c :: k
                  end
         | [] => c :: k
         end.
Proof. reflexivity. Qed.

Lemma drop_spaces_length_le n :
  ∀ cs, length cs ≤ n → length (Str.drop_spaces cs) ≤ length cs.
Proof.
  induction n as [|n IH]; intros cs Hn.
  - destruct cs; [done | cbn in Hn; lia].
  - destruct cs as [|a k]; [done|]. rewrite drop_spaces_cons.
    cbn [length] in Hn.
    destruct (Str.is_space a).
    { pose proof (IH k ltac:(lia)). cbn [length]. lia. }
    destruct k as [|b k2]; [done|]. cbn [length] in Hn.
    destruct (Str.is_space2 a b).
    { pose proof (IH k2 ltac:(lia)). cbn [length]. lia. }
    destruct k2 as [|c k3]; [done|]. cbn [length] in Hn.
    destruct (Str.is_space3 a b c); [|done].
    pose proof (IH k3 ltac:(lia)). cbn [length]. lia.
Qed.

Lemma drop_spaces_rev_length_le n :
  ∀ cs, length cs ≤ n → length (Str.drop_spaces_rev cs) ≤ length cs.
Proof.
  induction n as [|n IH]; intros cs Hn.
  - destruct cs; [done | cbn in Hn; lia].
  - destruct cs as [|c k]; [done|]. rewrite drop_spaces_rev_cons.
    cbn [length] in Hn.
    destruct (Str.is_space c).
    { pose proof (IH k ltac:(lia)). cbn [length]. lia. }
    destruct k as [|b k2]; [done|]. cbn [length] in Hn.
    destruct (Str.is_space2 b c).
    { pose proof (IH k2 ltac:(lia)). cbn [length]. lia. }
    destruct k2 as [|a k3]; [done|]. cbn [length] in Hn.
    destruct (Str.is_space3 a b c); [|done].
    pose proof (IH k3 ltac:(lia)). cbn [length]. lia.
Qed.

Lemma length_of_chars cs : String.length (Str.of_chars cs) = length cs.
Proof. induction cs as [|c k IH]; [done|]. cbn. by rewrite <- IH. Qed.

Lemma length_chars s : length (Str.chars s) = String.length s.
Proof. induction s as [|c k IH]; [done|]. cbn. by rewrite <- IH. Qed.

Lemma trim_length_le s : String.length (Str.trim s) ≤ String.length s.
Proof.
  unfold Str.trim. rewrite length_of_chars, length_rev.
  pose proof (drop_spaces_rev_length_le _ (rev (Str.drop_spaces (Str.chars s))) (le_n _)) as H1.
  pose proof (drop_spaces_length_le _ (Str.chars s) (le_n _)) as H2.
  rewrite length_rev in H1. rewrite length_chars in H2. lia.
Qed.

Lemma substring_length_le s : ∀ n m, String.length (String.substring n m s) ≤ m.
Proof.
  induction s as [|c k IH]; intros n m.
  - destruct n, m; cbn; lia.
  - destruct n as [|n]; destruct m as [|m]; cbn [String.substring String.length].
    + lia.
    + pose proof (IH 0 m). lia.
    + apply IH.
    + apply IH.
Qed.

Lemma prefix_chars p : ∀ s, String.prefix p s = true → take (length (Str.chars p)) (Str.chars s) = Str.chars p.
Proof.
  induction p as [|a p IH]; intros s H; [done|].
  destruct s as [|b s]; [done|]. cbn [String.prefix] in H.
  destruct (Ascii.ascii_dec a b) as [->|]; [|done].
  cbn. f_equal. by apply IH.
Qed.

Lemma delimited_length text :
  Str.startsWith "{{" text = true → Str.endsWith "}}" text = true →
  4 ≤ String.length text.
Proof.
  unfold Str.startsWith, Str.endsWith. intros H1 H2.
  apply prefix_chars in H1. apply prefix_chars in H2.
  rewrite !chars_of_chars in H2. rewrite <- length_chars.
  destruct (Str.chars text) as [|a [|b [|c [|d k]]]];
    [cbn in H1, H2; simplify_eq.. | cbn [length]; lia].
Qed.

(** C8. [parse] never throws, but what it returns on a failure is not
    always the text it was given: the text is reassigned when it is
    opened by the opening and closed by the closing delimiter (index.js
    146), and the handler of the failure returns the reassigned text,
    which the comment at index.js 160 calls the original expression.
    For every text between delimiters whose evaluation throws, [parse]
    logs one warning and returns a text that is at least four
    characters shorter than the one it was given. *)
Theorem parse_failure_drops_delimiters run text scope deps w e w1 :
  Str.startsWith "{{" text = true →
  Str.endsWith "}}" text = true →
  run scope (ExpressionParser.strip text) w = (Throw e, w1) →
  ∃ out deps1 w2,
    ExpressionParser.parse run (VStr text) scope deps w = (Ok (VStr out), deps1, w2)
    ∧ ExpressionParser.console w2
      = ExpressionParser.console w1 ++ [LogWarn "[_ExpressionParser]" (VStr out)]
    ∧ String.length out + 4 ≤ String.length text
    ∧ out ≠ text.
Proof.
  intros H1 H2 Hrun.
  assert (Hlen : String.length (ExpressionParser.strip text) + 4 ≤ String.length text).
  { unfold ExpressionParser.strip. rewrite H1, H2. cbn [andb].
    pose proof (trim_length_le (Str.slice_2_2 text)) as Ht.
    pose proof (substring_length_le text 2 (String.length text - 4)) as Hs.
    pose proof (delimited_length text H1 H2). unfold Str.slice_2_2 in *. lia. }
  eexists (ExpressionParser.strip text), _, _. split_and!.
  - cbn [ExpressionParser.parse]. rewrite Hrun. reflexivity.
  - reflexivity.
  - exact Hlen.
  - intros E. rewrite E in Hlen. lia.
Qed.

Lemma parse_failure_drops_delimiters_witness :
  ∃ out deps1 w2,
    ExpressionParser.parse ExpressionParser.ident_eval (VStr "{{ a }}") [] [] quiet_world
    = (Ok (VStr out), deps1, w2)
    ∧ ExpressionParser.console w2
      = ExpressionParser.console quiet_world ++ [LogWarn "[_ExpressionParser]" (VStr out)]
    ∧ String.length out + 4 ≤ String.length "{{ a }}"
    ∧ out ≠ "{{ a }}".
Proof.
  exact (parse_failure_drops_delimiters ExpressionParser.ident_eval "{{ a }}" [] [] quiet_world
           "ReferenceError: a is not defined" quiet_world eq_refl eq_refl eq_refl).
Defined.

(** White space outside of ASCII is trimmed too: between the delimiters
    the identifier stands between two no-break spaces (U+00A0). *)
Example parse_failure_trims_no_break_space :
  let nbsp := [ascii_of_nat 194; ascii_of_nat 160] in
  (ExpressionParser.parse ExpressionParser.ident_eval
     (VStr (Str.of_chars (["{"; "{"] ++ nbsp ++ ["a"] ++ nbsp ++ ["}"; "}"])%char))
     [] [] quiet_world).1.1
  = Ok (VStr "a").
Proof. by vm_compute. Qed.

(** The text returned on a failure is empty when the expression is: a
    scope with the key [my-key] makes every evaluation fail, that of
    the empty expression too. *)
Example parse_failure_can_be_empty :
  (ExpressionParser.parse ExpressionParser.ident_eval (VStr String.EmptyString)
     [("my-key", VNum (Num 1))] [] quiet_world).1.1
  = Ok (VStr String.EmptyString).
Proof. by vm_compute. Qed.

(** An interpolation whose expression fails renders the expression:
    [parseText] hands [parse] the trimmed inside of the delimiters. *)
Example parseText_renders_expression :
  (ExpressionParser.parseText ExpressionParser.ident_eval (λ _, "?") (VStr "count is {{ n }}")
     [] [] quiet_world).1.1 = VStr "count is n".
Proof. by vm_compute. Qed.

(** ** Registration and unsupported targets *)

(** C9 fails as stated: registering a handler that is not a function
    throws. *)
Lemma registerDirective_not_callable_throws :
  Directives.registerDirective "r-x" (VNum (Num 1)) ∅
  = Throw ("指令处理器必须是函数: " +:+ "r-x").
Proof. reflexivity. Qed.

Lemma reactive_unsupported v w :
  Reactive.unsupported v w = true →
  Reactive.reactive v w = Some (Ok v, Reactive.log (LogWarn "[reactive]" v) w).
Proof. intros Hu. unfold Reactive.reactive. simpl. by rewrite Hu. Qed.

(** C9, amended: wrapping a target of an unsupported type logs a
    warning and returns the target as it is; nothing is thrown and the
    heap, the nodes and the scheduler stay as they are. Registering a
    handler that is not a function throws an error and registers
    nothing. *)
Theorem construction_errors name handler t v w :
  is_function handler = false →
  Reactive.unsupported v w = true →
  Directives.registerDirective name handler t
  = Throw ("指令处理器必须是函数: " +:+ name)
  ∧ Reactive.reactive v w
    = Some (Ok v, Reactive.mkWorld (Reactive.heap w) (Reactive.deps w) (Reactive.depsMap w)
                    (Reactive.activeFns w) (Reactive.sched w)
                    (Reactive.console w ++ [LogWarn "[reactive]" v])
                    (Reactive.notified w)).
Proof.
  intros Hf Hu. split.
  - by destruct handler.
  - by rewrite reactive_unsupported.
Qed.

Lemma construction_errors_witness :
  Directives.registerDirective "r-x" (VStr "handler") ∅
  = Throw ("指令处理器必须是函数: " +:+ "r-x")
  ∧ Reactive.reactive (VNum (Num 42)) Reactive.empty_world
    = Some (Ok (VNum (Num 42)),
            Reactive.mkWorld ∅ ∅ ∅ [] BatchUpdater.init
              [LogWarn "[reactive]" (VNum (Num 42))] []).
Proof.
  exact (construction_errors "r-x" (VStr "handler") ∅ (VNum (Num 42))
           Reactive.empty_world eq_refl eq_refl).
Defined.

(** ** Wrapping *)

Section Wrapping.
Import Reactive.

Lemma raw_at_heap l w o : raw_at l w = Some o → heap w !! l = Some (Raw o).
Proof. unfold raw_at. destruct (heap w !! l) as [[o'|]|]; congruence. Qed.

(** A value that carries [__isReactiveProxy] is returned as it is. *)
Lemma reactive_already_proxied v w :
  unsupported v w = false →
  truthy (read_marker "__isReactiveProxy" v w) = true →
  reactive v w = Some (Ok v, w).
Proof. intros Hu Hm. unfold reactive. simpl. by rewrite Hu, Hm. Qed.

(** The first wrap of a record: a new node, the two marks on the
    record, a new proxy, and the third mark, which lands on the record
    as well. *)
Lemma reactive_fresh_record l o w :
  raw_at l w = Some o →
  kind o = KObject →
  truthy (reflect_get o (Name "__isReactiveProxy")) = false →
  truthy (reflect_get o (Name "__isReactive")) = false →
  let d := fresh (dom (deps w)) in
  let p := fresh (dom (heap w)) in
  let o3 := define_hidden "__isReactiveProxy" (VBool true)
              (define_hidden "__raw" (VObj l)
                 (define_hidden "__isReactive" (VBool true) o)) in
  reactive (VObj l) w
  = Some (Ok (VObj p),
          mkWorld (<[l := Raw o3]> (<[p := Proxy l d]> (heap w)))
                  (<[d := set_proxy p Dependency.new]> (deps w))
                  (<[l := d]> (depsMap w))
                  (activeFns w) (sched w) (console w) (notified w)).
Proof.
  intros Hl Hk Hp Hr d p o3.
  pose proof (raw_at_heap _ _ _ Hl) as Hh.
  unfold reactive. cbn [reactive_fuel].
  unfold unsupported, read_marker. rewrite Hh, Hk, Hp, Hr, Hl.
  unfold is_array. rewrite Hk. rewrite bool_decide_eq_false_2 by done.
  assert (Hdom : l ∈ dom (heap w)) by (apply elem_of_dom; eauto).
  assert (Hpl : p ≠ l).
  { intros E. apply (is_fresh (dom (heap w))). fold p. by rewrite E. }
  unfold update_dep, dep_of, put_raw, alloc, lift_opt, modify, raw_at, bind, ret.
  cbn [heap set_heap set_deps set_depsMap deps depsMap activeFns sched console notified].
  rewrite dom_insert_L, (subseteq_union_1_L {[l]} (dom (heap w))) by set_solver.
  fold p d.
  rewrite lookup_insert_ne by done. rewrite lookup_insert_eq.
  cbn [heap set_heap set_deps set_depsMap deps depsMap activeFns sched console notified].
  rewrite lookup_insert_eq.
  cbn [heap set_heap set_deps set_depsMap deps depsMap activeFns sched console notified].
  rewrite insert_insert_eq.
  rewrite (insert_insert_ne _ p l) by done. rewrite insert_insert_eq.
  reflexivity.
Qed.

(** C4, on the code: the first [reactive(x)] of a record [x] returns
    a new proxy [p]. Defining [__isReactiveProxy] through the proxy
    has put the mark on [x] itself, so the test that lets a proxy
    through lets [x] through too: wrapping [p] returns [p], but the
    second [reactive(x)] returns [x], not the cached [p]. *)
Theorem reactive_second_wrap_returns_raw l o w :
  raw_at l w = Some o →
  kind o = KObject →
  truthy (reflect_get o (Name "__isReactiveProxy")) = false →
  truthy (reflect_get o (Name "__isReactive")) = false →
  ∃ p w1,
    reactive (VObj l) w = Some (Ok (VObj p), w1)
    ∧ p ≠ l
    ∧ proxy_at p w1 = Some (l, fresh (dom (deps w)))
    ∧ reactive (VObj p) w1 = Some (Ok (VObj p), w1)
    ∧ reactive (VObj l) w1 = Some (Ok (VObj l), w1).
Proof.
  intros Hl Hk Hp Hr.
  pose proof (reactive_fresh_record l o w Hl Hk Hp Hr) as Hfirst. cbn zeta in Hfirst.
  set (p := fresh (dom (heap w))) in *.
  set (d := fresh (dom (deps w))) in *.
  assert (Hpl : p ≠ l).
  { intros E. apply (is_fresh (dom (heap w))). fold p. rewrite E.
    apply elem_of_dom. rewrite (raw_at_heap _ _ _ Hl). eauto. }
  eexists p, _. split; [exact Hfirst|]. split; [done|].
  split; [|split].
  - unfold proxy_at. cbn [heap]. rewrite lookup_insert_ne by done.
    by rewrite lookup_insert_eq.
  - apply reactive_already_proxied.
    + unfold unsupported. cbn [heap]. rewrite lookup_insert_ne by done.
      by rewrite lookup_insert_eq.
    + unfold read_marker, raw_at. cbn [heap]. rewrite lookup_insert_ne by done.
      rewrite lookup_insert_eq. rewrite lookup_insert_eq.
      unfold reflect_get, own_get, is_array. cbn [kind define_hidden hidden].
      rewrite Hk. rewrite bool_decide_eq_false_2 by done. cbn [andb].
      by rewrite lookup_insert_eq.
  - apply reactive_already_proxied.
    + unfold unsupported. cbn [heap]. rewrite lookup_insert_eq.
      cbn [kind define_hidden]. by rewrite Hk.
    + unfold read_marker. cbn [heap]. rewrite lookup_insert_eq.
      unfold reflect_get, own_get, is_array. cbn [kind define_hidden hidden].
      rewrite Hk. rewrite bool_decide_eq_false_2 by done. cbn [andb].
      by rewrite lookup_insert_eq.
Qed.

Lemma reactive_second_wrap_returns_raw_witness :
  ∃ p w1,
    reactive (VObj 0) world_with_record = Some (Ok (VObj p), w1)
    ∧ p ≠ 0
    ∧ proxy_at p w1 = Some (0, fresh (dom (deps world_with_record)))
    ∧ reactive (VObj p) w1 = Some (Ok (VObj p), w1)
    ∧ reactive (VObj 0) w1 = Some (Ok (VObj 0), w1).
Proof.
  apply (reactive_second_wrap_returns_raw 0 (mkObject KObject ∅ 0 ∅ ∅ false));
    reflexivity.
Defined.

(** The same on an array: the three calls [reactive(x)],
    [reactive(x)], [reactive(reactive(x))] in a row return the proxy,
    the array itself, and the array itself. *)
Example reactive_array_twice :
  fst <$> (let* a := reactive (VObj 0) in
           let* b := reactive (VObj 0) in
           let* c := reactive b in
           ret (a, b, c)) world_with_array
  = Some (Ok (VObj 1, VObj 0, VObj 0)).
Proof. by vm_compute. Qed.

End Wrapping.

(** ** Fuel *)

Section Fuel.
Import Reactive.

Lemma refines_refl {A} (m : M A) : refines m m.
Proof. by intros w r. Qed.

Lemma refines_bind {A B} (m1 m2 : M A) (k1 k2 : A → M B) :
  refines m1 m2 → (∀ a, refines (k1 a) (k2 a)) →
  refines (bind m1 k1) (bind m2 k2).
Proof.
  intros Hm Hk w r. unfold bind.
  destruct (m1 w) as [[[a|e] w1]|] eqn:E; [| |done].
  - rewrite (Hm _ _ E). apply Hk.
  - by rewrite (Hm _ _ E).
Qed.

Lemma refines_for_each {A} (f g : A → M unit) (xs : list A) :
  (∀ x, refines (f x) (g x)) → refines (for_each f xs) (for_each g xs).
Proof.
  intros H. induction xs as [|x xs IH]; [apply refines_refl|].
  cbn [for_each]. apply refines_bind; [apply H|]. intros _. apply IH.
Qed.

(** More fuel does not change an answer of [reactive_fuel]. *)
Lemma reactive_fuel_mono n :
  ∀ m, n ≤ m → ∀ v, refines (reactive_fuel n v) (reactive_fuel m v).
Proof.
  induction n as [|n IH]; intros m Hm v w r H; [done|].
  destruct m as [|m]; [lia|].
  cbn [reactive_fuel] in *.
  destruct (unsupported v w); [done|].
  destruct (truthy (read_marker "__isReactiveProxy" v w)); [done|].
  destruct (truthy (read_marker "__isReactive" v w)); [done|].
  destruct v as [| | | | | |l]; try done.
  destruct (raw_at l w) as [o|]; [|done].
  revert H. apply refines_bind; [|intros; apply refines_refl].
  destruct (is_array o); [|apply refines_refl].
  apply refines_for_each. intros i.
  apply refines_bind; [apply refines_refl|]. intros cur.
  destruct (elems cur !! i) as [item|]; [|apply refines_refl].
  apply refines_bind; [apply refines_refl|]. intros mk.
  destruct (is_object item && negb (truthy mk)); [|apply refines_refl].
  apply refines_bind; [|intros; apply refines_refl].
  apply IH. lia.
Qed.
End Fuel.

(** ** Running a computation step by step *)

Section Steps.
Import Reactive.

Lemma bind_Some {A B} (m : M A) (k : A → M B) w r w' :
  bind m k w = Some (r, w') →
  (∃ a w1, m w = Some (Ok a, w1) ∧ k a w1 = Some (r, w'))
  ∨ (∃ e, m w = Some (Throw e, w') ∧ r = Throw e).
Proof.
  unfold bind. destruct (m w) as [[[a|e] w1]|]; intros H; [| |done].
  - left. eauto.
  - right. injection H as <- <-. eauto.
Qed.

Lemma bind_ok {A B} (m : M A) (k : A → M B) w a w1 :
  m w = Some (Ok a, w1) → bind m k w = k a w1.
Proof. intros H. unfold bind. by rewrite H. Qed.

Lemma proxy_ne_raw p t td o w :
  proxy_at p w = Some td → raw_at t w = Some o → p ≠ t.
Proof.
  unfold proxy_at, raw_at. intros Hp Ht ->.
  destruct (heap w !! t) as [[?|??]|]; congruence.
Qed.

Lemma lift_opt_Some {A} (f : world → option A) w r w1 :
  lift_opt f w = Some (r, w1) → w1 = w ∧ ∃ a, f w = Some a ∧ r = Ok a.
Proof. unfold lift_opt. destruct (f w); [|done]. intros [= <- <-]. eauto. Qed.

Lemma gets_Some {A} (f : world → A) w r w1 :
  gets f w = Some (r, w1) → w1 = w ∧ r = Ok (f w).
Proof. by intros [= <- <-]. Qed.

Lemma ret_Some {A} (a : A) w r w1 :
  ret a w = Some (r, w1) → w1 = w ∧ r = Ok a.
Proof. by intros [= <- <-]. Qed.

Lemma update_dep_at d f dp w :
  deps w !! d = Some dp →
  update_dep d f w = Some (Ok tt, set_deps (<[d := f dp]> (deps w)) w).
Proof. intros Hd. unfold update_dep, dep_of, bind, lift_opt, modify. by rewrite Hd. Qed.

Lemma notify_at d v dp w :
  deps w !! d = Some dp →
  notify d v w
  = Some (Ok tt, mkWorld (heap w) (deps w) (depsMap w) (activeFns w)
                   (Dependency.notify v dp (sched w)) (console w)
                   (notified w ++ [(d, v)])).
Proof. intros Hd. unfold notify, dep_of, bind, lift_opt, modify. by rewrite Hd. Qed.

End Steps.

(** ** The marks of a wrapped object *)

Section Marks.
Import Reactive.

Lemma keeps_marked_refl w : keeps_marked w w.
Proof. intros l o Hl Hm. eauto. Qed.

Lemma keeps_marked_trans w1 w2 w3 :
  keeps_marked w1 w2 → keeps_marked w2 w3 → keeps_marked w1 w3.
Proof.
  intros H12 H23 l o Hl Hm.
  destruct (H12 l o Hl Hm) as (o1 & Hl1 & Hh1).
  assert (Hm1 : marked o1).
  { unfold marked in *. destruct Hh1 as [->| ->]; [done|].
    by rewrite lookup_insert_ne. }
  destruct (H23 l o1 Hl1 Hm1) as (o2 & Hl2 & Hh2).
  exists o2. split; [done|].
  destruct Hh1 as [E1|E1], Hh2 as [E2|E2]; rewrite E2, E1; auto.
  right. by rewrite insert_insert_eq.
Qed.

Lemma same_heap_keeps w w1 : heap w1 = heap w → keeps_marked w w1.
Proof.
  intros E l o Hl Hm. exists o. unfold raw_at in *. rewrite E. auto.
Qed.

(** Replacing an object that is not marked, or by one with the same
    non-writable properties. *)
Lemma put_raw_keeps l o1 w :
  (∀ o, raw_at l w = Some o → marked o →
        hidden o1 = hidden o
        ∨ hidden o1 = <["__isReactiveProxy" := VBool true]> (hidden o)) →
  keeps_marked w (set_heap (<[l := Raw o1]> (heap w)) w).
Proof.
  intros H l' o Hl' Hm. unfold raw_at. cbn [heap set_heap].
  destruct (decide (l' = l)) as [->|Hne].
  - rewrite lookup_insert_eq. eauto.
  - rewrite lookup_insert_ne by done. exists o. split; [exact Hl'|auto].
Qed.

Lemma alloc_keeps c w : keeps_marked w (alloc c w).2.
Proof.
  intros l o Hl Hm. exists o. split; [|auto].
  unfold alloc, raw_at. cbn [snd heap set_heap].
  rewrite lookup_insert_ne; [done|].
  intros <-. apply (is_fresh (dom (heap w))). apply elem_of_dom.
  unfold raw_at in Hl. destruct (heap w !! _); [eauto|done].
Qed.

Lemma update_dep_heap d f w r w1 :
  update_dep d f w = Some (r, w1) → heap w1 = heap w.
Proof.
  unfold update_dep, dep_of, lift_opt, modify, bind.
  destruct (deps w !! d); [|done]. by intros [= <- <-].
Qed.

Lemma notify_heap d v w r w1 :
  notify d v w = Some (r, w1) → heap w1 = heap w.
Proof.
  unfold notify, dep_of, lift_opt, modify, bind.
  destruct (deps w !! d); [|done]. by intros [= <- <-].
Qed.

Lemma for_each_keeps {A} (f : A → M unit) (xs : list A) :
  (∀ x w r w1, x ∈ xs → f x w = Some (r, w1) → keeps_marked w w1) →
  ∀ w r w1, for_each f xs w = Some (r, w1) → keeps_marked w w1.
Proof.
  induction xs as [|x xs IH]; intros Hf w r w1 H.
  - injection H as <- <-. apply keeps_marked_refl.
  - cbn [for_each] in H. apply bind_Some in H as [(a & w2 & H1 & H2)|(e & H1 & _)].
    + eapply keeps_marked_trans.
      * eapply Hf; [left|exact H1].
      * eapply IH; [|exact H2]. intros y ?????. eapply Hf; [by right|done].
    + eapply Hf; [left|exact H1].
Qed.

Lemma unmarked_not_marked l o w :
  raw_at l w = Some o →
  truthy (read_marker "__isReactive" (VObj l) w) = false →
  ¬ marked o.
Proof.
  intros Hl Hf Hm. unfold read_marker in Hf.
  rewrite (raw_at_heap _ _ _ Hl) in Hf.
  unfold reflect_get, own_get in Hf.
  rewrite andb_false_r in Hf || (rewrite bool_decide_eq_false_2 in Hf by done; rewrite andb_false_r in Hf).
  unfold marked in Hm. by rewrite Hm in Hf.
Qed.

Lemma heap_insert_keeps l o1 w w1 :
  heap w1 = <[l := Raw o1]> (heap w) →
  (∀ o, raw_at l w = Some o → marked o →
        hidden o1 = hidden o
        ∨ hidden o1 = <["__isReactiveProxy" := VBool true]> (hidden o)) →
  keeps_marked w w1.
Proof.
  intros E H l' o Hl' Hm. unfold raw_at. rewrite E.
  destruct (decide (l' = l)) as [->|Hne].
  - rewrite lookup_insert_eq. eauto.
  - rewrite lookup_insert_ne by done. exists o. split; [exact Hl'|auto].
Qed.

Lemma reactive_fuel_keeps n :
  ∀ v w r w1, reactive_fuel n v w = Some (r, w1) → keeps_marked w w1.
Proof.
  induction n as [|n IH]; intros v w r w1 H; [done|].
  cbn [reactive_fuel] in H.
  destruct (unsupported v w).
  { injection H as <- <-. by apply same_heap_keeps. }
  destruct (truthy (read_marker "__isReactiveProxy" v w)).
  { injection H as <- <-. apply keeps_marked_refl. }
  destruct (truthy (read_marker "__isReactive" v w)) eqn:Hmk.
  { destruct v as [| | | | | |l]; try done.
    destruct (depsMap w !! l) as [d|]; [destruct (deps w !! d); [|done]|];
      injection H as <- <-; apply keeps_marked_refl. }
  destruct v as [| | | | | |l]; try done.
  destruct (raw_at l w) as [o|] eqn:Hl; [|done].
  pose proof (unmarked_not_marked l o w Hl Hmk) as Hun.
  match type of H with
  | bind ?loop ?rest ?start = _ =>
      set (w0 := start) in *; set (body := loop) in *
  end.
  assert (K0 : keeps_marked w w0).
  { eapply heap_insert_keeps; [reflexivity|]. intros o' Ho'. congruence. }
  assert (Kloop : ∀ r' w', body w0 = Some (r', w') → keeps_marked w0 w').
  { subst body. intros r' w' Hb. destruct (is_array o).
    2: { apply ret_Some in Hb as [-> _]. apply keeps_marked_refl. }
    revert Hb. apply for_each_keeps. clear -IH.
    intros i wa ra wb _ Hi.
    apply bind_Some in Hi as [(cur & wa1 & Ha & Hb)|(e & Ha & _)].
    2: { apply lift_opt_Some in Ha as [-> _]. apply keeps_marked_refl. }
    apply lift_opt_Some in Ha as [-> _].
    destruct (elems cur !! i) as [item|].
    2: { apply ret_Some in Hb as [-> _]. apply keeps_marked_refl. }
    apply bind_Some in Hb as [(mk & wa1 & Ha & Hb)|(e & Ha & _)].
    2: { apply gets_Some in Ha as [-> _]. apply keeps_marked_refl. }
    apply gets_Some in Ha as [-> _].
    destruct (is_object item && negb (truthy mk)).
    2: { apply ret_Some in Hb as [-> _]. apply keeps_marked_refl. }
    apply bind_Some in Hb as [(rv & wc & Ha & Hb)|(e & Ha & _)].
    2: { by eapply IH. }
    eapply keeps_marked_trans; [by eapply IH|].
    apply bind_Some in Hb as [(cur1 & wc1 & Hc & Hd)|(e & Hc & _)].
    2: { apply lift_opt_Some in Hc as [-> _]. apply keeps_marked_refl. }
    apply lift_opt_Some in Hc as [-> (c1 & Hc1 & [= <-])].
    injection Hd as _ <-.
    eapply heap_insert_keeps; [reflexivity|].
    intros o' Ho' _. left. rewrite Hc1 in Ho'. by injection Ho' as <-. }
  apply bind_Some in H as [(u & w2 & H1 & H2)|(e & H1 & _)].
  2: { eapply keeps_marked_trans; [exact K0|by eapply Kloop]. }
  eapply keeps_marked_trans; [exact K0|].
  eapply keeps_marked_trans; [by eapply Kloop|]. clear K0 Kloop H1.
  apply bind_Some in H2 as [(p & w3 & H1 & H2)|(e & H1 & _)].
  2: { unfold alloc in H1. done. }
  assert (K3 : keeps_marked w2 w3).
  { unfold alloc in H1. injection H1 as <- <-. apply (alloc_keeps _ w2). }
  eapply keeps_marked_trans; [exact K3|]. clear K3 H1.
  apply bind_Some in H2 as [(cur & w4 & H1 & H2)|(e & H1 & _)].
  2: { apply lift_opt_Some in H1 as [-> _]. apply keeps_marked_refl. }
  apply lift_opt_Some in H1 as [-> (c1 & Hc1 & [= <-])].
  apply bind_Some in H2 as [(u1 & w5 & H1 & H2)|(e & H1 & _)].
  2: { done. }
  injection H1 as _ <-.
  match type of H2 with _ ?wx = _ => apply (keeps_marked_trans _ wx) end.
  { eapply heap_insert_keeps; [reflexivity|].
    intros o' Ho' _. right. rewrite Hc1 in Ho'. by injection Ho' as <-. }
  apply bind_Some in H2 as [(u2 & w6 & H1 & H2)|(e & H1 & _)].
  2: { apply update_dep_heap in H1. by apply same_heap_keeps. }
  apply update_dep_heap in H1. apply ret_Some in H2 as [-> _].
  by apply same_heap_keeps.
Qed.

Lemma reactive_keeps v w r w1 : reactive v w = Some (r, w1) → keeps_marked w w1.
Proof. apply reactive_fuel_keeps. Qed.

Lemma reflect_set_hidden o k v b o1 :
  reflect_set o k v = Ok (b, o1) → hidden o1 = hidden o.
Proof.
  destruct k as [i|s]; simpl.
  - by intros [= <- <-].
  - destruct (is_array o && bool_decide (s = "length")).
    + destruct (to_number v) as [|z]; [done|].
      destruct ((0 <=? z)%Z && (z <? 2 ^ 32)%Z); [|done]. by intros [= <- <-].
    + destruct (bool_decide (is_Some (hidden o !! s))); by intros [= <- <-].
Qed.

Lemma reflect_delete_hidden o k : hidden (reflect_delete o k).2 = hidden o.
Proof.
  destruct k as [i|s]; simpl; [done|].
  destruct (is_array o && bool_decide (s = "length")); [done|].
  by destruct (bool_decide (is_Some (hidden o !! s))).
Qed.

Lemma for_each_notify_heap {A} d (f : A → Dependency.variable) xs w r w1 :
  for_each (λ x, notify d (f x)) xs w = Some (r, w1) → heap w1 = heap w.
Proof.
  revert w. induction xs as [|x xs IH]; intros w H.
  - by injection H as <- <-.
  - cbn [for_each] in H. apply bind_Some in H as [(a & w2 & H1 & H2)|(e & H1 & _)].
    + apply notify_heap in H1. rewrite <- H1. by apply IH.
    + by apply notify_heap in H1.
Qed.

Lemma proxy_get_keeps p k w r w1 :
  proxy_get p k w = Some (r, w1) → keeps_marked w w1.
Proof.
  unfold proxy_get. intros H.
  apply bind_Some in H as [(td & w2 & H1 & H)|(e & H1 & _)];
    apply lift_opt_Some in H1 as [-> _]; [|apply keeps_marked_refl].
  apply bind_Some in H as [(o & w2 & H1 & H)|(e & H1 & _)];
    apply lift_opt_Some in H1 as [-> _]; [|apply keeps_marked_refl].
  destruct (bool_decide (k = Name "__proto__")); [done|].
  destruct (is_marker k).
  { apply ret_Some in H as [-> _]. apply keeps_marked_refl. }
  apply bind_Some in H as [(act & w2 & H1 & H)|(e & H1 & _)];
    apply gets_Some in H1 as [-> _]; [|apply keeps_marked_refl].
  assert (Hsub : ∀ r' w', match last act with
                          | Some f => subscribe td.2 (VFun f) (var_of o k)
                          | None => ret tt
                          end w = Some (r', w') → heap w' = heap w).
  { intros r' w'. destruct (last act).
    - apply update_dep_heap.
    - by intros [= <- <-]. }
  apply bind_Some in H as [(u & w2 & H1 & H)|(e & H1 & _)];
    apply Hsub in H1; [|by apply same_heap_keeps].
  eapply keeps_marked_trans; [by apply same_heap_keeps|].
  apply bind_Some in H as [(mk & w3 & H2 & H)|(e & H2 & _)];
    apply gets_Some in H2 as [-> _]; [|apply keeps_marked_refl].
  destruct (is_object (reflect_get o k) && negb (truthy mk)).
  - by eapply reactive_keeps.
  - apply ret_Some in H as [-> _]. apply keeps_marked_refl.
Qed.

Lemma proxy_delete_keeps p k w r w1 :
  proxy_delete p k w = Some (r, w1) → keeps_marked w w1.
Proof.
  unfold proxy_delete. intros H.
  apply bind_Some in H as [(td & w2 & H1 & H)|(e & H1 & _)];
    apply lift_opt_Some in H1 as [-> _]; [|apply keeps_marked_refl].
  apply bind_Some in H as [(o & w2 & H1 & H)|(e & H1 & _)];
    apply lift_opt_Some in H1 as [-> (o' & Ho & [= <-])].
  destruct (is_marker k).
  { apply bind_Some in H as [(u & w2 & H1 & H)|(e & H1 & _)].
    - injection H1 as _ <-. apply ret_Some in H as [-> _]. by apply same_heap_keeps.
    - done. }
  pose proof (reflect_delete_hidden o k) as Hh.
  destruct (reflect_delete o k) as [deleteResult o1]. cbn [snd] in Hh.
  apply bind_Some in H as [(u & w2 & H1 & H)|(e & H1 & _)]; [|done].
  injection H1 as _ <-.
  match type of H with _ ?wx = _ => apply (keeps_marked_trans _ wx) end.
  { eapply heap_insert_keeps; [reflexivity|]. intros o2 Ho2 _. left. congruence. }
  apply same_heap_keeps.
  apply bind_Some in H as [(dp & w3 & H1 & H)|(e & H1 & _)];
    unfold dep_of in H1; apply lift_opt_Some in H1 as [-> _]; [|done].
  apply bind_Some in H as [(u2 & w3 & H1 & H)|(e & H1 & _)].
  - apply ret_Some in H as [-> _].
    destruct (reflect_has o k && deleteResult && negb (Dependency.notificationDisabled dp)).
    + by apply notify_heap in H1.
    + by apply ret_Some in H1 as [-> _].
  - destruct (reflect_has o k && deleteResult && negb (Dependency.notificationDisabled dp)).
    + by apply notify_heap in H1.
    + done.
Qed.

Lemma proxy_set_keeps p k v w r w1 :
  proxy_set p k v w = Some (r, w1) → keeps_marked w w1.
Proof.
  unfold proxy_set. intros H.
  apply bind_Some in H as [(td & w2 & H1 & H)|(e & H1 & _)];
    apply lift_opt_Some in H1 as [-> _]; [|apply keeps_marked_refl].
  apply bind_Some in H as [(o & w2 & H1 & H)|(e & H1 & _)];
    apply lift_opt_Some in H1 as [-> (o' & Ho & [= <-])].
  destruct (is_marker k).
  { apply bind_Some in H as [(u & w2 & H1 & H)|(e & H1 & _)].
    - injection H1 as _ <-. apply ret_Some in H as [-> _]. by apply same_heap_keeps.
    - done. }
  destruct (strict_eq (reflect_get o k) v || isNaN (reflect_get o k) && isNaN v).
  { apply ret_Some in H as [-> _]. apply keeps_marked_refl. }
  assert (Hfin : ∀ w' r' w1', set_finish td.1 td.2 o k v w' = Some (r', w1') → keeps_marked w' w1').
  { unfold set_finish. clear. intros w r w1 H.
    apply bind_Some in H as [(rv & w2 & H1 & H)|(e & H1 & _)].
    2: { destruct (is_object v); [by eapply reactive_keeps|done]. }
    assert (K1 : keeps_marked w w2).
    { destruct (is_object v); [by eapply reactive_keeps|].
      apply ret_Some in H1 as [-> _]. apply keeps_marked_refl. }
    eapply keeps_marked_trans; [exact K1|]. clear K1 H1.
    apply bind_Some in H as [(cur & w3 & H1 & H)|(e & H1 & _)];
      apply lift_opt_Some in H1 as [-> (c' & Hc & [= <-])].
    destruct (reflect_set cur k rv) as [[setResult o1]|e] eqn:Hset.
    2: { injection H as _ <-. apply keeps_marked_refl. }
    apply reflect_set_hidden in Hset.
    apply bind_Some in H as [(u & w3 & H1 & H)|(e & H1 & _)]; [|done].
    injection H1 as _ <-.
    match type of H with _ ?wx = _ => apply (keeps_marked_trans _ wx) end.
    { eapply heap_insert_keeps; [reflexivity|]. intros o2 Ho2 _. left. congruence. }
    apply same_heap_keeps.
    apply bind_Some in H as [(dp & w3 & H1 & H)|(e & H1 & _)];
      unfold dep_of in H1; apply lift_opt_Some in H1 as [-> _]; [|done].
    apply bind_Some in H as [(u2 & w3 & H1 & H)|(e & H1 & _)].
    - apply ret_Some in H as [-> _].
      destruct (negb (Dependency.notificationDisabled dp)).
      + by apply notify_heap in H1.
      + by apply ret_Some in H1 as [-> _].
    - destruct (negb (Dependency.notificationDisabled dp)).
      + by apply notify_heap in H1.
      + done. }
  destruct (is_array o && bool_decide (k = Name "length")); [|by eapply Hfin].
  destruct v as [| | |[|z]| | |]; try by eapply Hfin.
  destruct (bool_decide (z = Z.of_nat (len o))).
  { apply ret_Some in H as [-> _]. apply keeps_marked_refl. }
  apply bind_Some in H as [(u & w2 & H1 & H)|(e & H1 & _)];
    apply for_each_notify_heap in H1; [|by apply same_heap_keeps].
  eapply keeps_marked_trans; [by apply same_heap_keeps|]. by eapply Hfin.
Qed.

(** C10: on a proxy whose target is wrapped, the [set] trap called
    for a marker property logs a warning and returns [true], the
    [deleteProperty] trap logs a warning and returns [false]; neither
    touches the heap, the nodes or the scheduler, and no notification
    is made. Whatever trap is called with whatever property, the
    non-writable properties of the target, the three marks among them,
    are afterwards what they were. *)
Theorem marker_properties_guarded p t d o w :
  proxy_at p w = Some (t, d) →
  raw_at t w = Some o →
  wrapped o →
  (∀ k v, is_marker k = true →
     proxy_set p k v w
     = Some (Ok true,
             mkWorld (heap w) (deps w) (depsMap w) (activeFns w) (sched w)
                     (console w ++ [LogWarn "[reactive]" (VStr (prop_name k))])
                     (notified w))
     ∧ proxy_delete p k w
       = Some (Ok false,
               mkWorld (heap w) (deps w) (depsMap w) (activeFns w) (sched w)
                       (console w ++ [LogWarn "[reactive]" (VStr (prop_name k))])
                       (notified w)))
  ∧ (∀ c r w1, run_trap p c w = Some (r, w1) →
       ∃ o1, raw_at t w1 = Some o1 ∧ hidden o1 = hidden o).
Proof.
  intros Hp Ht [Hm Hx]. split.
  - intros k v Hk. unfold proxy_set, proxy_delete, bind, lift_opt.
    rewrite Hp. cbn [fst snd]. rewrite Ht, Hk. done.
  - intros c r w1 Hc.
    assert (K : keeps_marked w w1).
    { destruct c as [k|k v|k]; cbn [run_trap] in Hc.
      - by eapply proxy_get_keeps.
      - apply bind_Some in Hc as [(b & w2 & H1 & H2)|(e & H1 & _)].
        + apply ret_Some in H2 as [-> _]. by eapply proxy_set_keeps.
        + by eapply proxy_set_keeps.
      - apply bind_Some in Hc as [(b & w2 & H1 & H2)|(e & H1 & _)].
        + apply ret_Some in H2 as [-> _]. by eapply proxy_delete_keeps.
        + by eapply proxy_delete_keeps. }
    destruct (K t o Ht Hm) as (o1 & Ho1 & [E|E]); exists o1; (split; [done|]).
    + done.
    + rewrite E. by apply insert_id.
Qed.

Lemma marker_properties_guarded_witness :
  proxy_set 1 (Name "__raw") VNull wrapped_world
  = Some (Ok true, log (LogWarn "[reactive]" (VStr "__raw")) wrapped_world)
  ∧ proxy_delete 1 (Name "__isReactive") wrapped_world
    = Some (Ok false, log (LogWarn "[reactive]" (VStr "__isReactive")) wrapped_world).
Proof.
  assert (Ho : ∃ o, raw_at 0 wrapped_world = Some o ∧ wrapped o).
  { eexists. split; [by vm_compute|]. split; by vm_compute. }
  destruct Ho as (o & Ho & Hw).
  destruct (marker_properties_guarded 1 0 0 o wrapped_world eq_refl Ho Hw) as [H _].
  split.
  - exact (proj1 (H (Name "__raw") VNull eq_refl)).
  - exact (proj2 (H (Name "__isReactive") VNull eq_refl)).
Defined.
End Marks.
(** ** The intercepted array methods *)

Section ArrayMethods.
Import Reactive.

Lemma proxy_get_plain p t d o k w :
  proxy_at p w = Some (t, d) →
  raw_at t w = Some o →
  k ≠ Name "__proto__" →
  is_marker k = false →
  activeFns w = [] →
  is_object (reflect_get o k) = false →
  proxy_get p k w = Some (Ok (reflect_get o k), w).
Proof.
  intros Hp Ht Hk Hm Ha Ho.
  unfold proxy_get, bind, lift_opt, gets, ret. rewrite Hp. cbn [fst snd]. rewrite Ht.
  rewrite bool_decide_eq_false_2 by done. rewrite Hm, Ha. cbn [last].
  by rewrite Ho.
Qed.

Lemma pretty_nat_Z (n : nat) : pretty (Z.of_nat n) = pretty n.
Proof.
  destruct n as [|n]; reflexivity.
Qed.

Lemma length_of_plain p t d o w :
  proxy_at p w = Some (t, d) →
  raw_at t w = Some o →
  kind o = KArray →
  activeFns w = [] →
  length_of p w = Some (Ok (len o), w).
Proof.
  intros Hp Ht Hk Ha. unfold length_of.
  assert (Hg : reflect_get o (Name "length") = VNum (Num (Z.of_nat (len o)))).
  { unfold reflect_get, own_get, is_array. by rewrite Hk. }
  erewrite bind_ok; cycle 1.
  { eapply proxy_get_plain; try done. by rewrite Hg. }
  rewrite Hg. cbn [to_number]. by rewrite Nat2Z.id.
Qed.

(** [pop] under the interceptor, which has disabled the notifications
    of the node: the removed index is notified all the same. *)
Lemma array_pop_disabled p t d o dp n v w :
  proxy_at p w = Some (t, d) →
  raw_at t w = Some o →
  deps w !! d = Some dp →
  kind o = KArray →
  len o = S n →
  (Z.of_nat n < 2 ^ 32)%Z →
  hidden o !! "length" = None →
  elems o !! n = Some v →
  is_object v = false →
  Dependency.notificationDisabled dp = true →
  activeFns w = [] →
  ∃ w1, array_pop p w = Some (Ok v, w1)
        ∧ notified w1 = notified w ++ [(d, Some ("index:" +:+ pretty n))]
        ∧ deps w1 = deps w.
Proof.
  intros Hp Ht Hd Hk Hlen Hn Hhl Hv Hvo Hdis Hact.
  pose proof (proxy_ne_raw _ _ _ _ _ Hp Ht) as Hpt.
  assert (Harr : is_array o = true) by (unfold is_array; by rewrite Hk).
  unfold array_pop.
  erewrite bind_ok by (by eapply length_of_plain). rewrite Hlen.
  erewrite bind_ok; cycle 1.
  { eapply proxy_get_plain; try done; unfold reflect_get, own_get; by rewrite Hv. }
  unfold reflect_get at 1, own_get at 1. rewrite Hv. cbn [default from_option id].
  (* the deletion of the last index *)
  set (o1 := with_elems (delete n (elems o)) (len o) o).
  set (wB := set_heap (<[t := Raw o1]> (heap w)) w).
  assert (Hdel : Delete_or_throw p (Idx n) w = Some (Ok tt, wB)).
  { unfold Delete_or_throw, proxy_delete.
    rewrite (bind_ok _ _ w true wB); [done|].
    rewrite (bind_ok _ _ w (t, d) w) by (unfold lift_opt; by rewrite Hp).
    rewrite (bind_ok _ _ w o w) by (unfold lift_opt; cbn [fst]; by rewrite Ht).
    cbn [is_marker reflect_delete fst snd].
    rewrite (bind_ok _ _ w tt wB) by done.
    rewrite (bind_ok _ _ wB dp wB) by (unfold dep_of, lift_opt; cbn; by rewrite Hd).
    rewrite Hdis, andb_false_r. done. }
  rewrite (bind_ok _ _ _ _ _ Hdel).
  assert (HpB : proxy_at p wB = Some (t, d)).
  { unfold proxy_at. subst wB. cbn [heap set_heap]. by rewrite lookup_insert_ne. }
  assert (HtB : raw_at t wB = Some o1).
  { unfold raw_at. subst wB. cbn [heap set_heap]. by rewrite lookup_insert_eq. }
  assert (Harr1 : is_array o1 = true) by done.
  assert (Hset : ∃ wD, proxy_set p (Name "length") (num_of_nat n) wB = Some (Ok true, wD)
                       ∧ notified wD = notified w ++ [(d, Some ("index:" +:+ pretty n))]
                       ∧ deps wD = deps w
                       ∧ proxy_at p wD = Some (t, d)
                       ∧ ∃ o2, raw_at t wD = Some o2 ∧ hidden o2 = hidden o).
  { unfold proxy_set.
    rewrite (bind_ok _ _ wB (t, d) wB) by (unfold lift_opt; by rewrite HpB).
    rewrite (bind_ok _ _ wB o1 wB) by (unfold lift_opt; cbn [fst]; by rewrite HtB).
    assert (Hmk : is_marker (Name "length") = false) by reflexivity. rewrite Hmk.
    assert (Hold : reflect_get o1 (Name "length") = VNum (Num (Z.of_nat (S n)))).
    { unfold reflect_get, own_get. rewrite Harr1. cbn. by rewrite Hlen. }
    rewrite Hold. unfold num_of_nat. cbn [strict_eq isNaN andb orb fst snd].
    rewrite (bool_decide_eq_false_2 (Z.of_nat (S n) = Z.of_nat n)) by lia.
    rewrite Harr1. rewrite (bool_decide_eq_true_2 (Name "length" = Name "length")) by done.
    cbn [andb len o1 with_elems].
    rewrite (bool_decide_eq_false_2 (Z.of_nat n = Z.of_nat (len o))) by lia.
    assert (Hidx : indices_from (Z.of_nat n) (len o) = [Z.of_nat n]).
    { unfold indices_from. rewrite Hlen.
      replace (Z.to_nat (Z.of_nat (S n) - Z.of_nat n)) with 1 by lia.
      cbn. f_equal. lia. }
    rewrite Hidx. cbn [for_each]. rewrite pretty_nat_Z.
    set (wC := mkWorld (heap wB) (deps wB) (depsMap wB) (activeFns wB)
                 (Dependency.notify (Some ("index:" +:+ pretty n)) dp (sched wB))
                 (console wB) (notified wB ++ [(d, Some ("index:" +:+ pretty n))])).
    cbn [orb].
    rewrite (bind_ok _ _ wB tt wC).
    2: { rewrite (bind_ok _ _ wB tt wC); [done|]. by apply notify_at. }
    unfold set_finish. cbn [is_object].
    rewrite (bind_ok _ _ wC (VNum (Num (Z.of_nat n))) wC) by done.
    rewrite (bind_ok _ _ wC o1 wC)
      by (unfold lift_opt; change (raw_at t wC) with (raw_at t wB); by rewrite HtB).
    assert (Hrs : reflect_set o1 (Name "length") (VNum (Num (Z.of_nat n)))
                  = Ok (true, with_elems (filter (λ kv, kv.1 < n) (elems o1)) n o1)).
    { unfold reflect_set. rewrite Harr1. cbn [to_number andb bool_decide].
      rewrite (bool_decide_eq_true_2 ("length" = "length")) by done. cbn [andb].
      replace ((0 <=? Z.of_nat n)%Z && (Z.of_nat n <? 2 ^ 32)%Z) with true.
      - by rewrite Nat2Z.id.
      - symmetry. apply andb_true_iff. split; [apply Z.leb_le|apply Z.ltb_lt]; lia. }
    rewrite Hrs.
    set (o2 := with_elems _ n o1).
    set (wD := set_heap (<[t := Raw o2]> (heap wC)) wC).
    rewrite (bind_ok _ _ wC tt wD) by done.
    rewrite (bind_ok _ _ wD dp wD) by (unfold dep_of, lift_opt; cbn; by rewrite Hd).
    rewrite Hdis. cbn [negb].
    rewrite (bind_ok _ _ wD tt wD) by done.
    exists wD. split_and!; try done.
    - unfold proxy_at. subst wD wC. cbn [heap set_heap]. rewrite lookup_insert_ne by done.
      exact HpB.
    - exists o2. split; [|done]. unfold raw_at. subst wD. cbn [heap set_heap].
      by rewrite lookup_insert_eq. }
  destruct Hset as (wD & Hset & Hnot & Hdeps & HpD & o2 & HtD & Hh2).
  exists wD. split; [|done].
  unfold Set_or_throw, proxy_Set.
  rewrite (bind_ok _ _ wB tt wD); [done|].
  rewrite (bind_ok _ _ wB true wD); [done|].
  rewrite (bind_ok _ _ _ _ _ Hset).
  rewrite (bind_ok _ _ wD (t, d) wD) by (unfold lift_opt; by rewrite HpD).
  rewrite (bind_ok _ _ wD o2 wD) by (unfold lift_opt; cbn [fst]; by rewrite HtD).
  by rewrite Hh2, Hhl.
Qed.

(** C6, on the code: [pop] called on an observable sequence that holds
    at least one element, the last one not a container, while no
    update function is active and the notifications of its node are
    enabled. The built-in algorithm deletes the last index [n] and
    writes the length [n] through the proxy. The [set] trap notifies
    the removed index in its branch for a shrinking length, which does
    not look at [_notificationDisabled]: a notification for one element
    goes out while the method runs, and the notification of the
    mutation follows it. *)
Theorem pop_notifies_removed_index p t d o dp n v w :
  proxy_at p w = Some (t, d) →
  raw_at t w = Some o →
  deps w !! d = Some dp →
  kind o = KArray →
  intercepted o = true →
  len o = S n →
  (Z.of_nat n < 2 ^ 32)%Z →
  hidden o !! "length" = None →
  own_get o (Name "pop") = None →
  elems o !! n = Some v →
  is_object v = false →
  Dependency.notificationDisabled dp = false →
  activeFns w = [] →
  ∃ w1, call_method p Pop [] w = Some (Ok v, w1)
        ∧ notified w1
          = notified w ++ [(d, Some ("index:" +:+ pretty n)); (d, Some "array:mutate")].
Proof.
  intros Hp Ht Hd Hk Hi Hlen Hn Hhl Hpop Hv Hvo Hdis Hact.
  pose proof (proxy_ne_raw _ _ _ _ _ Hp Ht) as Hpt.
  assert (Harr : is_array o = true) by (unfold is_array; by rewrite Hk).
  unfold call_method.
  rewrite (bind_ok _ _ w (t, d) w) by (unfold lift_opt; by rewrite Hp).
  rewrite (bind_ok _ _ w o w) by (unfold lift_opt; cbn [fst]; by rewrite Ht).
  rewrite Harr. cbn [negb fst snd].
  erewrite bind_ok; cycle 1.
  { eapply proxy_get_plain; try done. cbn [method_name]. unfold reflect_get. by rewrite Hpop. }
  rewrite Hi. cbn [negb].
  rewrite (bind_ok _ _ w dp w) by (unfold dep_of, lift_opt; by rewrite Hd).
  rewrite Hdis.
  erewrite bind_ok by (by apply update_dep_at).
  set (wA := set_deps _ w).
  assert (HpA : proxy_at p wA = Some (t, d)) by done.
  assert (HtA : raw_at t wA = Some o) by done.
  assert (HdA : deps wA !! d = Some (set_disabled true dp)).
  { subst wA. cbn [deps set_deps]. apply lookup_insert_eq. }
  assert (HaA : activeFns wA = []) by done.
  cbn [builtin].
  destruct (array_pop_disabled p t d o (set_disabled true dp) n v wA)
    as (wD & Hrun & Hnot & Hdeps); try done.
  rewrite (bind_ok _ _ _ _ _ Hrun).
  assert (HdD : deps wD !! d = Some (set_disabled true dp)) by (by rewrite Hdeps).
  unfold try_catch.
  rewrite (bind_ok _ _ wD tt wD) by done.
  erewrite bind_ok by (by apply update_dep_at).
  cbn [negb].
  erewrite bind_ok; cycle 1.
  { apply notify_at. cbn [deps set_deps]. apply lookup_insert_eq. }
  eexists. split; [reflexivity|].
  cbn [notified set_deps]. rewrite Hnot. by rewrite <- app_assoc.
Qed.

Lemma pop_notifies_removed_index_witness :
  ∃ w1, call_method 1 Pop [] wrapped_array_world = Some (Ok (VNum (Num 3)), w1)
        ∧ notified w1
          = notified wrapped_array_world
              ++ [(0, Some ("index:" +:+ pretty 2)); (0, Some "array:mutate")].
Proof.
  apply (pop_notifies_removed_index 1 0 0
           (mkObject KArray
              (list_to_map [(0, VNum (Num 1)); (1, VNum (Num 2)); (2, VNum (Num 3))]) 3 ∅
              (<["__isReactiveProxy" := VBool true]>
                 (<["__raw" := VObj 0]> (<["__isReactive" := VBool true]> ∅))) true)
           (set_proxy 1 Dependency.new) 2 (VNum (Num 3)) wrapped_array_world);
    by vm_compute.
Defined.

(** The sequence [[1, 2, 3]]: the notifications of [pop], in order. *)
Example pop_three_elements :
  outcome_and_notified (call_method 1 Pop [] wrapped_array_world)
  = Some (Ok (VNum (Num 3)), [(0, Some "index:2"); (0, Some "array:mutate")]).
Proof. by vm_compute. Qed.

(** [shift] does the same. *)
Example shift_notifies_removed_index :
  outcome_and_notified (call_method 1 Shift [] wrapped_array_world)
  = Some (Ok (VNum (Num 1)), [(0, Some "index:2"); (0, Some "array:mutate")]).
Proof. by vm_compute. Qed.

(** Appending five items in one call makes one notification. *)
Example push_five_notifies_once :
  outcome_and_notified
    (call_method 1 Push [VNum (Num 4); VNum (Num 5); VNum (Num 6); VNum (Num 7);
                         VNum (Num 8)] wrapped_array_world)
  = Some (Ok (VNum (Num 8)), [(0, Some "array:mutate")]).
Proof. by vm_compute. Qed.

(** A record appended to the sequence is stored wrapped: with the
    record [{}] as object 2 of the heap, the element 3 after
    [push({})] is a proxy of it. *)
Example push_wraps_new_record :
  let w := set_heap (<[2 := Raw (mkObject KObject ∅ 0 ∅ ∅ false)]>
                       (heap wrapped_array_world)) wrapped_array_world in
  match call_method 1 Push [VObj 2] w with
  | Some (Ok _, w1) =>
      match raw_at 0 w1 with
      | Some o =>
          match elems o !! 3 with
          | Some (VObj q) => proxy_at q w1 = Some (2, 1) ∧ notified w1 = [(0, Some "array:mutate")]
          | _ => False
          end
      | None => False
      end
  | _ => False
  end.
Proof. by vm_compute. Qed.

End ArrayMethods.

(** ** The count-based repetition *)

Section RForFacts.
Import Reactive RFor.

Lemma reset_flags_id n : Dom.node_id (reset_flags n) = Dom.node_id n.
Proof. by destruct n. Qed.

Lemma render_key_spec scope inst frag key w inst1 frag1 w1 :
  render_key scope (inst, frag) key w = Some (Ok (inst1, frag1), w1) →
  indexKey inst1 = indexKey inst
  ∧ itemTemplate inst1 = itemTemplate inst
  ∧ prevKeys inst1 = prevKeys inst
  ∧ children inst1 = children inst
  ∧ ∃ e1, nodeCache inst1 = <[key := e1]> (nodeCache inst)
          ∧ frag1 = frag ++ nodes e1
          ∧ ∀ e, nodeCache inst !! key = Some e →
              itemScope e1 = itemScope e
              ∧ map Dom.node_id (nodes e1) = map Dom.node_id (nodes e)
              ∧ assign (itemScope e) (to_prop (indexKey inst)) (num_of_nat key) w
                = Some (Ok tt, w1).
Proof.
  unfold render_key. destruct (nodeCache inst !! key) as [e|] eqn:He.
  - intros H. apply bind_Some in H as [(u & w2 & H1 & H2)|(x & H1 & [=])].
    destruct (processElement_unfold (nextNode inst) Dom.DOCUMENT_FRAGMENT_NODE ∅ false
                (map reset_flags (nodes e))) as (kids1 & ev3 & E & Hids); [done|].
    rewrite E in H2. cbn [Dom.childNodes] in H2. injection H2 as <- <- <-.
    cbn [indexKey itemTemplate prevKeys children nodeCache].
    split_and!; try done.
    exists (mkEntry kids1 (itemScope e)). split_and!; try done.
    intros e0 [= <-]. cbn [itemScope nodes]. split_and!; [done| |by destruct u].
    rewrite Hids, map_map. apply map_ext. intros n. apply reset_flags_id.
  - intros H. apply bind_Some in H as [(raw & w2 & H1 & H2)|(x & H1 & [=])].
    apply bind_Some in H2 as [(scope1 & w3 & H2 & H3)|(x & H2 & [=])].
    match type of H3 with
    | context [Dom.processElement (Dom.Node ?i ?t ?ex ?b ?k)] =>
        destruct (processElement_unfold i t ex b k) as (kids1 & ev3 & E & Hids); [done|]
    end.
    rewrite E in H3. cbn [Dom.childNodes] in H3. injection H3 as <- <- <-.
    cbn [indexKey itemTemplate prevKeys children nodeCache].
    split_and!; try done.
    exists (mkEntry kids1 scope1). split_and!; try done.
Qed.

Lemma for_each_ext {A} (f g : A → M unit) (xs : list A) :
  (∀ x, x ∈ xs → f x = g x) → for_each f xs = for_each g xs.
Proof.
  induction xs as [|x xs IH]; intros H; [done|].
  cbn [for_each]. rewrite (H x) by left. rewrite IH; [done|].
  intros y Hy. apply H. by right.
Qed.

Lemma render_keys_spec scope keys :
  NoDup keys →
  ∀ inst frag w inst1 frag1 w1,
  render_keys scope keys (inst, frag) w = Some (Ok (inst1, frag1), w1) →
  indexKey inst1 = indexKey inst
  ∧ prevKeys inst1 = prevKeys inst
  ∧ (∀ k, k ∉ keys → nodeCache inst1 !! k = nodeCache inst !! k)
  ∧ (∀ k, k ∈ keys → is_Some (nodeCache inst1 !! k))
  ∧ frag1 = frag ++ flat_map (nodes_at inst1) keys
  ∧ (∀ k e, k ∈ keys → nodeCache inst !! k = Some e →
       ∃ e1, nodeCache inst1 !! k = Some e1
             ∧ itemScope e1 = itemScope e
             ∧ map Dom.node_id (nodes e1) = map Dom.node_id (nodes e))
  ∧ ((∀ k, k ∈ keys → is_Some (nodeCache inst !! k)) →
     for_each (λ k, assign (itemScope (default (mkEntry [] VUndefined)
                                         (nodeCache inst !! k)))
                           (to_prop (indexKey inst)) (num_of_nat k)) keys w
     = Some (Ok tt, w1)).
Proof.
  induction keys as [|key keys IH]; intros Hnd inst frag w inst1 frag1 w1 H.
  - injection H as <- <- <-. split_and!; try done.
    + intros k Hk. by apply elem_of_nil in Hk.
    + by rewrite app_nil_r.
    + intros k e Hk. by apply elem_of_nil in Hk.
  - apply NoDup_cons in Hnd as [Hfresh Hnd].
    cbn [render_keys] in H.
    apply bind_Some in H as [([inst2 frag2] & w2 & H1 & H2)|(x & H1 & [=])].
    apply render_key_spec in H1 as (Ek & _ & Ep & _ & e2 & Ec & Ef & Hre).
    apply (IH Hnd) in H2 as (Ek1 & Ep1 & Hout & Hin & Ef1 & Hre1 & Hw1).
    assert (Hkey : nodeCache inst1 !! key = Some e2).
    { rewrite (Hout key Hfresh), Ec. apply lookup_insert_eq. }
    split_and!.
    + congruence.
    + congruence.
    + intros k Hk. apply not_elem_of_cons in Hk as [Hne Hk].
      rewrite (Hout k Hk), Ec. by rewrite lookup_insert_ne.
    + intros k Hk. apply elem_of_cons in Hk as [->|Hk]; [by rewrite Hkey|by apply Hin].
    + cbn [flat_map]. unfold nodes_at at 1. rewrite Hkey, Ef1, Ef.
      by rewrite <- app_assoc.
    + intros k e Hk He. apply elem_of_cons in Hk as [->|Hk].
      * exists e2. destruct (Hre e He) as (? & ? & _). done.
      * apply (Hre1 k e Hk). rewrite Ec. rewrite lookup_insert_ne; [done|].
        intros <-. done.
    + intros Hall. cbn [for_each].
      destruct (Hall key) as [e He]; [left|].
      destruct (Hre e He) as (_ & _ & Ha).
      rewrite (for_each_ext _
                 (λ k, assign (itemScope (default (mkEntry [] VUndefined)
                                            (nodeCache inst2 !! k)))
                              (to_prop (indexKey inst2)) (num_of_nat k)) keys).
      2: { intros k Hk. rewrite Ek, Ec, lookup_insert_ne; [done|].
           intros <-. done. }
      unfold bind at 1. rewrite He. cbn [default from_option id]. rewrite Ha.
      apply Hw1. intros k Hk. rewrite Ec, lookup_insert_ne; [apply Hall; by right|].
      intros <-. done.
Qed.

Lemma flat_map_ext_elem {A B} (f g : A → list B) (xs : list A) :
  (∀ x, x ∈ xs → f x = g x) → flat_map f xs = flat_map g xs.
Proof.
  induction xs as [|x xs IH]; intros H; [done|].
  cbn [flat_map]. rewrite (H x) by left. f_equal. apply IH.
  intros y Hy. apply H. by right.
Qed.

Lemma drop_stale_lookup prev curr (c : gmap nat entry) k :
  drop_stale prev curr c !! k
  = if bool_decide (k ∈ prev ∧ k ∉ curr) then None else c !! k.
Proof.
  unfold drop_stale. revert c. induction prev as [|p prev IH]; intros c.
  - cbn [foldl]. rewrite bool_decide_eq_false_2; [done|].
    intros [H _]. by apply elem_of_nil in H.
  - cbn [foldl]. rewrite IH. unfold JSSet.has.
    destruct (decide (k ∈ prev ∧ k ∉ curr)) as [Hin|Hout].
    + rewrite !bool_decide_eq_true_2; [done| |done].
      split; [right|]; tauto.
    + rewrite (bool_decide_eq_false_2 _ Hout).
      destruct (decide (p ∈ curr)) as [Hp|Hp].
      * rewrite (bool_decide_eq_true_2 _ Hp). cbn [negb].
        rewrite bool_decide_eq_false_2; [done|].
        intros [H1 H2]. apply elem_of_cons in H1 as [->|H1]; tauto.
      * rewrite (bool_decide_eq_false_2 _ Hp). cbn [negb].
        destruct (decide (k = p)) as [->|Hne].
        -- rewrite lookup_delete_eq. rewrite bool_decide_eq_true_2; [done|].
           split; [left|done].
        -- rewrite lookup_delete_ne by done.
           rewrite bool_decide_eq_false_2; [done|].
           intros [H1 H2]. apply elem_of_cons in H1 as [->|H1]; tauto.
Qed.

(** What a completed [update] has done. *)
Lemma render_reconciles n scope inst w m inst1 w1 :
  settled m inst →
  render n scope inst w = Some (Ok inst1, w1) →
  settled n inst1
  ∧ (∀ k, n < k → nodeCache inst1 !! k = None)
  ∧ (∀ k e, 1 ≤ k ≤ n → nodeCache inst !! k = Some e →
       ∃ e1, nodeCache inst1 !! k = Some e1
             ∧ itemScope e1 = itemScope e
             ∧ map Dom.node_id (nodes e1) = map Dom.node_id (nodes e))
  ∧ children inst1 = flat_map (nodes_at inst1) (seq 1 n)
  ∧ (n ≤ m →
     for_each (λ k, assign (itemScope (default (mkEntry [] VUndefined)
                                         (nodeCache inst !! k)))
                           (to_prop (indexKey inst)) (num_of_nat k)) (seq 1 n) w
     = Some (Ok tt, w1)).
Proof.
  intros [Hprev Hdom] H. unfold render in H.
  destruct (2 ^ 32 <=? Z.of_nat n)%Z; [done|].
  apply bind_Some in H as [([inst2 frag] & w2 & H1 & H2)|(x & H1 & [=])].
  apply ret_Some in H2 as [-> [= ->]].
  apply render_keys_spec in H1 as (Ek & Ep & Hout & Hin & Ef & Hre & Hw);
    [|apply NoDup_seq].
  cbn [indexKey prevKeys nodeCache] in Ek, Ep, Hout, Hre, Hw.
  assert (Hlook : ∀ k, drop_stale (prevKeys inst2) (seq 1 n) (nodeCache inst2) !! k
                       = if bool_decide (1 ≤ k ≤ n) then nodeCache inst2 !! k else None).
  { intros k. rewrite drop_stale_lookup, Ep, Hprev.
    destruct (decide (1 ≤ k ≤ n)) as [Hk|Hk].
    - rewrite (bool_decide_eq_true_2 _ Hk). rewrite bool_decide_eq_false_2; [done|].
      intros [_ Hn]. apply Hn. apply elem_of_seq. lia.
    - rewrite (bool_decide_eq_false_2 _ Hk).
      destruct (decide (k ∈ seq 1 m)) as [Hm|Hm].
      + rewrite bool_decide_eq_true_2; [done|]. split; [done|].
        rewrite elem_of_seq. lia.
      + rewrite bool_decide_eq_false_2 by tauto.
        rewrite Hout by (rewrite elem_of_seq; lia).
        apply eq_None_not_Some. rewrite Hdom. rewrite elem_of_seq in Hm. lia. }
  split_and!.
  - split; [done|]. cbn [nodeCache]. intros k. rewrite Hlook.
    destruct (decide (1 ≤ k ≤ n)) as [Hk|Hk].
    + rewrite (bool_decide_eq_true_2 _ Hk). split; [done|]. intros _.
      apply Hin. apply elem_of_seq. lia.
    + rewrite (bool_decide_eq_false_2 _ Hk). split; [|done]. by intros [? ?].
  - intros k Hk. cbn [nodeCache]. rewrite Hlook.
    rewrite bool_decide_eq_false_2; [done|lia].
  - intros k e Hk He. cbn [nodeCache]. rewrite Hlook.
    rewrite (bool_decide_eq_true_2 _ Hk). apply Hre; [|done]. apply elem_of_seq. lia.
  - cbn [children]. etrans; [exact Ef|]. cbn [app]. clear -Hlook.
    assert (Hsame : ∀ k, k ∈ seq 1 n →
              nodes_at inst2 k
              = nodes_at (mkInstance (indexKey inst2) (itemTemplate inst2)
                            (drop_stale (prevKeys inst2) (seq 1 n) (nodeCache inst2))
                            (seq 1 n) frag (nextNode inst2) (events inst2)) k).
    { intros k Hk. unfold nodes_at. cbn [nodeCache]. rewrite Hlook.
      rewrite bool_decide_eq_true_2; [done|]. apply elem_of_seq in Hk. lia. }
    by apply flat_map_ext_elem.
  - intros Hnm. apply Hw. intros k Hk. apply Hdom. apply elem_of_seq in Hk. lia.
Qed.

Lemma proxy_at_heap p w td : proxy_at p w = Some td → heap w !! p = Some (Proxy td.1 td.2).
Proof.
  unfold proxy_at. destruct (heap w !! p) as [[o|t d]|]; try done.
  by intros [= <-].
Qed.

Lemma strict_eq_num n : strict_eq (num_of_nat n) (num_of_nat n) = true.
Proof. unfold num_of_nat. cbn. by apply bool_decide_eq_true. Qed.

(** Writing to the index field the key it holds changes nothing. *)
Lemma assign_same_index p t d o k n w :
  proxy_at p w = Some (t, d) →
  raw_at t w = Some o →
  kind o = KObject →
  is_marker k = false →
  reflect_get o k = num_of_nat n →
  assign (VObj p) k (num_of_nat n) w = Some (Ok tt, w).
Proof.
  intros Hp Ht Hk Hm Hg. unfold assign.
  rewrite (bind_ok _ _ w (Proxy t d) w)
    by (unfold lift_opt; by rewrite (proxy_at_heap _ _ _ Hp)).
  assert (Hset : proxy_set p k (num_of_nat n) w = Some (Ok true, w)).
  { unfold proxy_set.
    rewrite (bind_ok _ _ w (t, d) w) by (unfold lift_opt; by rewrite Hp).
    rewrite (bind_ok _ _ w o w) by (unfold lift_opt; cbn [fst]; by rewrite Ht).
    by rewrite Hm, Hg, strict_eq_num. }
  rewrite (bind_ok _ _ w true w); [done|].
  unfold proxy_Set. rewrite (bind_ok _ _ _ _ _ Hset).
  rewrite (bind_ok _ _ w (t, d) w) by (unfold lift_opt; by rewrite Hp).
  rewrite (bind_ok _ _ w o w) by (unfold lift_opt; cbn [fst]; by rewrite Ht).
  destruct k as [i|s]; [done|].
  destruct (hidden o !! s) as [cur|] eqn:Hh; [|done].
  unfold reflect_get, own_get, is_array in Hg. rewrite Hk in Hg.
  rewrite bool_decide_eq_false_2 in Hg by done. cbn [andb] in Hg. rewrite Hh in Hg.
  cbn in Hg. subst cur. by rewrite bool_decide_eq_true_2.
Qed.

(** Reading a property that holds no container through the [get] trap
    returns it; at most the node gains a subscriber. *)
Lemma proxy_get_quiet p t d o k w :
  proxy_at p w = Some (t, d) →
  raw_at t w = Some o →
  is_Some (deps w !! d) →
  k ≠ Name "__proto__" →
  is_marker k = false →
  is_object (reflect_get o k) = false →
  ∃ w1, proxy_get p k w = Some (Ok (reflect_get o k), w1)
        ∧ heap w1 = heap w
        ∧ ∀ d', is_Some (deps w !! d') → is_Some (deps w1 !! d').
Proof.
  intros Hp Ht [dp Hd] Hk Hm Ho.
  unfold proxy_get.
  rewrite (bind_ok _ _ w (t, d) w) by (unfold lift_opt; by rewrite Hp).
  rewrite (bind_ok _ _ w o w) by (unfold lift_opt; cbn [fst]; by rewrite Ht).
  rewrite bool_decide_eq_false_2 by done. rewrite Hm.
  rewrite (bind_ok _ _ w (activeFns w) w) by done.
  destruct (last (activeFns w)) as [f|].
  - cbn [snd]. unfold subscribe. erewrite bind_ok by (by apply update_dep_at).
    unfold bind, gets, ret. rewrite Ho. cbn [andb].
    eexists. split_and!; [done|done|].
    intros d' Hd'. cbn [deps set_deps].
    destruct (decide (d = d')) as [->|Hne].
    + rewrite lookup_insert_eq. eauto.
    + by rewrite lookup_insert_ne.
  - unfold bind, gets, ret. rewrite Ho. cbn [andb]. eauto.
Qed.

Lemma same_heap_proxy_at p w w1 : heap w1 = heap w → proxy_at p w1 = proxy_at p w.
Proof. intros E. unfold proxy_at. by rewrite E. Qed.

Lemma same_heap_raw_at l w w1 : heap w1 = heap w → raw_at l w1 = raw_at l w.
Proof. intros E. unfold raw_at. by rewrite E. Qed.

Lemma put_prop_marker_field key x o s :
  is_marker key = false → s ∈ marker_names →
  fields (put_prop key x o) !! s = fields o !! s.
Proof.
  intros Hm Hs. destruct key as [i|s']; [done|].
  cbn [put_prop with_fields fields]. apply lookup_insert_ne. intros ->.
  cbn [is_marker] in Hm. by rewrite bool_decide_eq_true_2 in Hm.
Qed.

Lemma copy_props_plain ps ts ds os ks :
  ∀ o w,
  proxy_at ps w = Some (ts, ds) →
  raw_at ts w = Some os →
  is_Some (deps w !! ds) →
  (∀ key, key ∈ ks →
     key ≠ Name "__proto__" ∧ is_marker key = false
     ∧ is_object (reflect_get os key) = false) →
  ∃ o1 w1,
    copy_props (VObj ps) ks o w = Some (Ok o1, w1)
    ∧ heap w1 = heap w
    ∧ (∀ d', is_Some (deps w !! d') → is_Some (deps w1 !! d'))
    ∧ kind o1 = kind o
    ∧ hidden o1 = hidden o
    ∧ (∀ s, s ∈ marker_names → fields o !! s = None → fields o1 !! s = None).
Proof.
  induction ks as [|key ks IH]; intros o w Hp Ht Hd Hks.
  - exists o, w. by split_and!.
  - destruct (Hks key) as (Hk1 & Hk2 & Hk3); [left|].
    destruct (proxy_get_quiet ps ts ds os key w Hp Ht Hd Hk1 Hk2 Hk3)
      as (w1 & Hget & Hh & Hdd).
    cbn [copy_props]. unfold read.
    rewrite (bind_ok _ _ w (reflect_get os key) w1).
    2: { rewrite (bind_ok _ _ w (Proxy ts ds) w); [done|].
         unfold lift_opt. by rewrite (proxy_at_heap _ _ _ Hp). }
    destruct (IH (put_prop key (reflect_get os key) o) w1)
      as (o1 & w2 & Hc & Hh2 & Hdd2 & Hkind & Hhid & Hfl).
    + by rewrite (same_heap_proxy_at _ _ _ Hh).
    + by rewrite (same_heap_raw_at _ _ _ Hh).
    + by apply Hdd.
    + intros k' Hk'. apply Hks. by right.
    + exists o1, w2. split_and!.
      * done.
      * by rewrite Hh2.
      * intros d' Hd'. by apply Hdd2, Hdd.
      * rewrite Hkind. by destruct key.
      * rewrite Hhid. by destruct key.
      * intros s Hs Hnone. apply Hfl; [done|].
        by rewrite put_prop_marker_field.
Qed.

Lemma reflect_get_marker_none o s :
  kind o = KObject → hidden o !! s = None → fields o !! s = None →
  reflect_get o (Name s) = VUndefined.
Proof.
  intros Hk Hh Hf. unfold reflect_get, own_get, is_array. rewrite Hk.
  rewrite bool_decide_eq_false_2 by done. cbn [andb]. by rewrite Hh, Hf.
Qed.

Lemma reflect_get_put_prop k v o :
  kind o = KObject → hidden o = ∅ → reflect_get (put_prop k v o) k = v.
Proof.
  intros Hk Hh. destruct k as [i|s]; unfold reflect_get, own_get.
  - cbn [put_prop with_elems elems]. by rewrite lookup_insert_eq.
  - unfold is_array. cbn [put_prop with_fields kind hidden fields]. rewrite Hk.
    rewrite bool_decide_eq_false_2 by done. cbn [andb].
    rewrite Hh, lookup_empty. by rewrite lookup_insert_eq.
Qed.

Lemma reflect_get_define_hidden m x o k :
  kind o = KObject → k ≠ Name m →
  reflect_get (define_hidden m x o) k = reflect_get o k.
Proof.
  intros Hk Hne. destruct k as [i|s]; unfold reflect_get, own_get; [done|].
  unfold is_array. cbn [define_hidden kind hidden fields]. rewrite Hk.
  rewrite bool_decide_eq_false_2 by done. cbn [andb].
  assert (m ≠ s) by congruence.
  rewrite lookup_insert_ne by done. by rewrite lookup_delete_ne.
Qed.

Lemma is_marker_ne k s : is_marker k = false → s ∈ marker_names → k ≠ Name s.
Proof.
  intros Hm Hs ->. cbn [is_marker] in Hm. by rewrite bool_decide_eq_true_2 in Hm.
Qed.

(** The creation of an item scope from a plain scope: it completes,
    what the heap held it still holds, and the new scope is the proxy
    of a record whose index field holds the key. *)
Lemma create_scope_completes scope k n w :
  plain_scope scope w →
  is_marker k = false →
  ∃ raw w0 p t d o w1,
    spread_with scope k (num_of_nat n) w = Some (Ok raw, w0)
    ∧ reactive raw w0 = Some (Ok (VObj p), w1)
    ∧ (∀ l c, heap w !! l = Some c → heap w1 !! l = Some c)
    ∧ (∀ d', is_Some (deps w !! d') → is_Some (deps w1 !! d'))
    ∧ proxy_at p w1 = Some (t, d)
    ∧ raw_at t w1 = Some o
    ∧ kind o = KObject
    ∧ reflect_get o k = num_of_nat n.
Proof.
  intros (ps & ts & ds & os & -> & Hp & Ht & Hd & Hkeys) Hm.
  destruct (copy_props_plain ps ts ds os (enumerable_keys (VObj ps) w)
              (mkObject KObject ∅ 0 ∅ ∅ false) w Hp Ht Hd Hkeys)
    as (o1 & w1 & Hc & Hh & Hdd & Hkind & Hhid & Hfl).
  cbn [kind hidden fields] in Hkind, Hhid, Hfl.
  set (onew := put_prop k (num_of_nat n) o1).
  set (l := fresh (dom (heap w1))).
  set (w2 := set_heap (<[l := Raw onew]> (heap w1)) w1).
  assert (Hsp : spread_with (VObj ps) k (num_of_nat n) w = Some (Ok (VObj l), w2)).
  { unfold spread_with.
    rewrite (bind_ok _ _ w (enumerable_keys (VObj ps) w) w) by done.
    by rewrite (bind_ok _ _ _ _ _ Hc). }
  assert (Hknew : kind onew = KObject) by (subst onew; by destruct k).
  assert (Hhnew : hidden onew = ∅) by (subst onew; by destruct k).
  assert (Hmark : ∀ s, s ∈ marker_names → reflect_get onew (Name s) = VUndefined).
  { intros s Hs. apply reflect_get_marker_none; [done| |].
    - by rewrite Hhnew.
    - subst onew. rewrite put_prop_marker_field by done. apply Hfl; [done|].
      apply lookup_empty. }
  assert (Hl2 : raw_at l w2 = Some onew).
  { unfold raw_at. subst w2. cbn [heap set_heap]. by rewrite lookup_insert_eq. }
  pose proof (reactive_fresh_record l onew w2 Hl2 Hknew) as Hre.
  rewrite !Hmark in Hre by (unfold marker_names; repeat constructor).
  specialize (Hre eq_refl eq_refl). cbn zeta in Hre.
  set (p := fresh (dom (heap w2))) in *.
  set (d := fresh (dom (deps w2))) in *.
  assert (Hlfresh : heap w1 !! l = None).
  { apply not_elem_of_dom. apply is_fresh. }
  assert (Hpfresh : heap w2 !! p = None).
  { apply not_elem_of_dom. apply is_fresh. }
  assert (Hpl : p ≠ l).
  { intros E. rewrite E in Hpfresh. subst w2. cbn [heap set_heap] in Hpfresh.
    by rewrite lookup_insert_eq in Hpfresh. }
  eexists (VObj l), w2, p, l, d, _, _. split; [exact Hsp|]. split; [exact Hre|].
  cbn [heap deps]. split_and!.
  - intros l0 c Hl0. rewrite <- Hh in Hl0.
    assert (l0 ≠ l) by congruence.
    assert (l0 ≠ p).
    { intros ->. subst w2. cbn [heap set_heap] in Hpfresh.
      rewrite lookup_insert_ne in Hpfresh by done. congruence. }
    rewrite !lookup_insert_ne by done. subst w2. cbn [heap set_heap].
    by rewrite lookup_insert_ne.
  - intros d' Hd'. apply Hdd in Hd'.
    destruct (decide (d = d')) as [->|Hne].
    + rewrite lookup_insert_eq. eauto.
    + rewrite lookup_insert_ne by done. exact Hd'.
  - unfold proxy_at. cbn [heap]. rewrite lookup_insert_ne by done.
    by rewrite lookup_insert_eq.
  - unfold raw_at. cbn [heap]. by rewrite lookup_insert_eq.
  - done.
  - rewrite !reflect_get_define_hidden; try done.
    + subst onew. by apply reflect_get_put_prop.
    + apply is_marker_ne; [done|]. unfold marker_names. repeat constructor.
    + apply is_marker_ne; [done|]. unfold marker_names. repeat constructor.
    + apply is_marker_ne; [done|]. unfold marker_names. repeat constructor.
Qed.

Lemma plain_scope_mono scope w w1 :
  plain_scope scope w →
  (∀ l c, heap w !! l = Some c → heap w1 !! l = Some c) →
  (∀ d, is_Some (deps w !! d) → is_Some (deps w1 !! d)) →
  plain_scope scope w1.
Proof.
  intros (ps & ts & ds & os & -> & Hp & Ht & Hd & Hkeys) Hheap Hdeps.
  pose proof (Hheap _ _ (proxy_at_heap _ _ _ Hp)) as Hp1.
  pose proof (Hheap _ _ (raw_at_heap _ _ _ Ht)) as Ht1.
  cbn [fst snd] in Hp1.
  assert (Hp' : proxy_at ps w1 = Some (ts, ds)) by (unfold proxy_at; by rewrite Hp1).
  assert (Ht' : raw_at ts w1 = Some os) by (unfold raw_at; by rewrite Ht1).
  exists ps, ts, ds, os. split_and!; try done; [by apply Hdeps|].
  intros key Hkey. apply Hkeys. revert Hkey.
  unfold enumerable_keys. rewrite Hp1, (proxy_at_heap _ _ _ Hp). cbn [fst snd].
  by rewrite Ht', Ht.
Qed.

Lemma cache_scopes_ok_mono inst w w1 :
  cache_scopes_ok inst w →
  (∀ l c, heap w !! l = Some c → heap w1 !! l = Some c) →
  cache_scopes_ok inst w1.
Proof.
  intros Hc Hheap k e He.
  destruct (Hc k e He) as (p & t & d & o & Hs & Hp & Ht & Hk & Hg).
  exists p, t, d, o. split_and!; try done.
  - unfold proxy_at. by rewrite (Hheap _ _ (proxy_at_heap _ _ _ Hp)).
  - unfold raw_at. by rewrite (Hheap _ _ (raw_at_heap _ _ _ Ht)).
Qed.

Lemma render_key_completes scope inst frag key w :
  plain_scope scope w →
  cache_scopes_ok inst w →
  is_marker (to_prop (indexKey inst)) = false →
  ∃ inst1 frag1 w1,
    render_key scope (inst, frag) key w = Some (Ok (inst1, frag1), w1)
    ∧ plain_scope scope w1
    ∧ cache_scopes_ok inst1 w1
    ∧ indexKey inst1 = indexKey inst.
Proof.
  intros Hs Hc Hm. unfold render_key.
  destruct (nodeCache inst !! key) as [e|] eqn:He.
  - destruct (Hc key e He) as (p & t & d & o & Hsc & Hp & Ht & Hk & Hg).
    rewrite Hsc. erewrite bind_ok by (by eapply assign_same_index).
    destruct (Dom.processElement _) as [walked evs].
    eexists _, _, w. split; [reflexivity|]. split_and!; try done.
    intros k' e' He'. cbn [nodeCache indexKey] in *.
    destruct (decide (k' = key)) as [->|Hne].
    + rewrite lookup_insert_eq in He'. injection He' as <-. cbn [itemScope].
      exists p, t, d, o. by split_and!.
    + rewrite lookup_insert_ne in He' by done. by apply Hc.
  - destruct (create_scope_completes scope (to_prop (indexKey inst)) key w Hs Hm)
      as (raw & w0 & p & t & d & o & w1 & Hsp & Hre & Hheap & Hdeps & Hp & Ht & Hk & Hg).
    rewrite (bind_ok _ _ _ _ _ Hsp). rewrite (bind_ok _ _ _ _ _ Hre).
    destruct (Dom.processElement _) as [walked evs].
    eexists _, _, w1. split; [reflexivity|]. split_and!.
    + by eapply plain_scope_mono.
    + intros k' e' He'. cbn [nodeCache indexKey] in *.
      destruct (decide (k' = key)) as [->|Hne].
      * rewrite lookup_insert_eq in He'. injection He' as <-. cbn [itemScope].
        exists p, t, d, o. by split_and!.
      * rewrite lookup_insert_ne in He' by done.
        by apply (cache_scopes_ok_mono inst w w1 Hc Hheap).
    + done.
Qed.

Lemma render_keys_completes scope keys :
  ∀ inst frag w,
  plain_scope scope w →
  cache_scopes_ok inst w →
  is_marker (to_prop (indexKey inst)) = false →
  ∃ inst1 frag1 w1,
    render_keys scope keys (inst, frag) w = Some (Ok (inst1, frag1), w1)
    ∧ plain_scope scope w1
    ∧ cache_scopes_ok inst1 w1
    ∧ indexKey inst1 = indexKey inst.
Proof.
  induction keys as [|key keys IH]; intros inst frag w Hs Hc Hm.
  - exists inst, frag, w. by split_and!.
  - destruct (render_key_completes scope inst frag key w Hs Hc Hm)
      as (inst1 & frag1 & w1 & Hr & Hs1 & Hc1 & Hi1).
    destruct (IH inst1 frag1 w1 Hs1 Hc1) as (inst2 & frag2 & w2 & Hr2 & Hs2 & Hc2 & Hi2).
    { by rewrite Hi1. }
    exists inst2, frag2, w2. split_and!; try done; [|congruence].
    cbn [render_keys]. by rewrite (bind_ok _ _ _ _ _ Hr).
Qed.

(** From a plain scope the second part of [update] completes for
    every count below 2^32, and leaves a state from which the next one
    completes too. *)
Lemma render_completes n scope inst w :
  (Z.of_nat n < 2 ^ 32)%Z →
  plain_scope scope w →
  cache_scopes_ok inst w →
  is_marker (to_prop (indexKey inst)) = false →
  ∃ inst1 w1,
    render n scope inst w = Some (Ok inst1, w1)
    ∧ plain_scope scope w1
    ∧ cache_scopes_ok inst1 w1
    ∧ indexKey inst1 = indexKey inst.
Proof.
  intros Hn Hs Hc Hm. unfold render.
  destruct (2 ^ 32 <=? Z.of_nat n)%Z eqn:E; [apply Z.leb_le in E; lia|].
  match goal with
  | |- context [render_keys scope ?ks (?i0, ?f0)] =>
      destruct (render_keys_completes scope ks i0 f0 w Hs) as
        (inst1 & frag1 & w1 & Hr & Hs1 & Hc1 & Hi1)
  end.
  { intros k e He. by apply Hc. }
  { done. }
  rewrite (bind_ok _ _ _ _ _ Hr).
  eexists _, w1. split; [reflexivity|]. split_and!; try done.
  intros k e He. cbn [nodeCache indexKey] in *.
  rewrite drop_stale_lookup in He.
  destruct (bool_decide _); [done|].
  by apply Hc1.
Qed.

(** A count of 2^32 or more makes [Array.from] throw. *)
Lemma render_range_error n scope inst w :
  (2 ^ 32 ≤ Z.of_nat n)%Z →
  render n scope inst w = Some (Throw "RangeError: Invalid array length", w).
Proof.
  intros Hn. unfold render.
  destruct (2 ^ 32 <=? Z.of_nat n)%Z eqn:E; [done|]. apply Z.leb_gt in E. lia.
Qed.

(** Reading the bindings off a plain scope completes and leaves the
    objects as they are. *)
Lemma bindings_plain ps ts ds os ks :
  ∀ w,
  proxy_at ps w = Some (ts, ds) →
  raw_at ts w = Some os →
  is_Some (deps w !! ds) →
  (∀ key, key ∈ ks →
     key ≠ Name "__proto__" ∧ is_marker key = false
     ∧ is_object (reflect_get os key) = false) →
  ∃ b w1,
    bindings (VObj ps) ks w = Some (Ok b, w1)
    ∧ heap w1 = heap w
    ∧ (∀ d', is_Some (deps w !! d') → is_Some (deps w1 !! d')).
Proof.
  induction ks as [|key ks IH]; intros w Hp Ht Hd Hks.
  - exists [], w. by split_and!.
  - destruct (Hks key) as (Hk1 & Hk2 & Hk3); [left|].
    destruct (proxy_get_quiet ps ts ds os key w Hp Ht Hd Hk1 Hk2 Hk3)
      as (w1 & Hget & Hh & Hdd).
    cbn [bindings]. unfold read.
    rewrite (bind_ok _ _ w (reflect_get os key) w1).
    2: { rewrite (bind_ok _ _ w (Proxy ts ds) w); [done|].
         unfold lift_opt. by rewrite (proxy_at_heap _ _ _ Hp). }
    destruct (IH w1) as (b & w2 & Hb & Hh2 & Hdd2).
    + by rewrite (same_heap_proxy_at _ _ _ Hh).
    + by rewrite (same_heap_raw_at _ _ _ Hh).
    + by apply Hdd.
    + intros k' Hk'. apply Hks. by right.
    + rewrite (bind_ok _ _ _ _ _ Hb). eexists _, w2. split_and!.
      * reflexivity.
      * by rewrite Hh2.
      * intros d' Hd'. by apply Hdd2, Hdd.
Qed.

(** C7. The count is not 0 whenever the expression fails. The parser
    handles a failing evaluation itself and returns the text of the
    expression (index.js 158-161), so the handler of [update], which
    sets the count to 0 (index.js 534-537), is not reached, and
    [parseInt] reads the count off the text of the expression. Let the
    evaluation of the expression fail, let [parseInt] read [n] from its
    text, and let [update] find the keys [1..m] cached: [update]
    completes and leaves exactly the keys [1..n] cached, none above
    [n]; an entry that was cached under a key up to [n] keeps its item
    scope and its nodes, by identity; the child nodes of the element
    are the cached nodes of the keys [1..n] in order; and the parser
    has logged its warning. *)
Theorem rfor_failed_count_is_read_from_text run expr deps pw scope inst w m n :
  settled m inst →
  plain_scope scope w →
  cache_scopes_ok inst w →
  is_marker (to_prop (indexKey inst)) = false →
  (∀ b, ∃ e pw1,
     run b (ExpressionParser.strip (Str.trim expr)) pw = (Throw e, pw1)) →
  count_of (VStr (ExpressionParser.strip (Str.trim expr))) = Some n →
  (Z.of_nat n < 2 ^ 32)%Z →
  ∃ inst1 deps1 pw2 w1,
    update run expr deps pw scope inst w = Some (Ok (inst1, deps1, pw2), w1)
    ∧ settled n inst1
    ∧ (∀ k, n < k → nodeCache inst1 !! k = None)
    ∧ (∀ k e, 1 ≤ k ≤ n → nodeCache inst !! k = Some e →
         ∃ e1, nodeCache inst1 !! k = Some e1
               ∧ itemScope e1 = itemScope e
               ∧ map Dom.node_id (nodes e1) = map Dom.node_id (nodes e))
    ∧ children inst1 = flat_map (nodes_at inst1) (seq 1 n)
    ∧ last (ExpressionParser.console pw2)
      = Some (LogWarn "[_ExpressionParser]"
                (VStr (ExpressionParser.strip (Str.trim expr)))).
Proof.
  intros Hset Hs Hc Hm Hrun Hcount Hn.
  pose proof Hs as (ps & ts & ds & os & -> & Hp & Ht & Hd & Hkeys).
  destruct (bindings_plain ps ts ds os (enumerable_keys (VObj ps) w) w Hp Ht Hd Hkeys)
    as (b & w1 & Hb & Hh & Hdd).
  destruct (Hrun b) as (e & pw1 & Hr).
  assert (Hs1 : plain_scope (VObj ps) w1).
  { apply (plain_scope_mono _ w); [done| |done]. intros l c. by rewrite Hh. }
  assert (Hc1 : cache_scopes_ok inst w1).
  { apply (cache_scopes_ok_mono _ w); [done|]. intros l c. by rewrite Hh. }
  destruct (render_completes n (VObj ps) inst w1 Hn Hs1 Hc1 Hm)
    as (inst1 & w2 & Hrend & _ & _ & _).
  destruct (render_reconciles n (VObj ps) inst w1 m inst1 w2 Hset Hrend)
    as (R1 & R2 & R3 & R4 & _).
  exists inst1, (ExpressionParser.collect (Str.trim expr) deps),
    (ExpressionParser.warn (ExpressionParser.strip (Str.trim expr)) pw1), w2.
  split_and!; try done.
  - unfold update.
    rewrite (bind_ok _ _ w (enumerable_keys (VObj ps) w) w) by done.
    erewrite bind_ok.
    2: { unfold try_catch. rewrite (bind_ok _ _ _ _ _ Hb). reflexivity. }
    cbn [ExpressionParser.parse]. rewrite Hr.
    rewrite (bind_ok _ _ w1 n w1) by (unfold lift_opt; by rewrite Hcount).
    by rewrite (bind_ok _ _ _ _ _ Hrend).
  - cbn. by rewrite last_snoc.
Qed.

Lemma settled_init key tpl kids next : settled 0 (init key tpl kids next).
Proof.
  split; [done|]. intros k. cbn [init nodeCache]. rewrite lookup_empty.
  split; [by intros [? ?]|lia].
Qed.

(** The proxy of the empty record is a plain scope, and the handler's
    first state has no item scope yet. *)
Example plain_scope_wrapped_world :
  plain_scope (VObj 1) wrapped_world ∧ cache_scopes_ok rfor_start wrapped_world.
Proof.
  split.
  - exists 1, 0, 0. eexists. split_and!.
    + done.
    + by vm_compute.
    + by vm_compute.
    + eexists. by vm_compute.
    + intros key Hkey. vm_compute in Hkey. by apply elem_of_nil in Hkey.
  - intros k e He. cbn [rfor_start init nodeCache] in He.
    by rewrite lookup_empty in He.
Qed.

Lemma rfor_failed_count_is_read_from_text_witness :
  ∃ inst1 deps1 pw2 w1,
    update digits_eval "3x" [] quiet_world (VObj 1) rfor_start wrapped_world
    = Some (Ok (inst1, deps1, pw2), w1)
    ∧ settled 3 inst1
    ∧ (∀ k, 3 < k → nodeCache inst1 !! k = None)
    ∧ (∀ k e, 1 ≤ k ≤ 3 → nodeCache rfor_start !! k = Some e →
         ∃ e1, nodeCache inst1 !! k = Some e1
               ∧ itemScope e1 = itemScope e
               ∧ map Dom.node_id (nodes e1) = map Dom.node_id (nodes e))
    ∧ children inst1 = flat_map (nodes_at inst1) [1; 2; 3]
    ∧ last (ExpressionParser.console pw2)
      = Some (LogWarn "[_ExpressionParser]" (VStr "3x")).
Proof.
  apply (rfor_failed_count_is_read_from_text digits_eval "3x" [] quiet_world (VObj 1)
           rfor_start wrapped_world 0 3).
  - apply settled_init.
  - apply plain_scope_wrapped_world.
  - apply plain_scope_wrapped_world.
  - reflexivity.
  - intros b. eexists _, _. reflexivity.
  - reflexivity.
  - lia.
Defined.

(** The expressions [3x] and [3 + foo] fail and render three items
    each; [foo] fails and renders none. *)
Example rfor_failed_expressions :
  (λ expr, match update digits_eval expr [] quiet_world (VObj 1) rfor_start wrapped_world with
           | Some (Ok r, _) => Some (map Dom.node_id (children r.1.1))
           | _ => None
           end) <$> ["3x"; "3 + foo"; "foo"]
  = [Some [12; 16; 20]; Some [12; 16; 20]; Some []].
Proof. by vm_compute. Qed.

(** The count goes from 3 to 2: the key 3 and its nodes go, the nodes
    of the keys 1 and 2 are the same nodes as before, and so are their
    item scopes. *)
Example rfor_three_then_two :
  map Dom.node_id (children rfor_state1.1) = [12; 16; 20]
  ∧ map Dom.node_id (children rfor_state2.1) = [12; 16]
  ∧ (λ k, bool_decide (is_Some (nodeCache rfor_state1.1 !! k))) <$> [1; 2; 3; 4]
    = [true; true; true; false]
  ∧ (λ k, bool_decide (is_Some (nodeCache rfor_state2.1 !! k))) <$> [1; 2; 3; 4]
    = [true; true; false; false]
  ∧ itemScope <$> nodeCache rfor_state2.1 !! 1 = itemScope <$> nodeCache rfor_state1.1 !! 1
  ∧ itemScope <$> nodeCache rfor_state2.1 !! 2 = itemScope <$> nodeCache rfor_state1.1 !! 2.
Proof. by vm_compute. Qed.

End RForFacts.

(** * Further properties of the code *)

(** ** The scheduler *)

Lemma add_keeps_updating f s :
  BatchUpdater.isUpdating s = true →
  BatchUpdater.isUpdating (BatchUpdater.add f s) = true
  ∧ BatchUpdater.raf (BatchUpdater.add f s) = BatchUpdater.raf s
  ∧ BatchUpdater.errors (BatchUpdater.add f s) = BatchUpdater.errors s.
Proof.
  intros H. destruct f; simpl; try done. by rewrite H.
Qed.

Lemma run_body_flushing acts s :
  BatchUpdater.isUpdating s = true →
  let r := BatchUpdater.run_body acts s in
  BatchUpdater.isUpdating r.1 = true
  ∧ BatchUpdater.raf r.1 = BatchUpdater.raf s
  ∧ BatchUpdater.errors r.1 = BatchUpdater.errors s
  ∧ r.2 = Flush.throws acts
  ∧ (NoDup (BatchUpdater.queue s) → NoDup (BatchUpdater.queue r.1)).
Proof.
  revert s. induction acts as [|[g|] acts IH]; intros s Hs; simpl; [done| |done].
  destruct (add_keeps_updating g s Hs) as (H1 & H2 & H3).
  destruct (IH _ H1) as (I1 & I2 & I3 & I4 & I5).
  split_and!; [done|congruence|congruence|done|].
  intros Hq. apply I5. by apply add_queue_NoDup.
Qed.

Lemma call_flushing code s f :
  BatchUpdater.isUpdating s = true →
  let s1 := BatchUpdater.call code s f in
  BatchUpdater.isUpdating s1 = true
  ∧ BatchUpdater.raf s1 = BatchUpdater.raf s
  ∧ BatchUpdater.errors s1
    = BatchUpdater.errors s ++ (if Flush.throws (code f) then [f] else [])
  ∧ (NoDup (BatchUpdater.queue s) → NoDup (BatchUpdater.queue s1)).
Proof.
  intros Hs. unfold BatchUpdater.call.
  destruct (run_body_flushing (code f) s Hs) as (I1 & I2 & I3 & I4 & I5).
  destruct (BatchUpdater.run_body (code f) s) as [s1 threw]. cbn [fst snd] in *.
  subst threw. cbn. split_and!; try done.
  rewrite I3. destruct (Flush.throws (code f)); [done | by rewrite app_nil_r].
Qed.

Lemma foldl_call_flushing code fs s :
  BatchUpdater.isUpdating s = true →
  let s1 := foldl (BatchUpdater.call code) s fs in
  BatchUpdater.isUpdating s1 = true
  ∧ BatchUpdater.raf s1 = BatchUpdater.raf s
  ∧ BatchUpdater.errors s1
    = BatchUpdater.errors s ++ filter (λ f, Flush.throws (code f) = true) fs
  ∧ (NoDup (BatchUpdater.queue s) → NoDup (BatchUpdater.queue s1)).
Proof.
  revert s. induction fs as [|f fs IH]; intros s Hs.
  - cbn. by rewrite app_nil_r.
  - cbn [foldl].
    destruct (call_flushing code s f Hs) as (C1 & C2 & C3 & C4).
    destruct (IH _ C1) as (I1 & I2 & I3 & I4).
    split_and!; [done|congruence| |auto].
    rewrite I3, C3, filter_cons.
    destruct (Flush.throws (code f)); cbn.
    + rewrite decide_True by done. by rewrite <- app_assoc.
    + rewrite decide_False by done. by rewrite app_nil_r.
Qed.

Lemma add_keeps_one_frame f s :
  BatchUpdater.raf s = (if BatchUpdater.isUpdating s then 1 else 0) →
  BatchUpdater.raf (BatchUpdater.add f s)
  = (if BatchUpdater.isUpdating (BatchUpdater.add f s) then 1 else 0).
Proof.
  intros IH. destruct f; try done. simpl.
  destruct (BatchUpdater.isUpdating s) eqn:E; simpl; [by rewrite E | by rewrite IH].
Qed.

Lemma frame_keeps_one_frame code s :
  BatchUpdater.raf s = (if BatchUpdater.isUpdating s then 1 else 0) →
  0 < BatchUpdater.raf s →
  BatchUpdater.raf (BatchUpdater.frame code s)
  = (if BatchUpdater.isUpdating (BatchUpdater.frame code s) then 1 else 0)
  ∧ NoDup (BatchUpdater.queue (BatchUpdater.frame code s)).
Proof.
  intros IH Hraf. destruct (BatchUpdater.isUpdating s) eqn:E; [|lia].
  unfold BatchUpdater.frame, BatchUpdater.executeQueue. cbn.
  match goal with
  | |- context [foldl (BatchUpdater.call code) ?s0 ?q] =>
      destruct (foldl_call_flushing code q s0 E) as (F1 & F2 & F3 & F4)
  end.
  cbn in F2. split; [rewrite F2, IH; done|].
  apply F4. constructor.
Qed.

(** X1. In every state the scheduler can reach, at most one frame is
    requested, one is requested exactly while [_isUpdating] is set,
    and no function is queued twice. *)
Theorem scheduler_one_frame_pending code s :
  BatchUpdater.reachable code s →
  BatchUpdater.raf s = (if BatchUpdater.isUpdating s then 1 else 0)
  ∧ NoDup (BatchUpdater.queue s).
Proof.
  induction 1 as [|f s Hr [IH1 IH2]|s Hr [IH1 IH2] Hraf].
  - split; [done | constructor].
  - split; [by apply add_keeps_one_frame | by apply add_queue_NoDup].
  - by apply frame_keeps_one_frame.
Qed.

Lemma scheduler_one_frame_pending_witness :
  BatchUpdater.raf (BatchUpdater.add (VFun 1) (BatchUpdater.add (VFun 0) BatchUpdater.init))
  = 1.
Proof.
  exact (proj1 (scheduler_one_frame_pending chained_code _
                  (BatchUpdater.reach_add _ (VFun 1) _
                     (BatchUpdater.reach_add _ (VFun 0) _ (BatchUpdater.reach_init _))))).
Defined.

(** X2. A flush calls every function of its snapshot once, in the
    order of insertion, whether or not some of them throw; it logs
    exactly those that throw, requests no frame, and ends with
    [_isUpdating] reset. *)
Theorem flush_isolates_errors code s :
  BatchUpdater.isUpdating s = true →
  let s1 := BatchUpdater.executeQueue code s in
  BatchUpdater.ran s1 = BatchUpdater.ran s ++ BatchUpdater.queue s
  ∧ BatchUpdater.errors s1
    = BatchUpdater.errors s
      ++ filter (λ f, Flush.throws (code f) = true) (BatchUpdater.queue s)
  ∧ BatchUpdater.raf s1 = BatchUpdater.raf s
  ∧ BatchUpdater.isUpdating s1 = false.
Proof.
  intros Hs. unfold BatchUpdater.executeQueue. cbn.
  match goal with
  | |- context [foldl (BatchUpdater.call code) ?s0 ?q] =>
      destruct (foldl_call_flushing code q s0 Hs) as (F1 & F2 & F3 & F4);
      pose proof (foldl_call_ran code q s0) as F5
  end.
  cbn in *. by rewrite F5, F3, F2.
Qed.

Lemma flush_isolates_errors_witness :
  let s1 := BatchUpdater.executeQueue chained_code
              (BatchUpdater.add (VFun 1) (BatchUpdater.add (VFun 0) BatchUpdater.init)) in
  BatchUpdater.ran s1 = [0; 1] ∧ BatchUpdater.isUpdating s1 = false.
Proof.
  pose proof (flush_isolates_errors chained_code
                (BatchUpdater.add (VFun 1) (BatchUpdater.add (VFun 0) BatchUpdater.init))
                eq_refl) as (H1 & _ & _ & H4).
  split; [exact H1 | exact H4].
Defined.

Lemma jsset_add_idem {A} `{EqDecision A} (x : A) (s : list A) :
  JSSet.add x (JSSet.add x s) = JSSet.add x s.
Proof.
  apply jsset_add_present. apply jsset_elem_of_add. by left.
Qed.

(** X3. Adding a function that is already queued changes nothing: it
    is not queued a second time and no further frame is requested. *)
Theorem add_queued_is_noop f s :
  BatchUpdater.add f (BatchUpdater.add f s) = BatchUpdater.add f s.
Proof.
  destruct f as [| | | | |g|]; try done.
  destruct s as [q u r rn er]. unfold BatchUpdater.add. cbn.
  destruct u; cbn; by rewrite jsset_add_idem.
Qed.

(** ** The dependency node *)

(** X4. Subscribing a function again under the same variable leaves
    the node as it is. *)
Theorem subscribe_idempotent f v d :
  Dependency.subscribe f v (Dependency.subscribe f v d) = Dependency.subscribe f v d.
Proof.
  destruct f as [| | | | |g|]; try done.
  destruct d as [subs vs nd px]. unfold Dependency.subscribe.
  destruct v as [k|]; [destruct (Dependency.var_truthy (Some k))|]; cbn;
    rewrite ?jsset_add_idem; try done.
  rewrite lookup_insert_eq. cbn. by rewrite jsset_add_idem, insert_insert_eq.
Qed.

Lemma notify_fold_elem fs bu g :
  g ∈ BatchUpdater.queue (foldl (λ s f, BatchUpdater.add (VFun f) s) bu fs)
  ↔ g ∈ BatchUpdater.queue bu ∨ g ∈ fs.
Proof.
  revert bu. induction fs as [|f fs IH]; intros bu; cbn [foldl].
  - rewrite elem_of_nil. tauto.
  - rewrite IH, add_queue_fun, jsset_elem_of_add, elem_of_cons. tauto.
Qed.

(** X5. [notify(k)] for a non-empty key hands to the scheduler the
    functions subscribed under [k] and no other, if some function has
    subscribed under [k]; if none has, it falls back to all the
    subscribers of the node. *)
Theorem notify_key_or_everyone k d bu f :
  k ≠ String.EmptyString →
  f ∈ BatchUpdater.queue (Dependency.notify (Some k) d bu)
  ↔ f ∈ BatchUpdater.queue bu
    ∨ f ∈ default (Dependency.subscribers d) (Dependency.varSubs d !! k).
Proof.
  intros Hk. unfold Dependency.notify. rewrite notify_fold_elem.
  unfold Dependency.targets, Dependency.var_truthy.
  rewrite bool_decide_eq_false_2 by done. cbn [negb].
  by destruct (Dependency.varSubs d !! k).
Qed.

Lemma notify_key_or_everyone_witness :
  let d := Dependency.subscribe (VFun 2) (Some "b")
             (Dependency.subscribe (VFun 1) (Some "a") Dependency.new) in
  2 ∈ BatchUpdater.queue (Dependency.notify (Some "c") d BatchUpdater.init)
  ∧ ¬ 2 ∈ BatchUpdater.queue (Dependency.notify (Some "a") d BatchUpdater.init).
Proof.
  split.
  - apply (notify_key_or_everyone "c"); [done|]. right. vm_compute.
    repeat constructor.
  - intros H. apply (notify_key_or_everyone "a") in H; [|done].
    vm_compute in H. destruct H as [H|H].
    + by apply elem_of_nil in H.
    + apply list_elem_of_singleton in H. discriminate H.
Defined.

(** ** Boxed cells *)


Lemma notify_fold_frame fs bu :
  fs ≠ [] →
  let s := foldl (λ s f, BatchUpdater.add (VFun f) s) bu fs in
  BatchUpdater.isUpdating s = true
  ∧ BatchUpdater.raf s
    = (if BatchUpdater.isUpdating bu then BatchUpdater.raf bu else S (BatchUpdater.raf bu)).
Proof.
  intros Hfs. destruct fs as [|f fs]; [done|]. clear Hfs. cbn [foldl].
  assert (H1 : BatchUpdater.isUpdating (BatchUpdater.add (VFun f) bu) = true
               ∧ BatchUpdater.raf (BatchUpdater.add (VFun f) bu)
                 = (if BatchUpdater.isUpdating bu then BatchUpdater.raf bu
                    else S (BatchUpdater.raf bu))).
  { cbn. by destruct (BatchUpdater.isUpdating bu) eqn:E; cbn. }
  destruct H1 as [H1 H2]. rewrite <- H2.
  generalize dependent (BatchUpdater.add (VFun f) bu). clear.
  induction fs as [|g fs IH]; intros s Hs; [done|].
  cbn [foldl]. destruct (add_keeps_updating (VFun g) s Hs) as (A1 & A2 & _).
  rewrite <- A2. by apply IH.
Qed.



(** ** The evaluator's dependency collection *)

Lemma collect_fold rs :
  ∀ deps,
  NoDup deps →
  let out := foldl (λ ds r,
                      if negb (bool_decide (r = String.EmptyString))
                         && negb (JSSet.has r ExpressionParser.globals)
                         && negb (JSSet.has r ds)
                      then JSSet.add r ds else ds) deps rs in
  NoDup out
  ∧ deps `prefix_of` out
  ∧ ∀ x, x ∈ out ↔ x ∈ deps ∨ (x ∈ rs ∧ x ≠ String.EmptyString
                                ∧ x ∉ ExpressionParser.globals).
Proof.
  induction rs as [|r rs IH]; intros deps Hnd; cbn [foldl].
  - split_and!; [done|done|]. intros x. rewrite elem_of_nil. tauto.
  - match goal with
    | |- context [foldl _ (if ?c then ?a else ?b) rs] => set (ds1 := if c then a else b)
    end.
    assert (H1 : NoDup ds1 ∧ deps `prefix_of` ds1
                 ∧ ∀ x, x ∈ ds1 ↔ x ∈ deps ∨ (x = r ∧ x ≠ String.EmptyString
                                               ∧ x ∉ ExpressionParser.globals)).
    { subst ds1. unfold JSSet.has.
      destruct (decide (r = String.EmptyString)) as [E|E].
      { rewrite (bool_decide_eq_true_2 _ E). cbn. split_and!; [done|done|].
        intros x. split; [tauto|]. intros [?|(-> & ? & _)]; done. }
      rewrite (bool_decide_eq_false_2 _ E). cbn [negb andb].
      destruct (decide (r ∈ ExpressionParser.globals)) as [G|G].
      { rewrite (bool_decide_eq_true_2 _ G). cbn. split_and!; [done|done|].
        intros x. split; [tauto|]. intros [?|(-> & _ & ?)]; done. }
      rewrite (bool_decide_eq_false_2 _ G). cbn [negb andb].
      destruct (decide (r ∈ deps)) as [D|D].
      { rewrite (bool_decide_eq_true_2 _ D). cbn. split_and!; [done|done|].
        intros x. split; [tauto|]. intros [?|(-> & _ & _)]; done. }
      rewrite (bool_decide_eq_false_2 _ D). cbn [negb].
      split_and!.
      - by apply jsset_add_NoDup.
      - unfold JSSet.add. rewrite decide_False by done. by apply prefix_app_r.
      - intros x. rewrite jsset_elem_of_add. split.
        + intros [->|?]; [right|left]; done.
        + intros [?|(-> & _)]; [right|left]; done. }
    destruct H1 as (N1 & P1 & M1).
    destruct (IH ds1 N1) as (N2 & P2 & M2).
    split_and!; [done | by etrans |].
    intros x. rewrite M2, M1, elem_of_cons. tauto.
Qed.

(** X8. [parse] adds to the collector the root identifiers of the
    expression that are not empty, not global names and not collected
    yet, after the names it holds and each once; it removes none. *)
Theorem collect_adds_new_roots text deps :
  NoDup deps →
  NoDup (ExpressionParser.collect text deps)
  ∧ deps `prefix_of` ExpressionParser.collect text deps
  ∧ ∀ x, x ∈ ExpressionParser.collect text deps
         ↔ x ∈ deps ∨ (x ∈ ExpressionParser.roots text ∧ x ≠ String.EmptyString
                        ∧ x ∉ ExpressionParser.globals).
Proof.
  intros H. exact (collect_fold (ExpressionParser.roots text) deps H).
Qed.

Lemma collect_adds_new_roots_witness :
  NoDup (ExpressionParser.collect "user.name + window.title + n" ["n"]).
Proof.
  exact (proj1 (collect_adds_new_roots "user.name + window.title + n" ["n"]
                  ltac:(repeat constructor; set_solver))).
Defined.

Lemma scan_idents cs :
  ∀ st,
  match st with
  | ExpressionParser.Outside => True
  | ExpressionParser.InRoot acc | ExpressionParser.InTail acc =>
      ExpressionParser.valid_ident (Str.of_chars (rev acc)) = true
  end →
  ∀ r, r ∈ ExpressionParser.scan cs st → ExpressionParser.valid_ident r = true.
Proof.
  assert (Hext : ∀ acc c,
            ExpressionParser.valid_ident (Str.of_chars (rev acc)) = true →
            Str.is_word c = true →
            ExpressionParser.valid_ident (Str.of_chars (rev (c :: acc))) = true).
  { intros acc c. unfold ExpressionParser.valid_ident. rewrite !chars_of_chars.
    cbn [rev]. destruct (rev acc) as [|a k]; [done|]. cbn [app].
    rewrite forallb_app. cbn. intros H1 H2.
    apply andb_true_iff in H1 as [-> ->]. by rewrite H2. }
  induction cs as [|c k IH]; intros st Hst r Hr.
  - destruct st; cbn in Hr.
    + by apply elem_of_nil in Hr.
    + apply list_elem_of_singleton in Hr. by subst.
    + apply list_elem_of_singleton in Hr. by subst.
  - destruct st as [|acc|root]; cbn [ExpressionParser.scan] in Hr.
    + destruct (Str.is_ident_start c) eqn:E; [|by apply (IH ExpressionParser.Outside I)].
      apply (IH (ExpressionParser.InRoot [c])); [|done].
      unfold ExpressionParser.valid_ident. rewrite chars_of_chars. cbn. by rewrite E.
    + destruct (Str.is_word c) eqn:E.
      { apply (IH (ExpressionParser.InRoot (c :: acc))); [|done]. by apply Hext. }
      destruct (ExpressionParser.is_dot c && ExpressionParser.next_is_word k).
      { by apply (IH (ExpressionParser.InTail acc)). }
      apply elem_of_cons in Hr as [->|Hr]; [done|]. by apply (IH ExpressionParser.Outside I).
    + destruct (Str.is_word c) eqn:E.
      { by apply (IH (ExpressionParser.InTail root)). }
      destruct (ExpressionParser.is_dot c && ExpressionParser.next_is_word k).
      { by apply (IH (ExpressionParser.InTail root)). }
      apply elem_of_cons in Hr as [->|Hr]; [done|]. by apply (IH ExpressionParser.Outside I).
Qed.

(** X9. Every name [parse] takes for a dependency is an identifier: it
    starts with a letter, [_] or [$], goes on with word characters
    only, and so holds no dot and is not empty. *)
Theorem roots_are_identifiers text r :
  r ∈ ExpressionParser.roots text → ExpressionParser.valid_ident r = true.
Proof.
  apply (scan_idents (Str.chars text) ExpressionParser.Outside I).
Qed.

Lemma roots_are_identifiers_witness :
  ExpressionParser.valid_ident "user" = true.
Proof.
  apply (roots_are_identifiers "user.profile.name + 1").
  vm_compute. repeat constructor.
Defined.

(** ** Text without interpolation *)

Lemma search_none_head cs pos :
  Interpolation.search cs pos = None → ExpressionParser.match_here cs = None.
Proof.
  destruct cs as [|c k]; [done|]. cbn [Interpolation.search].
  by destruct (ExpressionParser.match_here (c :: k)).
Qed.

Lemma replace_all_no_match run display scope cs :
  ∀ pos deps w,
  Interpolation.search cs pos = None →
  ExpressionParser.replace_all run display cs 0 scope deps w = (cs, deps, w).
Proof.
  induction cs as [|c k IH]; intros pos deps w H; [done|].
  cbn [ExpressionParser.replace_all].
  pose proof (search_none_head _ _ H) as Hh. rewrite Hh.
  cbn [Interpolation.search] in H. rewrite Hh in H.
  by rewrite (IH _ deps w H).
Qed.

(** X10. A text in which the interpolation pattern matches nowhere is
    what [parseText] returns; the evaluator is not run, nothing is
    collected and nothing is logged. *)
Theorem parseText_plain_text run display s scope deps w :
  Interpolation.search (Str.chars s) 0 = None →
  ExpressionParser.parseText run display (VStr s) scope deps w = (VStr s, deps, w).
Proof.
  intros H. unfold ExpressionParser.parseText.
  rewrite (replace_all_no_match run display scope _ 0 deps w H).
  by rewrite of_chars_chars.
Qed.

Lemma parseText_plain_text_witness :
  ExpressionParser.parseText ExpressionParser.ident_eval (λ _, "?")
    (VStr "a { b }} {{}} c") [] [] quiet_world
  = (VStr "a { b }} {{}} c", [], quiet_world).
Proof.
  apply (parseText_plain_text ExpressionParser.ident_eval (λ _, "?") "a { b }} {{}} c").
  reflexivity.
Defined.

(** ** The attribute loop *)

Lemma match_here_other c k :
  (Str.code c =? 123) = false → ExpressionParser.match_here (c :: k) = None.
Proof.
  intros H. destruct k as [|c2 k]; [done|]. cbn. by rewrite H.
Qed.

Lemma search_found_anywhere cs :
  ∀ p q, is_Some (Interpolation.search cs p) → is_Some (Interpolation.search cs q).
Proof.
  induction cs as [|c k IH]; intros p q; cbn [Interpolation.search].
  - by destruct (ExpressionParser.match_here []).
  - destruct (ExpressionParser.match_here (c :: k)); [eauto | apply IH].
Qed.

Lemma search_found_suffix i :
  ∀ cs p, is_Some (Interpolation.search (drop i cs) p) →
          is_Some (Interpolation.search cs 0).
Proof.
  induction i as [|i IH]; intros cs p H.
  - rewrite drop_0 in H. by apply (search_found_anywhere cs p).
  - destruct cs as [|c k]; [by apply (search_found_anywhere [] p)|].
    cbn [drop] in H. apply IH in H. cbn [Interpolation.search].
    destruct (ExpressionParser.match_here (c :: k)); [eauto|].
    by apply (search_found_anywhere k 0).
Qed.

Lemma skip_to_suffix li cs :
  ∀ pos, ∃ i, (Interpolation.skip_to li cs pos).1 = drop i cs.
Proof.
  induction cs as [|c k IH]; intros pos; cbn [Interpolation.skip_to].
  - by exists 0.
  - destruct (pos <? li).
    + destruct (IH (pos + Str.units_of c)) as [i Hi]. exists (S i). exact Hi.
    + by exists 0.
Qed.

Lemma test_true_has_match s li e :
  Interpolation.test s li = (true, e) →
  is_Some (Interpolation.search (Str.chars s) 0).
Proof.
  unfold Interpolation.test. destruct (Str.length16 (Str.chars s) <? li); [done|].
  destruct (skip_to_suffix li (Str.chars s) 0) as [i Hi].
  destruct (Interpolation.skip_to li (Str.chars s) 0) as [rest pos]. cbn in Hi. subst rest.
  destruct (Interpolation.search (drop i (Str.chars s)) pos) as [[b e']|] eqn:E; [|done].
  intros _. apply (search_found_suffix i _ pos). by rewrite E.
Qed.

(** X11. The attribute loop of [_createUpdateFn] puts every attribute
    whose name is a registered directive in the directive list, in
    document order and whatever its value; the interpolation list holds
    only attributes that are no directive and whose value does hold an
    interpolation, in document order. *)
Theorem classify_partitions table attrs lastIndex :
  let m := (UpdateFn.classify table attrs lastIndex).1 in
  UpdateFn.directives m = filter (λ a, is_Some (table !! a.1)) attrs
  ∧ UpdateFn.interpolations m `sublist_of` filter (λ a, ¬ is_Some (table !! a.1)) attrs
  ∧ Forall (λ a, is_Some (Interpolation.search (Str.chars a.2) 0))
           (UpdateFn.interpolations m).
Proof.
  revert lastIndex. induction attrs as [|a r IH]; intros li.
  - cbn. split_and!; [done|done|constructor].
  - cbn [UpdateFn.classify]. rewrite !filter_cons.
    destruct (decide (is_Some (table !! a.1))) as [Hd|Hd].
    + rewrite (bool_decide_eq_true_2 _ Hd).
      destruct (IH li) as (I1 & I2 & I3).
      destruct (UpdateFn.classify table r li) as [m li']. cbn in *.
      rewrite decide_False by (intros Hn; by apply Hn).
      split_and!; [by rewrite I1 | done | done].
    + rewrite (bool_decide_eq_false_2 _ Hd).
      destruct (Interpolation.test a.2 li) as [found li1] eqn:Et.
      destruct (IH li1) as (I1 & I2 & I3).
      destruct (UpdateFn.classify table r li1) as [m li']. cbn in *.
      rewrite decide_True by done.
      split_and!; [done| |].
      * destruct found; [by apply sublist_skip | by apply sublist_cons].
      * destruct found; [|done]. constructor; [|done].
        by apply (test_true_has_match _ _ _ Et).
Qed.

Lemma units_of_brace c : Str.units_of c = 0 → (Str.code c =? 123) = false.
Proof.
  unfold Str.units_of. intros H. apply Nat.eqb_neq. intros E. rewrite E in H. done.
Qed.

Lemma search_no_units cs :
  ∀ pos, Str.length16 cs = 0 → Interpolation.search cs pos = None.
Proof.
  induction cs as [|c k IH]; intros pos H; [done|].
  cbn [Str.length16] in H. cbn [Interpolation.search].
  rewrite (match_here_other c k) by (apply units_of_brace; lia).
  apply IH. lia.
Qed.

Lemma skip_to_past_end li cs :
  ∀ pos, pos + Str.length16 cs ≤ li →
         Str.length16 (Interpolation.skip_to li cs pos).1 = 0.
Proof.
  induction cs as [|c k IH]; intros pos H; [done|].
  cbn [Str.length16] in H. cbn [Interpolation.skip_to].
  destruct (pos <? li) eqn:E.
  - apply IH. lia.
  - apply Nat.ltb_ge in E. cbn [fst Str.length16]. lia.
Qed.

Lemma test_past_end s e :
  Str.length16 (Str.chars s) ≤ e → Interpolation.test s e = (false, 0).
Proof.
  intros H. unfold Interpolation.test.
  destruct (Str.length16 (Str.chars s) <? e) eqn:E; [done|].
  pose proof (skip_to_past_end e (Str.chars s) 0 H) as Hz.
  destruct (Interpolation.skip_to e (Str.chars s) 0) as [rest pos]. cbn [fst] in Hz.
  by rewrite (search_no_units rest pos Hz).
Qed.

(** X12. The regex of the attribute loop is global and keeps its
    [lastIndex] from one [test] to the next: after an attribute whose
    value matched, with the match ending at index [e], a following
    attribute whose value is at most [e] code units long is not taken
    for an interpolation, whatever it holds. *)
Theorem classify_skips_after_match table a1 a2 rest e :
  table !! a1.1 = None →
  table !! a2.1 = None →
  Interpolation.test a1.2 0 = (true, e) →
  Str.length16 (Str.chars a2.2) ≤ e →
  UpdateFn.classify table (a1 :: a2 :: rest) 0
  = let '(m, li) := UpdateFn.classify table rest 0 in
    (UpdateFn.mkAttrMap (UpdateFn.directives m) (a1 :: UpdateFn.interpolations m), li).
Proof.
  intros H1 H2 Ht Hlen. cbn [UpdateFn.classify].
  rewrite H1, H2. rewrite !bool_decide_eq_false_2 by (by intros [? ?]).
  rewrite Ht, (test_past_end _ _ Hlen).
  by destruct (UpdateFn.classify table rest 0) as [m li].
Qed.

Lemma classify_skips_after_match_witness :
  UpdateFn.classify ∅ [("title", "{{a}}"); ("alt", "{{b}}")] 0
  = (UpdateFn.mkAttrMap [] [("title", "{{a}}")], 0).
Proof.
  apply (classify_skips_after_match ∅ ("title", "{{a}}") ("alt", "{{b}}") [] 5);
    [reflexivity | reflexivity | reflexivity | vm_compute; lia].
Defined.

(** ** r-if *)

Lemma last_cons_default {A} (ws : list A) :
  ∀ x w, List.last (x :: ws) w = List.last ws x.
Proof.
  induction ws as [|y r IH]; intros x w; [done|].
  change (List.last (x :: y :: r) w) with (List.last (y :: r) w).
  by rewrite !IH.
Qed.

Lemma rif_update_inv i v el c :
  RIf.ifInitialDisplay el = Some i →
  (RIf.isFirstRender c = false →
   ∃ b, RIf.prevShow c = Some b
        ∧ RIf.styleDisplay el = (if b then i else "none")) →
  let st := RIf.update v (el, c) in
  RIf.ifInitialDisplay st.1 = Some i
  ∧ RIf.isFirstRender st.2 = false
  ∧ RIf.prevShow st.2 = Some (truthy v)
  ∧ RIf.styleDisplay st.1 = (if truthy v then i else "none").
Proof.
  intros Hi Hc. unfold RIf.update.
  destruct (bool_decide (RIf.prevShow c = Some (truthy v))) eqn:E1;
    [destruct (RIf.isFirstRender c) eqn:E2|]; cbn [andb negb fst snd];
    cbn [RIf.ifInitialDisplay RIf.isFirstRender RIf.prevShow RIf.styleDisplay].
  - rewrite Hi. cbn. split_and!; try done.
  - apply bool_decide_eq_true in E1. destruct (Hc eq_refl) as (b & Hb & Hs).
    rewrite Hb in E1. injection E1 as ->. by rewrite Hb.
  - rewrite Hi. cbn. split_and!; try done.
Qed.

(** X13. After the handler has run on an element that was not
    processed, and after every later run of [update], the inline
    display of the element is ["none"] exactly when the condition is
    falsy; when it is truthy the display is the initial one, ["block"]
    standing in for an initial ["none"]. *)
Theorem rif_display_follows_condition scope el v vs :
  Reactive.is_object scope = true →
  truthy (RIf.ifProcessed el) = false →
  RIf.ifInitialDisplay el = None →
  ∃ el1 c1 i,
    RIf.handler scope v el = (el1, Some c1, [])
    ∧ RIf.ifInitialDisplay el1 = Some i
    ∧ i ≠ "none"
    ∧ let el2 := (RIf.updates vs (el1, c1)).1 in
      RIf.styleDisplay el2 = (if truthy (List.last vs v) then i else "none")
      ∧ (RIf.styleDisplay el2 = "none" ↔ truthy (List.last vs v) = false).
Proof.
  intros Hs Hp Hi. unfold RIf.handler. rewrite Hs, Hp, Hi. cbn [negb].
  set (i := if bool_decide (_ = "none") then "block" else _).
  assert (Hne : i ≠ "none").
  { subst i. case_bool_decide as E; [done|]. exact E. }
  set (el0 := RIf.mkElement (VBool true) (Some i) _ _).
  pose proof (rif_update_inv i v el0 (RIf.mkClosure None true) eq_refl) as H0.
  cbn [RIf.isFirstRender] in H0. specialize (H0 ltac:(done)).
  destruct (RIf.update v (el0, RIf.mkClosure None true)) as [el1 c1] eqn:E.
  cbn [fst snd] in H0. destruct H0 as (A1 & A2 & A3 & A4).
  exists el1, c1, i. split; [done|]. split; [done|]. split; [done|].
  assert (Hgen : ∀ ws w e c,
            RIf.ifInitialDisplay e = Some i → RIf.isFirstRender c = false →
            RIf.prevShow c = Some (truthy w) →
            RIf.styleDisplay e = (if truthy w then i else "none") →
            RIf.styleDisplay (RIf.updates ws (e, c)).1
            = (if truthy (List.last ws w) then i else "none")).
  { clear. induction ws as [|x ws IH]; intros w e c B1 B2 B3 B4; [done|].
    unfold RIf.updates. cbn [foldl].
    pose proof (rif_update_inv i x e c B1) as H.
    specialize (H ltac:(intros _; eauto)).
    destruct (RIf.update x (e, c)) as [e1 c1] eqn:E. cbn [fst snd] in H.
    destruct H as (C1 & C2 & C3 & C4).
    change (foldl _ (e1, c1) ws) with (RIf.updates ws (e1, c1)).
    rewrite (IH x e1 c1 C1 C2 C3 C4).
    by rewrite last_cons_default. }
  cbn zeta. rewrite (Hgen vs v el1 c1 A1 A2 A3 A4).
  split; [done|].
  destruct (truthy (List.last vs v)); split; done.
Qed.

Lemma rif_display_follows_condition_witness :
  RIf.styleDisplay
    (RIf.updates [VBool false; VNum (Num 3)]
       (RIf.mkElement (VBool true) (Some "block") "none" "none",
        RIf.mkClosure (Some false) false)).1
  = "block".
Proof.
  destruct (rif_display_follows_condition (VObj 0)
              (RIf.mkElement VUndefined None " none " "inline")
              VNull [VBool false; VNum (Num 3)] eq_refl eq_refl eq_refl)
    as (el1 & c1 & i & H1 & H2 & _ & H3 & _).
  vm_compute in H1. injection H1 as <- <-.
  vm_compute in H2. injection H2 as <-.
  exact H3.
Defined.

(** ** The traps of an observable container *)

Section TrapFacts.
Import Reactive.

Lemma same_value_test v : strict_eq v v || (isNaN v && isNaN v) = true.
Proof.
  destruct v as [| |b|[|z]|s|f|l]; cbn; try done; by rewrite bool_decide_eq_true_2.
Qed.

Lemma reflect_get_own o k old : own_get o k = Some old → reflect_get o k = old.
Proof. intros H. unfold reflect_get. by rewrite H. Qed.

(** X15. Writing to a property the target itself has the value it
    holds, NaN over NaN included, does nothing: nothing is stored,
    nobody is notified, the trap returns true. *)
Theorem proxy_set_same_value_noop p t d o k old w :
  proxy_at p w = Some (t, d) →
  raw_at t w = Some o →
  is_marker k = false →
  own_get o k = Some old →
  proxy_set p k old w = Some (Ok true, w).
Proof.
  intros Hp Ht Hm Hown. unfold proxy_set.
  rewrite (bind_ok _ _ w (t, d) w) by (unfold lift_opt; by rewrite Hp).
  rewrite (bind_ok _ _ w o w) by (unfold lift_opt; cbn [fst]; by rewrite Ht).
  by rewrite Hm, (reflect_get_own _ _ _ Hown), same_value_test.
Qed.

Lemma proxy_set_same_value_noop_witness :
  proxy_set 1 (Name "n") (VNum (Num 1)) counter_world = Some (Ok true, counter_world).
Proof.
  exact (proxy_set_same_value_noop 1 0 0 counter_object (Name "n") (VNum (Num 1))
           counter_world eq_refl eq_refl eq_refl eq_refl).
Defined.

Lemma reflect_set_writable o k v :
  Props.writable o k →
  Props.is_length o k = false →
  ∃ o1, reflect_set o k v = Ok (true, o1)
        ∧ reflect_get o1 k = v
        ∧ kind o1 = kind o
        ∧ hidden o1 = hidden o
        ∧ ∀ k', k' ≠ k → k' ≠ Name "length" → reflect_get o1 k' = reflect_get o k'.
Proof.
  intros Hw Hl. destruct k as [i|s]; cbn [reflect_set].
  - eexists. split; [done|]. split_and!; try done.
    + unfold reflect_get, own_get. cbn. by rewrite lookup_insert_eq.
    + intros [j|s'] Hne Hlen; unfold reflect_get, own_get; cbn [with_elems elems].
      * rewrite lookup_insert_ne; [done|congruence].
      * unfold is_array. cbn [kind with_elems hidden fields].
        destruct (bool_decide (kind o = KArray) && bool_decide (s' = "length")) eqn:E;
          [|done].
        apply andb_true_iff in E as [_ E]. apply bool_decide_eq_true in E. by subst.
  - unfold Props.is_length in Hl. cbn in Hw.
    assert (Hl' : is_array o && bool_decide (s = "length") = false).
    { destruct (is_array o); [|done]. cbn in *.
      apply bool_decide_eq_false in Hl. apply bool_decide_eq_false_2. congruence. }
    rewrite Hl', Hw. rewrite bool_decide_eq_false_2 by (by intros [? ?]).
    eexists. split; [done|]. split_and!; try done.
    + unfold reflect_get, own_get. unfold is_array in *. cbn [kind with_fields hidden fields].
      rewrite Hl', Hw. by rewrite lookup_insert_eq.
    + intros [j|s'] Hne _; unfold reflect_get, own_get; [done|].
      unfold is_array. cbn [kind with_fields hidden fields].
      rewrite lookup_insert_ne; [done|congruence].
Qed.

Lemma proxy_set_run p t d o dp k v o1 w :
  proxy_at p w = Some (t, d) →
  raw_at t w = Some o →
  deps w !! d = Some dp →
  is_marker k = false →
  reflect_set o k v = Ok (true, o1) →
  Props.is_length o k = false →
  is_object v = false →
  Props.changes (reflect_get o k) v = true →
  Dependency.notificationDisabled dp = false →
  proxy_set p k v w
  = Some (Ok true,
          mkWorld (<[t := Raw o1]> (heap w)) (deps w) (depsMap w) (activeFns w)
                  (Dependency.notify (var_of o k) dp (sched w)) (console w)
                  (notified w ++ [(d, var_of o k)])).
Proof.
  intros Hp Ht Hd Hm Hset Hl Hv Hc Hn.
  unfold proxy_set.
  rewrite (bind_ok _ _ w (t, d) w) by (unfold lift_opt; by rewrite Hp).
  rewrite (bind_ok _ _ w o w) by (unfold lift_opt; cbn [fst]; by rewrite Ht).
  rewrite Hm. unfold Props.changes in Hc. apply negb_true_iff in Hc. rewrite Hc.
  unfold Props.is_length in Hl. rewrite Hl. cbn [fst snd].
  unfold set_finish. rewrite Hv.
  rewrite (bind_ok _ _ w v w) by done.
  rewrite (bind_ok _ _ w o w) by (unfold lift_opt; by rewrite Ht).
  rewrite Hset.
  set (w2 := set_heap (<[t := Raw o1]> (heap w)) w).
  rewrite (bind_ok _ _ w tt w2) by done.
  rewrite (bind_ok _ _ w2 dp w2) by (unfold dep_of, lift_opt; cbn; by rewrite Hd).
  rewrite Hn. cbn [negb].
  erewrite bind_ok by (apply notify_at; exact Hd).
  reflexivity.
Qed.

(** X16. A write of another value that is no container, to a writable
    property the target itself has, other than the length of an array,
    with notifications enabled: the value is stored on the target and
    is what the property then holds, the other properties and the other
    objects are as before, and exactly one notification goes out, for
    the variable of the property. *)
Theorem proxy_set_stores_and_notifies p t d o dp k old v w :
  proxy_at p w = Some (t, d) →
  raw_at t w = Some o →
  deps w !! d = Some dp →
  is_marker k = false →
  own_get o k = Some old →
  Props.writable o k →
  Props.is_length o k = false →
  is_object v = false →
  Props.changes old v = true →
  Dependency.notificationDisabled dp = false →
  ∃ o1 w1,
    proxy_set p k v w = Some (Ok true, w1)
    ∧ raw_at t w1 = Some o1
    ∧ reflect_get o1 k = v
    ∧ (∀ k', k' ≠ k → k' ≠ Name "length" → reflect_get o1 k' = reflect_get o k')
    ∧ (∀ l, l ≠ t → heap w1 !! l = heap w !! l)
    ∧ notified w1 = notified w ++ [(d, var_of o k)]
    ∧ sched w1 = Dependency.notify (var_of o k) dp (sched w)
    ∧ deps w1 = deps w
    ∧ console w1 = console w.
Proof.
  intros Hp Ht Hd Hm Hown Hw Hl Hv Hc Hn.
  rewrite <- (reflect_get_own _ _ _ Hown) in Hc.
  destruct (reflect_set_writable o k v Hw Hl) as (o1 & Hset & Hget & _ & _ & Hother).
  exists o1. eexists. split; [by eapply proxy_set_run|].
  split_and!; try done.
  - unfold raw_at. cbn. by rewrite lookup_insert_eq.
  - intros l Hne. cbn. by rewrite lookup_insert_ne.
Qed.

Lemma proxy_set_stores_and_notifies_witness :
  ∃ o1 w1,
    proxy_set 1 (Name "n") (VNum (Num 7)) counter_world = Some (Ok true, w1)
    ∧ raw_at 0 w1 = Some o1
    ∧ reflect_get o1 (Name "n") = VNum (Num 7)
    ∧ notified w1 = [(0, Some "n")].
Proof.
  destruct (proxy_set_stores_and_notifies 1 0 0 counter_object
              (set_proxy 1 Dependency.new) (Name "n") (VNum (Num 1)) (VNum (Num 7))
              counter_world)
    as (o1 & w1 & H1 & H2 & H3 & _ & _ & H4 & _); try reflexivity.
  exists o1, w1. split_and!; assumption.
Defined.

Lemma reflect_delete_writable o k :
  Props.writable o k →
  Props.is_length o k = false →
  ∃ o1, reflect_delete o k = (true, o1)
        ∧ own_get o1 k = None
        ∧ ∀ k', k' ≠ k → own_get o1 k' = own_get o k'.
Proof.
  intros Hw Hl. destruct k as [i|s]; cbn [reflect_delete].
  - eexists. split; [done|]. split.
    + cbn. by rewrite lookup_delete_eq.
    + intros [j|s'] Hne; cbn [own_get with_elems elems]; [|done].
      rewrite lookup_delete_ne; [done|congruence].
  - unfold Props.is_length in Hl. cbn in Hw.
    assert (Hl' : is_array o && bool_decide (s = "length") = false).
    { destruct (is_array o); [|done]. cbn in *.
      apply bool_decide_eq_false in Hl. apply bool_decide_eq_false_2. congruence. }
    rewrite Hl', Hw. rewrite bool_decide_eq_false_2 by (by intros [? ?]).
    eexists. split; [done|]. split.
    + unfold own_get, is_array in *. cbn [kind with_fields hidden fields].
      rewrite Hl', Hw. by rewrite lookup_delete_eq.
    + intros [j|s'] Hne; unfold own_get; [done|].
      unfold is_array. cbn [kind with_fields hidden fields].
      rewrite lookup_delete_ne; [done|congruence].
Qed.

(** X17. Deleting a writable property the target itself has, other
    than the length of an array, with notifications enabled: the trap
    returns true, the property is gone, the others stay, the other
    objects are as before, and exactly one notification goes out, for
    the variable of the property. *)
Theorem proxy_delete_notifies_if_present p t d o dp k old w :
  proxy_at p w = Some (t, d) →
  raw_at t w = Some o →
  deps w !! d = Some dp →
  is_marker k = false →
  own_get o k = Some old →
  Props.writable o k →
  Props.is_length o k = false →
  Dependency.notificationDisabled dp = false →
  ∃ o1 w1,
    proxy_delete p k w = Some (Ok true, w1)
    ∧ raw_at t w1 = Some o1
    ∧ own_get o1 k = None
    ∧ (∀ k', k' ≠ k → own_get o1 k' = own_get o k')
    ∧ (∀ l, l ≠ t → heap w1 !! l = heap w !! l)
    ∧ notified w1 = notified w ++ [(d, var_of o k)].
Proof.
  intros Hp Ht Hd Hm Hown Hw Hl Hn.
  destruct (reflect_delete_writable o k Hw Hl) as (o1 & Hdel & Hgone & Hother).
  unfold proxy_delete.
  rewrite (bind_ok _ _ w (t, d) w) by (unfold lift_opt; by rewrite Hp).
  rewrite (bind_ok _ _ w o w) by (unfold lift_opt; cbn [fst]; by rewrite Ht).
  rewrite Hm, Hdel. cbn [fst snd].
  set (w2 := set_heap (<[t := Raw o1]> (heap w)) w).
  rewrite (bind_ok _ _ w tt w2) by done.
  rewrite (bind_ok _ _ w2 dp w2) by (unfold dep_of, lift_opt; cbn; by rewrite Hd).
  rewrite Hn. cbn [negb andb]. rewrite andb_true_r.
  assert (Hr : raw_at t w2 = Some o1).
  { unfold raw_at. cbn. by rewrite lookup_insert_eq. }
  assert (Hh : ∀ l, l ≠ t → heap w2 !! l = heap w !! l).
  { intros l Hne. cbn. by rewrite lookup_insert_ne. }
  assert (Hhas : reflect_has o k = true).
  { unfold reflect_has. rewrite Hown. by apply bool_decide_eq_true_2. }
  rewrite Hhas.
  erewrite bind_ok by (apply notify_at; exact Hd).
  exists o1. eexists. split; [reflexivity|]. split_and!; done.
Qed.

Lemma proxy_delete_notifies_if_present_witness :
  ∃ o1 w1,
    proxy_delete 1 (Name "n") counter_world = Some (Ok true, w1)
    ∧ raw_at 0 w1 = Some o1
    ∧ own_get o1 (Name "n") = None
    ∧ notified w1 = [(0, Some "n")].
Proof.
  destruct (proxy_delete_notifies_if_present 1 0 0 counter_object
              (set_proxy 1 Dependency.new) (Name "n") (VNum (Num 1)) counter_world)
    as (o1 & w1 & H1 & H2 & H3 & _ & _ & H4); try reflexivity.
  exists o1, w1. split_and!; assumption.
Defined.

Lemma for_each_notify_at {A} d dp (f : A → Dependency.variable) xs :
  ∀ w, deps w !! d = Some dp →
  ∃ w1, for_each (λ x, notify d (f x)) xs w = Some (Ok tt, w1)
        ∧ heap w1 = heap w ∧ deps w1 = deps w ∧ console w1 = console w
        ∧ notified w1 = notified w ++ map (λ x, (d, f x)) xs.
Proof.
  induction xs as [|x xs IH]; intros w Hd.
  - exists w. cbn. split_and!; try done. by rewrite app_nil_r.
  - cbn [for_each]. erewrite bind_ok by (apply notify_at; exact Hd).
    match goal with
    | |- context [for_each _ xs ?w2] => destruct (IH w2 Hd) as (w1 & E & H1 & H2 & H3 & H4)
    end.
    exists w1. split; [exact E|]. split_and!; try done.
    rewrite H4. cbn. by rewrite <- app_assoc.
Qed.

(** X18. Writing a smaller length to an array through the proxy cuts
    the array to that length and notifies, in order, the index of
    every element cut off and then the length, the former whether or
    not the notifications of the node are disabled. *)
Theorem proxy_set_length_truncates p t d o dp n w :
  proxy_at p w = Some (t, d) →
  raw_at t w = Some o →
  deps w !! d = Some dp →
  kind o = KArray →
  hidden o !! "length" = None →
  n < len o →
  (Z.of_nat (len o) < 2 ^ 32)%Z →
  ∃ w1,
    proxy_set p (Name "length") (num_of_nat n) w = Some (Ok true, w1)
    ∧ raw_at t w1 = Some (with_elems (filter (λ kv, kv.1 < n) (elems o)) n o)
    ∧ notified w1
      = notified w
        ++ map (λ i, (d, Some ("index:" +:+ pretty i))) (seq n (len o - n))
        ++ (if Dependency.notificationDisabled dp then [] else [(d, Some "length")]).
Proof.
  intros Hp Ht Hd Hk Hh Hlt Hmax.
  assert (Hlen : reflect_get o (Name "length") = VNum (Num (Z.of_nat (len o)))).
  { unfold reflect_get, own_get, is_array. by rewrite Hk. }
  unfold proxy_set.
  rewrite (bind_ok _ _ w (t, d) w) by (unfold lift_opt; by rewrite Hp).
  rewrite (bind_ok _ _ w o w) by (unfold lift_opt; cbn [fst]; by rewrite Ht).
  replace (is_marker (Name "length")) with false by reflexivity.
  rewrite Hlen. unfold num_of_nat. cbn [strict_eq isNaN andb orb].
  rewrite bool_decide_eq_false_2 by lia. cbn [orb].
  unfold is_array. rewrite Hk. rewrite !bool_decide_eq_true_2 by done. cbn [andb].
  rewrite bool_decide_eq_false_2 by lia. cbn [fst snd].
  destruct (for_each_notify_at d dp (λ i : Z, Some ("index:" +:+ pretty i))
              (indices_from (Z.of_nat n) (len o)) w Hd)
    as (w2 & E2 & H2h & H2d & H2c & H2n).
  cbn beta in H2n.
  rewrite (bind_ok _ _ w tt w2) by exact E2.
  unfold set_finish. cbn [is_object].
  rewrite (bind_ok _ _ w2 (VNum (Num (Z.of_nat n))) w2) by done.
  rewrite (bind_ok _ _ w2 o w2)
    by (unfold lift_opt; by rewrite (same_heap_raw_at _ _ _ H2h), Ht).
  cbn [reflect_set]. unfold is_array. rewrite Hk.
  rewrite !bool_decide_eq_true_2 by done. cbn [andb to_number].
  assert (Hrange : ((0 <=? Z.of_nat n)%Z && (Z.of_nat n <? 2 ^ 32)%Z) = true).
  { apply andb_true_iff. split; [apply Z.leb_le | apply Z.ltb_lt]; lia. }
  rewrite Hrange, Nat2Z.id.
  set (o1 := with_elems _ n o).
  set (w3 := set_heap (<[t := Raw o1]> (heap w2)) w2).
  rewrite (bind_ok _ _ w2 tt w3) by done.
  rewrite (bind_ok _ _ w3 dp w3)
    by (unfold dep_of, lift_opt; cbn; by rewrite H2d, Hd).
  assert (Hidx : map (λ x : Z, (d, Some ("index:" +:+ pretty x)))
                     (indices_from (Z.of_nat n) (len o))
                 = map (λ i : nat, (d, Some ("index:" +:+ pretty i))) (seq n (len o - n))).
  { unfold indices_from. rewrite map_map.
    replace (Z.to_nat (Z.of_nat (len o) - Z.of_nat n)) with (len o - n) by lia.
    assert (Hs : seq n (len o - n) = map (Nat.add n) (seq 0 (len o - n))).
    { change (map (Nat.add n)) with (fmap (M:=list) (Nat.add n)).
      rewrite fmap_add_seq. f_equal. lia. }
    rewrite Hs, map_map. apply map_ext. intros i. cbn.
    by rewrite <- Nat2Z.inj_add, pretty_nat_Z. }
  assert (Hr : raw_at t w3 = Some o1).
  { unfold raw_at. cbn. by rewrite lookup_insert_eq. }
  assert (Hv : var_of o (Name "length") = Some "length").
  { unfold var_of, is_array. rewrite Hk. by rewrite bool_decide_eq_true_2. }
  destruct (Dependency.notificationDisabled dp); cbn [negb].
  - rewrite (bind_ok _ _ w3 tt w3) by done.
    exists w3. split; [reflexivity|]. split; [done|].
    change (notified w3) with (notified w2). rewrite H2n, app_nil_r.
    f_equal. exact Hidx.
  - erewrite bind_ok by (apply notify_at; cbn; by rewrite H2d).
    eexists. split; [reflexivity|]. split; [done|].
    cbn [notified]. change (notified w3) with (notified w2).
    rewrite H2n, Hv, <- app_assoc. f_equal. f_equal. exact Hidx.
Qed.

Lemma proxy_set_length_truncates_witness :
  ∃ w1,
    proxy_set 1 (Name "length") (num_of_nat 1) numbers_world = Some (Ok true, w1)
    ∧ notified w1 = [(0, Some "index:1"); (0, Some "index:2"); (0, Some "length")].
Proof.
  destruct (proxy_set_length_truncates 1 0 0 numbers_object
              (set_proxy 1 Dependency.new) 1 numbers_world
              eq_refl eq_refl eq_refl eq_refl eq_refl)
    as (w1 & H1 & _ & H3); [cbn; lia | reflexivity |].
  exists w1. split; [exact H1 | exact H3].
Defined.

Lemma subscribe_in_targets f v d :
  f ∈ Dependency.targets v (Dependency.subscribe (VFun f) v d).
Proof.
  assert (Hs : ∀ s, f ∈ JSSet.add f s) by (intros s; apply jsset_elem_of_add; by left).
  unfold Dependency.targets, Dependency.subscribe.
  destruct v as [key|]; [|apply Hs].
  destruct (Dependency.var_truthy (Some key)); [|apply Hs].
  cbn. rewrite lookup_insert_eq. apply Hs.
Qed.

(** X19. A function that reads a property the target itself has
    through the proxy, while it is the innermost active function, is
    queued by the next write of another value to that property; the
    write runs nothing itself. *)
Theorem proxy_reader_is_notified p t d o dp k old f fs v w :
  proxy_at p w = Some (t, d) →
  raw_at t w = Some o →
  deps w !! d = Some dp →
  k ≠ Name "__proto__" →
  is_marker k = false →
  own_get o k = Some old →
  Props.writable o k →
  Props.is_length o k = false →
  is_object old = false →
  is_object v = false →
  Props.changes old v = true →
  Dependency.notificationDisabled dp = false →
  activeFns w = fs ++ [f] →
  ∃ w1 w2,
    proxy_get p k w = Some (Ok old, w1)
    ∧ proxy_set p k v w1 = Some (Ok true, w2)
    ∧ f ∈ BatchUpdater.queue (sched w2)
    ∧ BatchUpdater.ran (sched w2) = BatchUpdater.ran (sched w)
    ∧ notified w2 = notified w ++ [(d, var_of o k)].
Proof.
  intros Hp Ht Hd Hk Hm Hown Hw Hl Ho Hv Hc Hn Ha.
  rewrite <- (reflect_get_own _ _ _ Hown) in Ho, Hc.
  rewrite <- (reflect_get_own _ _ _ Hown).
  destruct (reflect_set_writable o k v Hw Hl) as (o1 & Hset & _).
  set (dp1 := Dependency.subscribe (VFun f) (var_of o k) dp).
  set (w1 := set_deps (<[d := dp1]> (deps w)) w).
  assert (Hget : proxy_get p k w = Some (Ok (reflect_get o k), w1)).
  { unfold proxy_get.
    rewrite (bind_ok _ _ w (t, d) w) by (unfold lift_opt; by rewrite Hp).
    rewrite (bind_ok _ _ w o w) by (unfold lift_opt; cbn [fst]; by rewrite Ht).
    rewrite bool_decide_eq_false_2 by done. rewrite Hm.
    rewrite (bind_ok _ _ w (fs ++ [f]) w) by (unfold gets; by rewrite Ha).
    rewrite last_snoc. cbn [snd].
    rewrite (bind_ok _ _ w tt w1) by (by apply update_dep_at).
    erewrite bind_ok by reflexivity.
    by rewrite Ho. }
  assert (Hn1 : Dependency.notificationDisabled dp1 = false).
  { subst dp1. unfold Dependency.subscribe.
    destruct (var_of o k) as [key|]; [destruct (Dependency.var_truthy (Some key))|];
      exact Hn. }
  exists w1. eexists. split; [exact Hget|]. split.
  - eapply (proxy_set_run p t d o dp1 k v o1 w1); try done.
    cbn. by rewrite lookup_insert_eq.
  - cbn [sched notified]. split_and!; [| |done].
    + unfold Dependency.notify. apply notify_fold_enqueues. apply subscribe_in_targets.
    + unfold Dependency.notify. apply notify_fold_ran.
Qed.

Lemma proxy_reader_is_notified_witness :
  ∃ w1 w2,
    proxy_get 1 (Name "n")
      (mkWorld (heap counter_world) (deps counter_world) (depsMap counter_world)
               [8; 9] BatchUpdater.init [] [])
    = Some (Ok (VNum (Num 1)), w1)
    ∧ proxy_set 1 (Name "n") (VNum (Num 2)) w1 = Some (Ok true, w2)
    ∧ 9 ∈ BatchUpdater.queue (sched w2).
Proof.
  destruct (proxy_reader_is_notified 1 0 0 counter_object (set_proxy 1 Dependency.new)
              (Name "n") (VNum (Num 1)) 9 [8] (VNum (Num 2))
              (mkWorld (heap counter_world) (deps counter_world) (depsMap counter_world)
                       [8; 9] BatchUpdater.init [] []))
    as (w1 & w2 & H1 & H2 & H3 & _); try reflexivity; [done|].
  exists w1, w2. split_and!; assumption.
Defined.

End TrapFacts.

(** ** Wrapping and the properties of the target *)

Section WrappingFacts.
Import Reactive.

(** X20. Reading through the proxy a property that holds a record
    not yet wrapped wraps the record and returns its new proxy, but
    leaves the record itself in the property; the record is marked from
    then on, so a second read of the same property returns the record,
    not its proxy. *)
Theorem proxy_get_nested_record_twice p t d o s l2 o2 w :
  proxy_at p w = Some (t, d) →
  raw_at t w = Some o →
  s ≠ "__proto__" →
  is_marker (Name s) = false →
  reflect_get o (Name s) = VObj l2 →
  l2 ≠ t →
  raw_at l2 w = Some o2 →
  kind o2 = KObject →
  truthy (reflect_get o2 (Name "__isReactiveProxy")) = false →
  truthy (reflect_get o2 (Name "__isReactive")) = false →
  activeFns w = [] →
  ∃ p2 d2 w1,
    proxy_get p (Name s) w = Some (Ok (VObj p2), w1)
    ∧ proxy_at p2 w1 = Some (l2, d2)
    ∧ p2 ≠ l2
    ∧ raw_at t w1 = Some o
    ∧ proxy_get p (Name s) w1 = Some (Ok (VObj l2), w1).
Proof.
  intros Hp Ht Hs Hm Hv Hne Ht2 Hk2 Hpx Hmk Ha.
  pose proof (reactive_fresh_record l2 o2 w Ht2 Hk2 Hpx Hmk) as Hwrap.
  cbn zeta in Hwrap.
  set (p2 := fresh (dom (heap w))) in *.
  set (d2 := fresh (dom (deps w))) in *.
  set (o3 := define_hidden "__isReactiveProxy" _ _) in *.
  set (w1 := mkWorld _ _ _ _ _ _ _) in Hwrap.
  assert (Hfresh : ∀ l c, heap w !! l = Some c → p2 ≠ l).
  { intros l c Hl E. apply (is_fresh (dom (heap w))). fold p2. rewrite E.
    apply elem_of_dom. eauto. }
  pose proof (raw_at_heap _ _ _ Ht) as Hth.
  pose proof (raw_at_heap _ _ _ Ht2) as Ht2h.
  pose proof (proxy_at_heap _ _ _ Hp) as Hph. cbn [fst snd] in Hph.
  assert (Hpl2 : p ≠ l2) by (intros ->; congruence).
  assert (Hm1 : truthy (read_marker "__isReactive" (VObj l2) w) = false).
  { unfold read_marker. by rewrite Ht2h. }
  exists p2, d2, w1. split_and!.
  - unfold proxy_get.
    rewrite (bind_ok _ _ w (t, d) w) by (unfold lift_opt; by rewrite Hp).
    rewrite (bind_ok _ _ w o w) by (unfold lift_opt; cbn [fst]; by rewrite Ht).
    rewrite bool_decide_eq_false_2 by congruence. rewrite Hm.
    rewrite (bind_ok _ _ w [] w) by (unfold gets; by rewrite Ha).
    cbn [last]. rewrite (bind_ok _ _ w tt w) by done.
    rewrite Hv.
    erewrite bind_ok by reflexivity.
    cbn [is_object]. rewrite Hm1. cbn [negb andb]. exact Hwrap.
  - unfold proxy_at. subst w1. cbn [heap].
    rewrite lookup_insert_ne by (by apply not_eq_sym, (Hfresh _ _ Ht2h)).
    by rewrite lookup_insert_eq.
  - by apply (Hfresh _ _ Ht2h).
  - unfold raw_at. subst w1. cbn [heap].
    rewrite lookup_insert_ne by done.
    rewrite lookup_insert_ne by (by apply (Hfresh _ _ Hth)).
    by rewrite Hth.
  - assert (Hp1 : proxy_at p w1 = Some (t, d)).
    { unfold proxy_at. subst w1. cbn [heap].
      rewrite lookup_insert_ne by congruence.
      rewrite lookup_insert_ne by (by apply (Hfresh _ _ Hph)).
      by rewrite Hph. }
    assert (Ht1 : raw_at t w1 = Some o).
    { unfold raw_at. subst w1. cbn [heap].
      rewrite lookup_insert_ne by done.
      rewrite lookup_insert_ne by (by apply (Hfresh _ _ Hth)).
      by rewrite Hth. }
    unfold proxy_get.
    rewrite (bind_ok _ _ w1 (t, d) w1) by (unfold lift_opt; by rewrite Hp1).
    rewrite (bind_ok _ _ w1 o w1) by (unfold lift_opt; cbn [fst]; by rewrite Ht1).
    rewrite bool_decide_eq_false_2 by congruence. rewrite Hm.
    rewrite (bind_ok _ _ w1 [] w1) by (unfold gets; subst w1; cbn; by rewrite Ha).
    cbn [last]. rewrite (bind_ok _ _ w1 tt w1) by done.
    rewrite Hv.
    erewrite bind_ok by reflexivity.
    assert (Hmark : read_marker "__isReactive" (VObj l2) w1 = VBool true).
    { unfold read_marker. subst w1. cbn [heap]. rewrite lookup_insert_eq.
      unfold reflect_get, own_get, is_array. subst o3.
      cbn [kind define_hidden hidden]. rewrite Hk2.
      rewrite bool_decide_eq_false_2 by done. cbn [andb].
      rewrite lookup_insert_ne by done. rewrite lookup_insert_ne by done.
      by rewrite lookup_insert_eq. }
    cbn [is_object]. by rewrite Hmark.
Qed.

Lemma proxy_get_nested_record_twice_witness :
  ∃ p2 d2 w1,
    proxy_get 2 (Name "user") nested_world = Some (Ok (VObj p2), w1)
    ∧ proxy_at p2 w1 = Some (1, d2)
    ∧ p2 ≠ 1
    ∧ raw_at 0 w1 = Some nested_object
    ∧ proxy_get 2 (Name "user") w1 = Some (Ok (VObj 1), w1).
Proof.
  apply (proxy_get_nested_record_twice 2 0 0 nested_object "user" 1 inner_object
           nested_world); try reflexivity; done.
Defined.




End WrappingFacts.


(** ** push on an observable array *)

Section PushFacts.
Import Reactive.

Lemma index_get o i : reflect_get o (Idx i) = default VUndefined (elems o !! i).
Proof. done. Qed.

Lemma unchanged_same old v : Props.changes old v = false → old = v.
Proof.
  unfold Props.changes. intros H. apply negb_false_iff in H.
  apply orb_true_iff in H as [H|H]; [by apply strict_eq_true|].
  apply andb_true_iff in H as [H1 H2].
  destruct old as [| | |[|]| | |], v as [| | |[|]| | |]; done.
Qed.

(** A write to an index while the notifications are disabled. *)
Lemma set_index_disabled p t d o dp i v w :
  proxy_at p w = Some (t, d) →
  raw_at t w = Some o →
  deps w !! d = Some dp →
  kind o = KArray →
  is_object v = false →
  Dependency.notificationDisabled dp = true →
  ∃ o1 w1,
    Set_or_throw p (Idx i) v w = Some (Ok tt, w1)
    ∧ proxy_at p w1 = Some (t, d)
    ∧ raw_at t w1 = Some o1
    ∧ deps w1 = deps w
    ∧ activeFns w1 = activeFns w
    ∧ notified w1 = notified w
    ∧ kind o1 = KArray
    ∧ hidden o1 = hidden o
    ∧ reflect_get o1 (Idx i) = v
    ∧ (∀ j, j ≠ i → elems o1 !! j = elems o !! j)
    ∧ len o ≤ len o1 ≤ Nat.max (len o) (S i).
Proof.
  intros Hp Ht Hd Hk Hv Hdis.
  pose proof (proxy_ne_raw _ _ _ _ _ Hp Ht) as Hpt.
  assert (Harr : is_array o = true) by (unfold is_array; by rewrite Hk).
  destruct (Props.changes (reflect_get o (Idx i)) v) eqn:Hc.
  - set (o1 := with_elems (<[i := v]> (elems o)) (Nat.max (len o) (S i)) o).
    set (w1 := set_heap (<[t := Raw o1]> (heap w)) w).
    assert (Hp1 : proxy_at p w1 = Some (t, d)).
    { unfold proxy_at. subst w1. cbn [heap set_heap]. by rewrite lookup_insert_ne. }
    assert (Ht1 : raw_at t w1 = Some o1).
    { unfold raw_at. subst w1. cbn [heap set_heap]. by rewrite lookup_insert_eq. }
    assert (Hset : proxy_set p (Idx i) v w = Some (Ok true, w1)).
    { unfold proxy_set.
      rewrite (bind_ok _ _ w (t, d) w) by (unfold lift_opt; by rewrite Hp).
      rewrite (bind_ok _ _ w o w) by (unfold lift_opt; cbn [fst]; by rewrite Ht).
      cbn [is_marker]. unfold Props.changes in Hc. apply negb_true_iff in Hc.
      rewrite Hc. rewrite bool_decide_eq_false_2 by done. rewrite andb_false_r.
      cbn [fst snd]. unfold set_finish. rewrite Hv.
      rewrite (bind_ok _ _ w v w) by done.
      rewrite (bind_ok _ _ w o w) by (unfold lift_opt; by rewrite Ht).
      cbn [reflect_set]. rewrite Harr.
      rewrite (bind_ok _ _ w tt w1) by done.
      rewrite (bind_ok _ _ w1 dp w1) by (unfold dep_of, lift_opt; cbn; by rewrite Hd).
      rewrite Hdis. cbn [negb].
      by rewrite (bind_ok _ _ w1 tt w1). }
    exists o1, w1. split.
    { unfold Set_or_throw, proxy_Set.
      rewrite (bind_ok _ _ w true w1); [done|].
      rewrite (bind_ok _ _ _ _ _ Hset).
      rewrite (bind_ok _ _ w1 (t, d) w1) by (unfold lift_opt; by rewrite Hp1).
      by rewrite (bind_ok _ _ w1 o1 w1) by (unfold lift_opt; cbn [fst]; by rewrite Ht1). }
    split_and!; try done.
    + rewrite index_get. subst o1. cbn [elems with_elems]. by rewrite lookup_insert_eq.
    + intros j Hj. subst o1. cbn [elems with_elems]. by rewrite lookup_insert_ne.
    + subst o1. cbn [len with_elems]. lia.
  - assert (Hset : proxy_set p (Idx i) v w = Some (Ok true, w)).
    { unfold proxy_set.
      rewrite (bind_ok _ _ w (t, d) w) by (unfold lift_opt; by rewrite Hp).
      rewrite (bind_ok _ _ w o w) by (unfold lift_opt; cbn [fst]; by rewrite Ht).
      cbn [is_marker]. unfold Props.changes in Hc. apply negb_false_iff in Hc.
      by rewrite Hc. }
    exists o, w. split.
    { unfold Set_or_throw, proxy_Set.
      rewrite (bind_ok _ _ w true w); [done|].
      rewrite (bind_ok _ _ _ _ _ Hset).
      rewrite (bind_ok _ _ w (t, d) w) by (unfold lift_opt; by rewrite Hp).
      by rewrite (bind_ok _ _ w o w) by (unfold lift_opt; cbn [fst]; by rewrite Ht). }
    split_and!; try done; try lia. by apply unchanged_same.
Qed.

(** The loop of [push] over the items, the first of them going to
    index [base]. *)
Lemma push_loop p t d dp items :
  ∀ base k o w,
  proxy_at p w = Some (t, d) →
  raw_at t w = Some o →
  deps w !! d = Some dp →
  kind o = KArray →
  Forall (λ v, is_object v = false) items →
  Dependency.notificationDisabled dp = true →
  ∃ o1 w1,
    for_each (λ je : nat * value, Set_or_throw p (Idx (base + je.1)) je.2)
             (imap (λ j e, (k + j, e)) items) w
    = Some (Ok tt, w1)
    ∧ proxy_at p w1 = Some (t, d)
    ∧ raw_at t w1 = Some o1
    ∧ deps w1 = deps w
    ∧ activeFns w1 = activeFns w
    ∧ notified w1 = notified w
    ∧ kind o1 = KArray
    ∧ hidden o1 = hidden o
    ∧ (∀ j v, items !! j = Some v → reflect_get o1 (Idx (base + k + j)) = v)
    ∧ (∀ i, i < base + k → elems o1 !! i = elems o !! i)
    ∧ len o ≤ len o1 ≤ Nat.max (len o) (base + k + length items).
Proof.
  induction items as [|v r IH]; intros base k o w Hp Ht Hd Hk Hitems Hdis.
  - exists o, w. cbn. split_and!; try done; lia.
  - apply Forall_cons in Hitems as [Hv Hr].
    cbn [imap for_each]. cbn [fst snd].
    destruct (set_index_disabled p t d o dp (base + (k + 0)) v w Hp Ht Hd Hk Hv Hdis)
      as (o' & w' & E1 & Hp' & Ht' & Hd' & Ha' & Hn' & Hk' & Hh' & Hg' & Ho' & Hl').
    rewrite (bind_ok _ _ _ _ _ E1).
    assert (Hd'' : deps w' !! d = Some dp) by (by rewrite Hd').
    destruct (IH base (S k) o' w' Hp' Ht' Hd'' Hk' Hr Hdis)
      as (o1 & w1 & E2 & Hp1 & Ht1 & Hd1 & Ha1 & Hn1 & Hk1 & Hh1 & Hg1 & Ho1 & Hl1).
    exists o1, w1. split.
    { rewrite <- E2. f_equal. apply imap_ext. intros j x _. cbn. f_equal. lia. }
    split_and!; try congruence.
    + intros [|j] x Hx; cbn in Hx.
      * injection Hx as <-. rewrite index_get, Ho1 by lia.
        rewrite <- index_get. rewrite <- Hg'. f_equal. f_equal. lia.
      * rewrite <- (Hg1 j x Hx). f_equal. f_equal. lia.
    + intros i Hi. rewrite Ho1 by lia. apply Ho'. lia.
    + lia.
    + cbn [length]. lia.
Qed.

(** The write of the new length that ends [push]. *)
Lemma set_length_disabled p t d o dp m w :
  proxy_at p w = Some (t, d) →
  raw_at t w = Some o →
  deps w !! d = Some dp →
  kind o = KArray →
  hidden o !! "length" = None →
  Dependency.notificationDisabled dp = true →
  len o ≤ m →
  (Z.of_nat m < 2 ^ 32)%Z →
  ∃ o1 w1,
    Set_or_throw p (Name "length") (num_of_nat m) w = Some (Ok tt, w1)
    ∧ raw_at t w1 = Some o1
    ∧ deps w1 = deps w
    ∧ activeFns w1 = activeFns w
    ∧ notified w1 = notified w
    ∧ len o1 = m
    ∧ (∀ i, i < m → elems o1 !! i = elems o !! i).
Proof.
  intros Hp Ht Hd Hk Hh Hdis Hle Hmax.
  pose proof (proxy_ne_raw _ _ _ _ _ Hp Ht) as Hpt.
  assert (Harr : is_array o = true) by (unfold is_array; by rewrite Hk).
  assert (Hold : reflect_get o (Name "length") = VNum (Num (Z.of_nat (len o)))).
  { unfold reflect_get, own_get. by rewrite Harr. }
  assert (Hmk : is_marker (Name "length") = false) by reflexivity.
  destruct (decide (len o = m)) as [E|E].
  - assert (Hset : proxy_set p (Name "length") (num_of_nat m) w = Some (Ok true, w)).
    { unfold proxy_set.
      rewrite (bind_ok _ _ w (t, d) w) by (unfold lift_opt; by rewrite Hp).
      rewrite (bind_ok _ _ w o w) by (unfold lift_opt; cbn [fst]; by rewrite Ht).
      rewrite Hmk, Hold, E. fold (num_of_nat m). by rewrite strict_eq_num. }
    exists o, w. split.
    { unfold Set_or_throw, proxy_Set.
      rewrite (bind_ok _ _ w true w); [done|].
      rewrite (bind_ok _ _ _ _ _ Hset).
      rewrite (bind_ok _ _ w (t, d) w) by (unfold lift_opt; by rewrite Hp).
      rewrite (bind_ok _ _ w o w) by (unfold lift_opt; cbn [fst]; by rewrite Ht).
      by rewrite Hh. }
    split_and!; done.
  - set (o1 := with_elems (filter (λ kv, kv.1 < m) (elems o)) m o).
    set (w1 := set_heap (<[t := Raw o1]> (heap w)) w).
    assert (Hp1 : proxy_at p w1 = Some (t, d)).
    { unfold proxy_at. subst w1. cbn [heap set_heap]. by rewrite lookup_insert_ne. }
    assert (Ht1 : raw_at t w1 = Some o1).
    { unfold raw_at. subst w1. cbn [heap set_heap]. by rewrite lookup_insert_eq. }
    assert (Hset : proxy_set p (Name "length") (num_of_nat m) w = Some (Ok true, w1)).
    { unfold proxy_set.
      rewrite (bind_ok _ _ w (t, d) w) by (unfold lift_opt; by rewrite Hp).
      rewrite (bind_ok _ _ w o w) by (unfold lift_opt; cbn [fst]; by rewrite Ht).
      rewrite Hmk, Hold. unfold num_of_nat. cbn [strict_eq isNaN andb orb].
      rewrite bool_decide_eq_false_2 by lia. cbn [orb].
      rewrite Harr. rewrite (bool_decide_eq_true_2 (Name "length" = Name "length")) by done.
      cbn [andb]. rewrite bool_decide_eq_false_2 by lia.
      assert (Hidx : indices_from (Z.of_nat m) (len o) = []).
      { unfold indices_from.
        by replace (Z.to_nat (Z.of_nat (len o) - Z.of_nat m)) with 0 by lia. }
      rewrite Hidx. cbn [for_each fst snd].
      rewrite (bind_ok _ _ w tt w) by done.
      unfold set_finish. cbn [is_object].
      rewrite (bind_ok _ _ w (VNum (Num (Z.of_nat m))) w) by done.
      rewrite (bind_ok _ _ w o w) by (unfold lift_opt; by rewrite Ht).
      cbn [reflect_set]. rewrite Harr.
      rewrite (bool_decide_eq_true_2 ("length" = "length")) by done.
      cbn [andb to_number].
      replace ((0 <=? Z.of_nat m)%Z && (Z.of_nat m <? 2 ^ 32)%Z) with true
        by (symmetry; apply andb_true_iff; split; [apply Z.leb_le|apply Z.ltb_lt]; lia).
      rewrite Nat2Z.id. fold o1.
      rewrite (bind_ok _ _ w tt w1) by done.
      rewrite (bind_ok _ _ w1 dp w1) by (unfold dep_of, lift_opt; cbn; by rewrite Hd).
      rewrite Hdis. cbn [negb].
      by rewrite (bind_ok _ _ w1 tt w1). }
    exists o1, w1. split.
    { unfold Set_or_throw, proxy_Set.
      rewrite (bind_ok _ _ w true w1); [done|].
      rewrite (bind_ok _ _ _ _ _ Hset).
      rewrite (bind_ok _ _ w1 (t, d) w1) by (unfold lift_opt; by rewrite Hp1).
      rewrite (bind_ok _ _ w1 o1 w1) by (unfold lift_opt; cbn [fst]; by rewrite Ht1).
      subst o1. cbn [hidden with_elems]. by rewrite Hh. }
    split_and!; try done.
    intros i Hi. subst o1. cbn [elems with_elems].
    destruct (elems o !! i) as [x|] eqn:Ex.
    + apply map_lookup_filter_Some. by split.
    + apply map_lookup_filter_None. by left.
Qed.

Lemma wrap_primitives (items : list value) w :
  Forall (λ v, is_object v = false) items →
  for_each (λ item,
              let* marked := gets (read_marker "__isReactive" item) in
              if is_object item && negb (truthy marked)
              then let* _r := reactive item in ret tt
              else ret tt) items w
  = Some (Ok tt, w).
Proof.
  induction 1 as [|v r Hv Hr IH]; [done|].
  cbn [for_each].
  rewrite (bind_ok _ _ w tt w); [exact IH|].
  erewrite bind_ok by reflexivity. by rewrite Hv.
Qed.

(** X22. [push] of items that are no containers on an observable
    array, with notifications enabled and no update function active:
    the items are stored after the last element in the order given, the
    elements before them stay, the new length is returned, and exactly
    one notification goes out, the one of the mutation. *)
Theorem push_notifies_once p t d o dp items w :
  proxy_at p w = Some (t, d) →
  raw_at t w = Some o →
  deps w !! d = Some dp →
  kind o = KArray →
  intercepted o = true →
  hidden o !! "length" = None →
  own_get o (Name "push") = None →
  Forall (λ v, is_object v = false) items →
  (Z.of_nat (len o + length items) < 2 ^ 32)%Z →
  Dependency.notificationDisabled dp = false →
  activeFns w = [] →
  ∃ o1 w1,
    call_method p Push items w
    = Some (Ok (num_of_nat (len o + length items)), w1)
    ∧ raw_at t w1 = Some o1
    ∧ len o1 = len o + length items
    ∧ (∀ j v, items !! j = Some v → reflect_get o1 (Idx (len o + j)) = v)
    ∧ (∀ i, i < len o → elems o1 !! i = elems o !! i)
    ∧ notified w1 = notified w ++ [(d, Some "array:mutate")].
Proof.
  intros Hp Ht Hd Hk Hi Hhl Hpush Hitems Hmax Hdis Hact.
  assert (Harr : is_array o = true) by (unfold is_array; by rewrite Hk).
  unfold call_method.
  rewrite (bind_ok _ _ w (t, d) w) by (unfold lift_opt; by rewrite Hp).
  rewrite (bind_ok _ _ w o w) by (unfold lift_opt; cbn [fst]; by rewrite Ht).
  rewrite Harr. cbn [negb fst snd].
  erewrite bind_ok; cycle 1.
  { eapply proxy_get_plain; try done. cbn [method_name]. unfold reflect_get. by rewrite Hpush. }
  rewrite Hi. cbn [negb].
  rewrite (bind_ok _ _ w dp w) by (unfold dep_of, lift_opt; by rewrite Hd).
  rewrite Hdis.
  erewrite bind_ok by (by apply update_dep_at).
  set (dp1 := set_disabled true dp).
  set (wA := set_deps _ w).
  assert (HpA : proxy_at p wA = Some (t, d)) by done.
  assert (HtA : raw_at t wA = Some o) by done.
  assert (HdA : deps wA !! d = Some dp1).
  { subst wA. cbn [deps set_deps]. apply lookup_insert_eq. }
  assert (HaA : activeFns wA = []) by done.
  cbn [builtin].
  destruct (push_loop p t d dp1 items (len o) 0 o wA HpA HtA HdA Hk Hitems eq_refl)
    as (oB & wB & EB & HpB & HtB & HdB & HaB & HnB & HkB & HhB & HgB & HoB & HlB).
  assert (HdB' : deps wB !! d = Some dp1) by (by rewrite HdB).
  assert (HlenB : len oB ≤ len o + length items) by lia.
  destruct (set_length_disabled p t d oB dp1 (len o + length items) wB
              HpB HtB HdB' HkB ltac:(by rewrite HhB) eq_refl HlenB Hmax)
    as (oC & wC & EC & HtC & HdC & HaC & HnC & HlC & HoC).
  assert (Hrun : array_push p items wA
                 = Some (Ok (num_of_nat (len o + length items)), wC)).
  { unfold array_push.
    rewrite (bind_ok _ _ wA (len o) wA) by (by eapply length_of_plain).
    rewrite (bind_ok _ _ wA tt wB) by exact EB.
    by rewrite (bind_ok _ _ wB tt wC) by exact EC. }
  rewrite (bind_ok _ _ _ _ _ Hrun).
  unfold try_catch.
  rewrite (bind_ok _ _ wC tt wC) by (by apply wrap_primitives).
  assert (HdC' : deps wC !! d = Some dp1) by (by rewrite HdC).
  erewrite bind_ok by (by apply update_dep_at).
  cbn [negb].
  erewrite bind_ok; cycle 1.
  { apply notify_at. cbn [deps set_deps]. apply lookup_insert_eq. }
  exists oC. eexists. split; [reflexivity|].
  cbn [notified set_deps]. split_and!.
  - done.
  - done.
  - intros j v Hj. rewrite index_get.
    rewrite HoC by (apply lookup_lt_Some in Hj; lia).
    rewrite <- index_get. rewrite <- (HgB j v Hj). f_equal. f_equal. lia.
  - intros i Hlt. rewrite HoC by lia. apply HoB. lia.
  - by rewrite HnC, HnB.
Qed.

Lemma push_notifies_once_witness :
  ∃ o1 w1,
    call_method 1 Push [VNum (Num 4); VUndefined; VStr "x"] numbers_world
    = Some (Ok (num_of_nat 6), w1)
    ∧ raw_at 0 w1 = Some o1
    ∧ len o1 = 6
    ∧ notified w1 = [(0, Some "array:mutate")].
Proof.
  destruct (push_notifies_once 1 0 0 numbers_object (set_proxy 1 Dependency.new)
              [VNum (Num 4); VUndefined; VStr "x"] numbers_world
              eq_refl eq_refl eq_refl eq_refl eq_refl eq_refl eq_refl)
    as (o1 & w1 & H1 & H2 & H3 & _ & _ & H6);
    [ repeat constructor
    | reflexivity
    | reflexivity
    | reflexivity
    | ].
  exists o1, w1. split_and!; assumption.
Defined.

End PushFacts.

(** ** parseText, one interpolation at a time *)

Lemma chars_app a b : Str.chars (a +:+ b) = Str.chars a ++ Str.chars b.
Proof.
  unfold Str.chars. induction a as [|c a IH]; [done|].
  change (String c a +:+ b) with (String c (a +:+ b)). cbn. f_equal. exact IH.
Qed.

Lemma of_chars_app xs ys : Str.of_chars (xs ++ ys) = Str.of_chars xs +:+ Str.of_chars ys.
Proof.
  unfold Str.of_chars. induction xs as [|c xs IH]; [done|]. cbn.
  change (String c (String.string_of_list_ascii xs) +:+ String.string_of_list_ascii ys)
    with (String c (String.string_of_list_ascii xs +:+ String.string_of_list_ascii ys)).
  f_equal. exact IH.
Qed.

Lemma replace_all_prefix run display scope pre :
  ∀ cs deps w,
  forallb (λ c, negb (Str.code c =? 123)) pre = true →
  ExpressionParser.replace_all run display (pre ++ cs) 0 scope deps w
  = let '(out, deps1, w1) := ExpressionParser.replace_all run display cs 0 scope deps w in
    (pre ++ out, deps1, w1).
Proof.
  induction pre as [|c pre IH]; intros cs deps w H.
  - cbn. by destruct (ExpressionParser.replace_all run display cs 0 scope deps w) as [[? ?] ?].
  - cbn in H. apply andb_true_iff in H as [Hc Hpre]. apply negb_true_iff in Hc.
    change ((c :: pre) ++ cs) with (c :: (pre ++ cs)).
    cbn [ExpressionParser.replace_all]. rewrite (match_here_other _ _ Hc).
    rewrite (IH cs deps w Hpre).
    by destruct (ExpressionParser.replace_all run display cs 0 scope deps w) as [[? ?] ?].
Qed.

Lemma replace_all_skip run display scope xs :
  ∀ cs deps w,
  ExpressionParser.replace_all run display (xs ++ cs) (length xs) scope deps w
  = ExpressionParser.replace_all run display cs 0 scope deps w.
Proof.
  induction xs as [|x xs IH]; intros cs deps w; [done|].
  cbn. apply IH.
Qed.

Lemma until_brace_app inner c rest :
  forallb (λ c, negb (Str.code c =? 125)) inner = true →
  (Str.code c =? 125) = true →
  ExpressionParser.until_brace (inner ++ c :: rest) = inner.
Proof.
  intros Hi Hc. induction inner as [|x inner IH]; cbn.
  - by rewrite Hc.
  - cbn in Hi. apply andb_true_iff in Hi as [Hx Hi]. apply negb_true_iff in Hx.
    rewrite Hx. f_equal. by apply IH.
Qed.

Lemma replace_all_match run display scope c k inner deps w :
  ExpressionParser.match_here (c :: k) = Some inner →
  ExpressionParser.replace_all run display (c :: k) 0 scope deps w
  = let '(r, deps1, w1) :=
      ExpressionParser.parse run (VStr (Str.trim (Str.of_chars inner))) scope deps w in
    let out := match r with
               | Ok v => ExpressionParser.to_text display v
               | Throw _ => String.EmptyString
               end in
    let '(tl, deps2, w2) :=
      ExpressionParser.replace_all run display k (length inner + 3) scope deps1 w1 in
    (Str.chars out ++ tl, deps2, w2).
Proof.
  intros H. cbn [ExpressionParser.replace_all]. by rewrite H.
Qed.

Lemma match_here_delimited inner rest :
  inner ≠ [] →
  forallb (λ c, negb (Str.code c =? 125)) inner = true →
  ExpressionParser.match_here
    ("{"%char :: "{"%char :: inner ++ "}"%char :: "}"%char :: rest)
  = Some inner.
Proof.
  intros Hinner Hexpr. unfold ExpressionParser.match_here.
  change (Str.code "{" =? 123) with true. cbn [andb]. cbv zeta.
  rewrite (until_brace_app inner "}"%char _ Hexpr eq_refl).
  destruct inner as [|a l] eqn:Ei; [done|]. rewrite <- Ei.
  by rewrite drop_app_length.
Qed.

(** X23. [parseText] works through a text one interpolation at a
    time: the text before the first [{{] stays, the interpolation is
    replaced by the text of what [parse] returns for the trimmed
    expression, and the rest is parsed in turn with the collector and
    the world [parse] has left. *)
Theorem parseText_first_interpolation run display pre expr post scope deps w :
  forallb (λ c, negb (Str.code c =? 123)) (Str.chars pre) = true →
  expr ≠ String.EmptyString →
  forallb (λ c, negb (Str.code c =? 125)) (Str.chars expr) = true →
  ExpressionParser.parseText run display
    (VStr (pre +:+ "{{" +:+ expr +:+ "}}" +:+ post)) scope deps w
  = let '(r, deps1, w1) :=
      ExpressionParser.parse run (VStr (Str.trim expr)) scope deps w in
    let '(rest, deps2, w2) :=
      ExpressionParser.parseText run display (VStr post) scope deps1 w1 in
    (VStr (pre
           +:+ match r with
               | Ok v => ExpressionParser.to_text display v
               | Throw _ => String.EmptyString
               end
           +:+ ExpressionParser.to_text display rest),
     deps2, w2).
Proof.
  intros Hpre Hne Hexpr.
  unfold ExpressionParser.parseText.
  rewrite !chars_app.
  rewrite (replace_all_prefix run display scope _ _ deps w Hpre).
  set (inner := Str.chars expr).
  assert (Hinner : inner ≠ []).
  { subst inner. intros E. apply Hne. rewrite <- (of_chars_chars expr). by rewrite E. }
  change (Str.chars "{{") with ["{"%char; "{"%char].
  change (Str.chars "}}") with ["}"%char; "}"%char].
  cbn [app].
  pose proof (match_here_delimited inner (Str.chars post) Hinner Hexpr) as Hm.
  rewrite (replace_all_match run display scope _ _ _ deps w Hm).
  subst inner. rewrite of_chars_chars.
  destruct (ExpressionParser.parse run (VStr (Str.trim expr)) scope deps w)
    as [[r deps1] w1].
  replace (length (Str.chars expr) + 3)
    with (length ("{"%char :: Str.chars expr ++ ["}"%char; "}"%char]))
    by (cbn; rewrite length_app; cbn; lia).
  replace ("{"%char :: Str.chars expr ++ "}"%char :: "}"%char :: Str.chars post)
    with (("{"%char :: Str.chars expr ++ ["}"%char; "}"%char]) ++ Str.chars post)
    by (cbn; by rewrite <- app_assoc).
  rewrite replace_all_skip.
  destruct (ExpressionParser.replace_all run display (Str.chars post) 0 scope deps1 w1)
    as [[tl deps2] w2].
  cbn [ExpressionParser.to_text].
  by rewrite !of_chars_app, !of_chars_chars.
Qed.

Lemma parseText_first_interpolation_witness :
  ExpressionParser.parseText ExpressionParser.ident_eval (λ _, "?")
    (VStr ("Hello, " +:+ "{{" +:+ " name " +:+ "}}" +:+ "!")) [("name", VStr "Ann")] []
    quiet_world
  = (VStr "Hello, Ann!", ["name"], quiet_world).
Proof.
  exact (parseText_first_interpolation ExpressionParser.ident_eval (λ _, "?")
           "Hello, " " name " "!" [("name", VStr "Ann")] [] quiet_world
           eq_refl ltac:(discriminate) eq_refl).
Defined.

(** ** Text nodes *)

Section TextNodeFacts.
Variable run : list (string * value) → string → ExpressionParser.world
               → res value * ExpressionParser.world.
Variable display : value → string.

Lemma parseText_of_text s scope deps w :
  ∃ out deps1 w1,
    ExpressionParser.parseText run display (VStr s) scope deps w = (VStr out, deps1, w1).
Proof.
  unfold ExpressionParser.parseText.
  destruct (ExpressionParser.replace_all run display (Str.chars s) 0 scope deps w)
    as [[out deps1] w1]. eauto.
Qed.

(** X24. The text of a text node is taken as its template the first
    time the node is processed and never again: processing the node a
    second time renders that first text anew, with the scope then
    given, although the node holds the rendered text by then; the text
    of the other nodes is left alone. *)
Theorem text_node_renders_from_template node obj1 obj2 scope1 scope2 rw1 rw2 st t :
  TextNode.nodeContentMap st !! node = None →
  TextNode.textContent st !! node = Some t →
  let st1 := (TextNode.processTextNode run display node obj1 scope1 rw1 st).1.1 in
  let st2 := (TextNode.processTextNode run display node obj2 scope2 rw2 st1).1.1 in
  TextNode.nodeContentMap st2 !! node = Some t
  ∧ TextNode.textContent st2 !! node
    = Some (ExpressionParser.to_text display
              (ExpressionParser.parseText run display (VStr t) scope2 []
                 (TextNode.push (TextNode.nextFn st1) (TextNode.pw st1))).1.1)
  ∧ ∀ n, n ≠ node → TextNode.textContent st2 !! n = TextNode.textContent st !! n.
Proof.
  intros Hnone Htext.
  assert (Hstep : ∀ obj scope rw s o,
            TextNode.nodeContentMap s !! node = Some o
            ∨ (TextNode.nodeContentMap s !! node = None ∧ TextNode.text_of node s = o) →
            let s1 := (TextNode.processTextNode run display node obj scope rw s).1.1 in
            TextNode.nodeContentMap s1 !! node = Some o
            ∧ TextNode.textContent s1 !! node
              = Some (ExpressionParser.to_text display
                        (ExpressionParser.parseText run display (VStr o) scope []
                           (TextNode.push (TextNode.nextFn s) (TextNode.pw s))).1.1)
            ∧ ∀ n, n ≠ node → TextNode.textContent s1 !! n = TextNode.textContent s !! n).
  { intros obj scope rw s o Ho. unfold TextNode.processTextNode.
    set (s1 := if bool_decide _ then s else _).
    assert (H1 : TextNode.nodeContentMap s1 !! node = Some o
                 ∧ TextNode.textContent s1 = TextNode.textContent s
                 ∧ TextNode.nextFn s1 = TextNode.nextFn s
                 ∧ TextNode.pw s1 = TextNode.pw s).
    { subst s1. destruct Ho as [Ho|[Ho Ht]].
      - rewrite bool_decide_eq_true_2 by (by rewrite Ho). done.
      - rewrite bool_decide_eq_false_2 by (rewrite Ho; by intros [? ?]).
        cbn. rewrite lookup_insert_eq. by rewrite Ht. }
    destruct H1 as (M1 & T1 & N1 & P1).
    unfold TextNode.update, TextNode.original.
    cbn [TextNode.nodeContentMap TextNode.textContent TextNode.nextFn TextNode.pw].
    rewrite M1, N1, P1.
    destruct (parseText_of_text o scope []
                (TextNode.push (TextNode.nextFn s) (TextNode.pw s)))
      as (out & deps1 & w1 & E1).
    rewrite E1.
    cbn [TextNode.nodeContentMap TextNode.textContent TextNode.nextFn TextNode.pw].
    rewrite M1.
    destruct (ExpressionParser.parseText run display (VStr o) scope [] (TextNode.pop w1))
      as [[v2 names] w5].
    cbn [fst snd TextNode.nodeContentMap TextNode.textContent].
    split_and!; [done| |].
    - by rewrite lookup_insert_eq.
    - intros n Hn. rewrite lookup_insert_ne by done. by rewrite T1. }
  intros st1 st2.
  destruct (Hstep obj1 scope1 rw1 st t) as (A1 & A2 & A3).
  { right. split; [done|]. unfold TextNode.text_of. by rewrite Htext. }
  destruct (Hstep obj2 scope2 rw2 st1 t (or_introl A1)) as (B1 & B2 & B3).
  split_and!; [exact B1 | exact B2 |].
  intros n Hn. fold st1 in A3. fold st2 in B3. by rewrite B3, A3.
Qed.


End TextNodeFacts.

Lemma text_node_renders_from_template_witness :
  let st1 := (TextNode.processTextNode ExpressionParser.ident_eval show_number 7
                (VObj 1) [("n", VNum (Num 1))] counter_world counter_text).1.1 in
  let st2 := (TextNode.processTextNode ExpressionParser.ident_eval show_number 7
                (VObj 1) [("n", VNum (Num 2))] counter_world_two st1).1.1 in
  TextNode.textContent st1 !! 7 = Some "n = 1"
  ∧ TextNode.nodeContentMap st2 !! 7 = Some "n = {{ n }}"
  ∧ TextNode.textContent st2 !! 7 = Some "n = 2".
Proof.
  split; [reflexivity|].
  pose proof (text_node_renders_from_template ExpressionParser.ident_eval show_number 7
                (VObj 1) (VObj 1) [("n", VNum (Num 1))] [("n", VNum (Num 2))]
                counter_world counter_world_two counter_text
                "n = {{ n }}" eq_refl eq_refl) as (H1 & H2 & _).
  split; [exact H1 | exact H2].
Defined.


(** ** r-click *)

Lemma eventType_in_map el :
  RClick.eventType el = "click" ∨ RClick.eventType el ∈ RClick.EVENT_MAP.*2.
Proof.
  unfold RClick.eventType.
  destruct (list_find _ RClick.EVENT_MAP) as [[i kv]|] eqn:E; [|by left].
  right. apply list_find_Some in E as (Hi & _).
  apply list_elem_of_fmap. exists kv. split; [done|].
  by apply list_elem_of_lookup_2 in Hi.
Qed.

Lemma eventType_not_unload el : RClick.eventType el ≠ "beforeunload".
Proof.
  destruct (eventType_in_map el) as [->|H]; [done|].
  intros E. rewrite E in H. revert H. apply (bool_decide_unpack _). by vm_compute.
Qed.

Lemma filter_jsset_delete {A} `{EqDecision A} (P : A → Prop) `{∀ x, Decision (P x)}
    (x : A) (l : list A) :
  filter P (JSSet.delete x l) = JSSet.delete x (filter P l).
Proof.
  unfold JSSet.delete. induction l as [|y l IH]; [done|].
  rewrite (filter_cons (λ z, z ≠ x)), (filter_cons P).
  destruct (decide (y ≠ x)) as [Hy|Hy]; destruct (decide (P y)) as [Hp|Hp].
  - rewrite (filter_cons P), (filter_cons (λ z, z ≠ x)).
    rewrite decide_True by done. rewrite decide_True by done. by rewrite IH.
  - rewrite (filter_cons P), decide_False by done. exact IH.
  - rewrite (filter_cons (λ z, z ≠ x)), decide_False by done. exact IH.
  - exact IH.
Qed.

Lemma rclick_handler_inv compiles code scope next el :
  (RClick.event_listeners el
   = match RClick.clickHandler el, RClick.clickEventType el with
     | Some h, Some ty => [(ty, h)]
     | _, _ => []
     end) →
  let el1 := (RClick.handler compiles code scope next el).1.1 in
  RClick.event_listeners el1
  = match RClick.clickHandler el1, RClick.clickEventType el1 with
    | Some h, Some ty => [(ty, h)]
    | _, _ => []
    end.
Proof.
  intros Hinv. unfold RClick.handler.
  destruct code as [| | | |c| |]; try exact Hinv.
  destruct (bool_decide (Str.trim c = String.EmptyString)); [exact Hinv|].
  destruct (negb (Reactive.is_object scope)); [exact Hinv|].
  destruct (_ && _); [exact Hinv|].
  assert (Hclean : RClick.event_listeners (RClick.cleanup next el) = []
                   ∧ RClick.clickHandler (RClick.cleanup next el) = None).
  { unfold RClick.cleanup.
    destruct (RClick.clickHandler el) as [h|] eqn:Eh; [|by rewrite Eh].
    split; [|done]. unfold RClick.event_listeners in *.
    cbn [RClick.listeners RClick.removeEventListener].
    destruct (RClick.clickEventType el) as [ty|];
      cbn [RClick.listeners RClick.removeEventListener];
      rewrite !filter_jsset_delete, Hinv; [|done].
    unfold JSSet.delete. rewrite filter_cons, decide_False by (by intros ?). done. }
  destruct Hclean as [Hc1 Hc2].
  destruct (compiles scope c); cbn [fst]; [|by rewrite Hc2].
  unfold RClick.event_listeners in *.
  cbn [RClick.addEventListener RClick.listeners RClick.clickHandler RClick.clickEventType].
  set (ty := RClick.eventType el).
  set (ls := RClick.listeners (RClick.cleanup next el)) in *.
  assert (Hnew : (ty, S (S next)) ∉ ls).
  { intros Hin. assert (Hf : (ty, S (S next)) ∈ filter (λ l, l.1 ≠ "beforeunload") ls).
    { apply list_elem_of_filter. split; [apply eventType_not_unload | done]. }
    rewrite Hc1 in Hf. by apply elem_of_nil in Hf. }
  assert (F1 : filter (λ l : string * fn, l.1 ≠ "beforeunload") [(ty, S (S next))]
               = [(ty, S (S next))]).
  { rewrite filter_cons, decide_True by apply eventType_not_unload. done. }
  assert (F2 : filter (λ l : string * fn, l.1 ≠ "beforeunload") [("beforeunload", next)]
               = []).
  { rewrite filter_cons, decide_False by (by intros ?). done. }
  unfold JSSet.add at 2. rewrite decide_False by done.
  unfold JSSet.add. destruct (decide _).
  - rewrite filter_app, Hc1. exact F1.
  - rewrite !filter_app, Hc1. transitivity ([(ty, S (S next))] ++ @nil (string * fn)); [|done].
    apply (f_equal2 app); [exact F1 | exact F2].
Qed.

(** X26. However often the directive runs on an element, with
    whatever attributes and code each time, the element is left with
    at most one listener besides those for [beforeunload]: the handler
    kept in [__clickHandler], for the event type kept in
    [__clickEventType]; with none if no handler is kept. *)
Theorem rclick_keeps_one_listener compiles scope attrs calls :
  let el := (foldl (RClick.rerun compiles scope) (RClick.fresh_element attrs, 0) calls).1 in
  RClick.event_listeners el
  = match RClick.clickHandler el, RClick.clickEventType el with
    | Some h, Some ty => [(ty, h)]
    | _, _ => []
    end.
Proof.
  cbn zeta.
  assert (Hgen : ∀ st,
            RClick.event_listeners st.1
            = match RClick.clickHandler st.1, RClick.clickEventType st.1 with
              | Some h, Some ty => [(ty, h)]
              | _, _ => []
              end →
            RClick.event_listeners (foldl (RClick.rerun compiles scope) st calls).1
            = match RClick.clickHandler (foldl (RClick.rerun compiles scope) st calls).1,
                    RClick.clickEventType (foldl (RClick.rerun compiles scope) st calls).1 with
              | Some h, Some ty => [(ty, h)]
              | _, _ => []
              end).
  { induction calls as [|call calls IH]; intros st Hst; [done|].
    cbn [foldl]. apply IH. destruct st as [el next]. unfold RClick.rerun.
    cbn [fst] in *.
    destruct (RClick.handler compiles call.2 scope next _) as [[el1 next1] lg] eqn:E.
    cbn [fst].
    pose proof (rclick_handler_inv compiles call.2 scope next
                  (RClick.mkElement call.1 (RClick.clickHandler el) (RClick.clickFn el)
                     (RClick.clickEventType el) (RClick.clickCode el)
                     (RClick.listeners el)) Hst) as H.
    rewrite E in H. exact H. }
  by apply Hgen.
Qed.

(** ** From a write to the frame *)

(** X28. A function handed to the scheduler between two frames is
    called by the next frame: after the [add] exactly one frame is
    requested, the function is in the queue, and that frame calls the
    functions of the queue, each once, after those called before. *)
Theorem added_function_runs_next_frame code s f :
  BatchUpdater.reachable code s →
  let s1 := BatchUpdater.add (VFun f) s in
  BatchUpdater.raf s1 = 1
  ∧ f ∈ BatchUpdater.queue s1
  ∧ NoDup (BatchUpdater.queue s1)
  ∧ BatchUpdater.ran (BatchUpdater.frame code s1)
    = BatchUpdater.ran s ++ BatchUpdater.queue s1.
Proof.
  intros Hr. cbn zeta.
  assert (Hinv : BatchUpdater.raf s = (if BatchUpdater.isUpdating s then 1 else 0)
                 ∧ NoDup (BatchUpdater.queue s)).
  { clear f. induction Hr as [|g s Hr [IH1 IH2]|s Hr [IH1 IH2] Hraf].
    - split; [done | constructor].
    - split; [by apply add_keeps_one_frame | by apply add_queue_NoDup].
    - by apply frame_keeps_one_frame. }
  destruct Hinv as [I1 I2].
  pose proof (add_keeps_one_frame (VFun f) s I1) as H1.
  pose proof (add_queue_NoDup (VFun f) s I2) as H2.
  split_and!.
  - rewrite H1. unfold BatchUpdater.add. cbn.
    destruct (BatchUpdater.isUpdating s) eqn:E; cbn; by rewrite ?E.
  - rewrite add_queue_fun. apply jsset_elem_of_add. by left.
  - exact H2.
  - unfold BatchUpdater.frame. rewrite executeQueue_runs_snapshot. cbn [BatchUpdater.ran BatchUpdater.queue].
    by rewrite add_ran.
Qed.

Lemma added_function_runs_next_frame_witness :
  BatchUpdater.ran
    (BatchUpdater.frame chained_code
       (BatchUpdater.add (VFun 7)
          (BatchUpdater.frame chained_code
             (BatchUpdater.add (VFun 0) BatchUpdater.init))))
  = [0; 1; 7].
Proof.
  exact (proj2 (proj2 (proj2
    (added_function_runs_next_frame chained_code
       (BatchUpdater.frame chained_code (BatchUpdater.add (VFun 0) BatchUpdater.init)) 7
       (BatchUpdater.reach_frame chained_code _
          (BatchUpdater.reach_add chained_code (VFun 0) _
             (BatchUpdater.reach_init chained_code))
          ltac:(cbn; lia)))))).
Defined.

Lemma notify_fold_raf fs bu :
  BatchUpdater.raf bu
  ≤ BatchUpdater.raf (foldl (λ s f, BatchUpdater.add (VFun f) s) bu fs)
  ≤ (if BatchUpdater.isUpdating bu then BatchUpdater.raf bu else S (BatchUpdater.raf bu)).
Proof.
  destruct fs as [|f fs].
  - cbn. destruct (BatchUpdater.isUpdating bu); lia.
  - destruct (notify_fold_frame (f :: fs) bu ltac:(done)) as [_ ->].
    destruct (BatchUpdater.isUpdating bu); lia.
Qed.

Lemma notify_fold_updating fs bu :
  BatchUpdater.isUpdating bu = true →
  BatchUpdater.isUpdating (foldl (λ s f, BatchUpdater.add (VFun f) s) bu fs) = true.
Proof.
  revert bu. induction fs as [|f fs IH]; intros bu H; [done|].
  cbn [foldl]. apply IH. by apply add_keeps_updating.
Qed.

(** X29. Writes to a cell between two frames are batched: however
    many values are written, nothing is run during the writes, no
    function is queued twice, only subscribers of the cell are added to
    the queue, and at most one frame is requested on top of those
    pending. *)
Theorem ref_writes_are_batched vs c bu :
  NoDup (BatchUpdater.queue bu) →
  let st := foldl (λ st v, Ref.set v st.1 st.2) (c, bu) vs in
  BatchUpdater.ran st.2 = BatchUpdater.ran bu
  ∧ NoDup (BatchUpdater.queue st.2)
  ∧ (∀ f, f ∈ BatchUpdater.queue st.2 →
          f ∈ BatchUpdater.queue bu ∨ f ∈ Dependency.subscribers (Ref.dep c))
  ∧ BatchUpdater.raf st.2
    ≤ (if BatchUpdater.isUpdating bu then BatchUpdater.raf bu else S (BatchUpdater.raf bu))
  ∧ Ref.dep st.1 = Ref.dep c.
Proof.
  revert c bu. induction vs as [|v vs IH]; intros c bu Hnd.
  - cbn. split_and!; try done; [by left | destruct (BatchUpdater.isUpdating bu); lia].
  - cbn [foldl fst snd].
    destruct (Ref.set v c bu) as [c1 bu1] eqn:E.
    assert (Hstep : BatchUpdater.ran bu1 = BatchUpdater.ran bu
                    ∧ NoDup (BatchUpdater.queue bu1)
                    ∧ (∀ f, f ∈ BatchUpdater.queue bu1 →
                            f ∈ BatchUpdater.queue bu
                            ∨ f ∈ Dependency.subscribers (Ref.dep c))
                    ∧ BatchUpdater.raf bu ≤ BatchUpdater.raf bu1
                      ≤ (if BatchUpdater.isUpdating bu then BatchUpdater.raf bu
                         else S (BatchUpdater.raf bu))
                    ∧ (BatchUpdater.isUpdating bu = true →
                       BatchUpdater.isUpdating bu1 = true)
                    ∧ (BatchUpdater.isUpdating bu1 = false → bu1 = bu)
                    ∧ Ref.dep c1 = Ref.dep c).
    { unfold Ref.set in E. destruct (negb _).
      - injection E as <- <-. unfold Dependency.notify. cbn [Dependency.targets Ref.dep].
        split_and!.
        + apply notify_fold_ran.
        + by apply notify_fold_NoDup.
        + intros f Hf. by apply notify_fold_elem in Hf.
        + apply notify_fold_raf.
        + apply notify_fold_raf.
        + apply notify_fold_updating.
        + intros Hidle. destruct (Dependency.subscribers (Ref.dep c)) as [|g gs] eqn:Es;
            [done|].
          destruct (notify_fold_frame (g :: gs) bu ltac:(done)) as [Hu _].
          congruence.
        + done.
      - injection E as <- <-.
        split_and!; try done; try (by left); try lia;
          destruct (BatchUpdater.isUpdating bu); lia. }
    destruct Hstep as (S1 & S2 & S3 & S4 & S5 & S6 & S7).
    destruct (IH c1 bu1 S2) as (I1 & I2 & I3 & I4 & I5).
    split_and!; [congruence | done | | | congruence].
    + intros f Hf. destruct (I3 f Hf) as [H|H]; [by apply S3 | right; by rewrite <- S7].
    + destruct (BatchUpdater.isUpdating bu) eqn:Eu.
      * rewrite (S5 eq_refl) in I4. lia.
      * destruct (BatchUpdater.isUpdating bu1) eqn:Eu1; [lia|].
        pose proof (S6 eq_refl) as ->. lia.
Qed.

Lemma ref_writes_are_batched_witness :
  BatchUpdater.raf
    (foldl (λ st v, Ref.set v st.1 st.2)
       ((Ref.get [5] (Ref.ref (VNum (Num 0)))).2, BatchUpdater.init)
       [VNum (Num 1); VNum (Num 2); VNum (Num 3)]).2
  ≤ 1.
Proof.
  exact (proj1 (proj2 (proj2 (proj2
    (ref_writes_are_batched [VNum (Num 1); VNum (Num 2); VNum (Num 3)]
       (Ref.get [5] (Ref.ref (VNum (Num 0)))).2 BatchUpdater.init
       (NoDup_nil_2)))))).
Defined.
